(** * Resumable chunked upload coordinator (server.js and main.go)

    A shallow embedding of the two upload servers of the repository: the
    Express server [src/server.js] (module [Js]) and the Fiber server
    [src/main.go] (module [Go]).  Both keep the upload sessions in a
    process-wide map [multipartUploads] and talk to a MinIO bucket.

    What is modelled and how:
    - the bucket is a finite map from object keys to bytes;
    - every client call (putObject, getObject, ...) may fail: the world
      carries the list [faults] of outcomes of the coming calls, one entry
      consumed per call ([true]: the call fails and leaves the bucket as it
      was); an exhausted list means that the remaining calls succeed;
    - a handler is a function from the world to a response, the next world
      and the list of client calls it issued, in order;
    - a handler runs from its first to its last line without another request
      in between (interleaving at the awaits is not represented);
    - the sizes and chunk counts of a session and the chunk indices are
      integers ([Z]), and the decimal text of an integer is [pretty]; the
      fields of the body of POST /api/upload/init in server.js are JavaScript
      values, numbers among them as IEEE 754 doubles (section "JavaScript
      values"); the [progress] percentage is left out of the responses;
    - [uuidv4()], [Date.now()] and [time.Now()] are inputs of the handler. *)

From Stdlib Require Import Ascii.
From stdpp Require Import base gmap strings pretty list.

Abbreviation bytes := (list Byte.byte).

(** ** Strings *)

(** [strings.Contains(s, sub)] *)
Fixpoint Contains (s sub : string) : bool :=
  String.prefix sub s ||
  match s with
  | EmptyString => false
  | String _ s' => Contains s' sub
  end.

Definition is_digit (c : ascii) : bool :=
  (48 <=? nat_of_ascii c)%nat && (nat_of_ascii c <=? 57)%nat.

(** The characters of a string all satisfy [P]. *)
Fixpoint string_all (P : ascii → bool) (s : string) : bool :=
  match s with
  | EmptyString => true
  | String c s' => P c && string_all P s'
  end.

Definition all_digits (s : string) : bool := string_all is_digit s.

Definition not_dot (c : ascii) : bool := negb (Ascii.eqb c "."%char).

(** The shape [*.part<digits>] of the key of a stored chunk. *)
Definition part_key_pattern (k : string) : Prop :=
  ∃ base digits, k = base +:+ ".part" +:+ digits ∧ digits ≠ "" ∧ all_digits digits = true.

(** `${objectName}.part${i}` and [fmt.Sprintf("%s.part%d", objectName, i)] *)
Definition chunkObjectName (objectName : string) (i : Z) : string :=
  objectName +:+ ".part" +:+ pretty i.

(** `${Date.now()}_${fileName}` and [fmt.Sprintf("%d_%s", now, fileName)] *)
Definition make_objectName (now : Z) (fileName : string) : string :=
  pretty now +:+ "_" +:+ fileName.

(** ** Sessions, bucket and world *)

Record UploadInfo := mkUploadInfo {
  fileName : string;
  objectName : string;
  fileSize : Z;
  chunkSize : Z;
  totalChunks : Z;
  uploadedChunks : gset Z;
  createdAt : Z
}.

Record Config := mkConfig {
  endPoint : string;
  port : Z;
  bucketName : string
}.

Inductive call :=
| PutObject (key : string) (data : bytes)
| GetObject (key : string)
| ReadStream (key : string)
| CopyObject (dst src : string)
| RemoveObject (key : string)
| ListObjects.

Inductive exn :=
| MinioError (c : call)
| TypeError.

Record world := World {
  objects : gmap string bytes;
  faults : list bool;
  multipartUploads : gmap string UploadInfo
}.

Record file_entry := mkFile {
  fe_name : string;
  fe_size : Z;
  fe_url : string
}.

Inductive response :=
| InitOk (uploadId objName : string) (total : Z)
| ChunkOk (chunkIndex : Z) (uploaded : nat) (total : Z)
| CompleteOk (downloadUrl fName objName : string)
| CancelOk
| StatusOk (uploadId fName : string) (uploaded : nat) (total : Z)
| FilesOk (files : list file_entry)
| DeleteOk
| MissingParams
| Incomplete (uploaded : nat) (total : Z)
| NoSuchUpload
| Failed (e : exn).

(** The HTTP status of a response. *)
Definition status (r : response) : Z :=
  match r with
  | MissingParams | Incomplete _ _ => 400
  | NoSuchUpload => 404
  | Failed _ => 500
  | _ => 200
  end.

(** `http://${endPoint}:${port}/${bucketName}/${objectName}` *)
Definition download_url (cfg : Config) (obj : string) : string :=
  "http://" +:+ endPoint cfg +:+ ":" +:+ pretty (port cfg) +:+ "/" +:+
  bucketName cfg +:+ "/" +:+ obj.

(** ** Computations on the world

    [M A] is a computation that reads and writes the world, records the
    client calls it makes, and ends with a value or with an error (a
    rejected promise in server.js, a non-nil [err] in main.go). *)

Definition M (A : Type) : Type := world → (exn + A) * world * list call.

Definition ret {A} (a : A) : M A := λ w, (inr a, w, []).

Definition throw {A} (e : exn) : M A := λ w, (inl e, w, []).

Definition bind {A B} (m : M A) (f : A → M B) : M B := λ w,
  match m w with
  | (inl e, w1, t1) => (inl e, w1, t1)
  | (inr a, w1, t1) =>
      match f a w1 with
      | (r, w2, t2) => (r, w2, t1 ++ t2)
      end
  end.

(** try { m } catch (e) { h e } *)
Definition try_catch {A} (m : M A) (h : exn → M A) : M A := λ w,
  match m w with
  | (inl e, w1, t1) =>
      match h e w1 with
      | (r, w2, t2) => (r, w2, t1 ++ t2)
      end
  | (inr a, w1, t1) => (inr a, w1, t1)
  end.

Notation "'do' x <- m ; k" := (bind m (λ x, k))
  (at level 10, x name, m at level 100, k at level 200,
   format "'[v' 'do'  x  <-  m ; '/' k ']'").
Notation "'run' m ; k" := (bind m (λ _, k))
  (at level 10, m at level 100, k at level 200,
   format "'[v' 'run'  m ; '/' k ']'").

(** for (const x of l) { body x } *)
Fixpoint forM_ {A} (l : list A) (body : A → M unit) : M unit :=
  match l with
  | [] => ret tt
  | x :: l' => run body x; forM_ l' body
  end.

(** for (const x of l) { out.push(await body x) } *)
Fixpoint forM {A B} (l : list A) (body : A → M B) : M (list B) :=
  match l with
  | [] => ret []
  | x :: l' => do y <- body x; do ys <- forM l' body; ret (y :: ys)
  end.

(** The outcome of the coming client call, and the world once it is used up. *)
Definition fails (w : world) : bool :=
  match faults w with
  | b :: _ => b
  | [] => false
  end.

Definition used (w : world) : world :=
  World (objects w) (tail (faults w)) (multipartUploads w).

(** *** The MinIO client *)

Definition putObject (key : string) (data : bytes) : M unit := λ w,
  if fails w then (inl (MinioError (PutObject key data)), used w, [PutObject key data])
  else (inr tt,
        World (<[key := data]> (objects w)) (tail (faults w)) (multipartUploads w),
        [PutObject key data]).

Definition copyObject (dst src : string) : M unit := λ w,
  if fails w then (inl (MinioError (CopyObject dst src)), used w, [CopyObject dst src])
  else match objects w !! src with
       | None => (inl (MinioError (CopyObject dst src)), used w, [CopyObject dst src])
       | Some data =>
           (inr tt,
            World (<[dst := data]> (objects w)) (tail (faults w)) (multipartUploads w),
            [CopyObject dst src])
       end.

(** Removing a key that is not in the bucket succeeds, as in S3. *)
Definition removeObject (key : string) : M unit := λ w,
  if fails w then (inl (MinioError (RemoveObject key)), used w, [RemoveObject key])
  else (inr tt,
        World (delete key (objects w)) (tail (faults w)) (multipartUploads w),
        [RemoveObject key]).

Definition listObjects : M (list (string * bytes)) := λ w,
  if fails w then (inl (MinioError ListObjects), used w, [ListObjects])
  else (inr (map_to_list (objects w)), used w, [ListObjects]).

(** *** The session map *)

Definition get_upload (uploadId : string) : M (option UploadInfo) := λ w,
  (inr (multipartUploads w !! uploadId), w, []).

Definition set_upload (uploadId : string) (info : UploadInfo) : M unit := λ w,
  (inr tt, World (objects w) (faults w) (<[uploadId := info]> (multipartUploads w)), []).

Definition delete_upload (uploadId : string) : M unit := λ w,
  (inr tt, World (objects w) (faults w) (delete uploadId (multipartUploads w)), []).

(** uploadInfo.uploadedChunks.add(i) *)
Definition add_chunk (i : Z) (info : UploadInfo) : UploadInfo :=
  mkUploadInfo (fileName info) (objectName info) (fileSize info) (chunkSize info)
    (totalChunks info) ({[i]} ∪ uploadedChunks info) (createdAt info).

(** A handler answers 500 when its body ends with an error. *)
Definition handle (body : M response) : world → response * world * list call := λ w,
  match body w with
  | (inl e, w1, t) => (Failed e, w1, t)
  | (inr r, w1, t) => (r, w1, t)
  end.

(** ** Requests *)

(** The request of POST /api/upload/init as main.go binds it: a text and two
    integers, an absent field reading as [""] or [0].  For server.js it
    stands for the body with that text as [fileName] and these integers, as
    JSON numbers, as [fileSize] and [chunkSize] ([Js.json_body]). *)
Record InitRequest := mkInit {
  req_fileName : string;
  req_fileSize : Z;
  req_chunkSize : Z
}.

(** The form of POST /api/upload/chunk: [req_chunkIndex] is [None] when the
    field is absent (or, in main.go, when [strconv.Atoi] rejects it), else the
    integer it parses to; [req_chunk] is the uploaded file part, if any.
    A field for which [parseInt] gives NaN in server.js, and a part that
    main.go cannot open, are not represented. *)
Record ChunkRequest := mkChunk {
  req_uploadId : string;
  req_chunkIndex : option Z;
  req_chunk : option bytes
}.

(** ** JavaScript values

    The fields of [req.body] are what [express.json()] or
    [express.urlencoded()] put there: JSON values, or nothing.  The handler
    of POST /api/upload/init applies [!], a template literal, [parseInt],
    [/] and [Math.ceil] to them; this section gives these operations as
    ECMAScript defines them.

    A number is an IEEE 754 binary64 value.  [Finite negative m e] stands
    for (-1)^negative * m * 2^e; the operations read a number by this value
    (so [Finite false 3 0], [Finite false 6 (-1)] are the same number 3) and
    round their results to the nearest double, ties to the even significand.
    A string is held as its UTF-8 bytes. *)

Inductive number :=
| NaN
| Infinity (negative : bool)
| Finite (negative : bool) (m : N) (e : Z).

#[warnings="-register-all"] Inductive value :=
| Undefined
| Null
| Bool (b : bool)
| Num (x : number)
| Str (s : string)
| Arr (elements : list value)
| Obj (properties : list (string * value)).

(** *** Numbers *)

(** The number of an integer. *)
Definition integer (z : Z) : number := Finite (z <? 0)%Z (Z.abs_N z) 0.

(** The integer a number is, if it is one ([-0] is 0). *)
Definition to_integer (x : number) : option Z :=
  match x with
  | Finite negative m e =>
      let sign := if negative then (-1)%Z else 1%Z in
      if (0 <=? e)%Z then Some (sign * (Z.of_N m * 2 ^ e))%Z
      else if (Z.of_N m `mod` 2 ^ (- e) =? 0)%Z
           then Some (sign * (Z.of_N m `div` 2 ^ (- e)))%Z
           else None
  | _ => None
  end.

(** [floor (log2 (p / q))] for positive [p] and [q]. *)
Definition log2_ratio (p q : Z) : Z :=
  let g := (Z.log2 p - Z.log2 q)%Z in
  if (p * 2 ^ Z.max 0 (- g) <? q * 2 ^ Z.max 0 g)%Z then (g - 1)%Z else g.

(** The double nearest to [p / q], for positive [p] and [q]: [n * 2^u] with
    a significand [n] of 53 bits ([u] is the exponent of the last place, at
    least -1074), a tie going to the even [n]; what reaches 2^1024 is
    infinite. *)
Definition round_nearest (negative : bool) (p q : Z) : number :=
  let u := Z.max (log2_ratio p q - 52) (-1074) in
  let N := (p * 2 ^ Z.max 0 (- u))%Z in
  let D := (q * 2 ^ Z.max 0 u)%Z in
  let n := (N `div` D)%Z in
  let r := (N `mod` D)%Z in
  let n' := if (D <? 2 * r)%Z || ((D =? 2 * r)%Z && Z.odd n) then (n + 1)%Z else n in
  if (2 ^ 1024 <=? n' * 2 ^ Z.max 0 u)%Z then Infinity negative
  else Finite negative (Z.to_N n') u.

(** The number of the ratio [p / q] of a natural number and a positive one. *)
Definition ratio (negative : bool) (p q : Z) : number :=
  if (p =? 0)%Z then Finite negative 0 0 else round_nearest negative p q.

(** The number that [JSON.parse] reads in the decimal writing of an integer:
    below 2^53 the integer itself, else the double nearest to it. *)
Definition json_number (z : Z) : number :=
  if (Z.abs z <? 2 ^ 53)%Z then integer z else ratio (z <? 0)%Z (Z.abs z) 1.

(** Two finite numbers have the same value. *)
Definition same_value (x y : number) : bool :=
  match x, y with
  | Finite s1 m1 e1, Finite s2 m2 e2 =>
      (Z.of_N m1 * 2 ^ Z.max 0 (e1 - e2) =? Z.of_N m2 * 2 ^ Z.max 0 (e2 - e1))%Z
      && (bool_decide (s1 = s2) || (m1 =? 0)%N)
  | Infinity s1, Infinity s2 => bool_decide (s1 = s2)
  | _, _ => false
  end.

(** [x / y] *)
Definition divide (x y : number) : number :=
  match x, y with
  | NaN, _ | _, NaN => NaN
  | Infinity _, Infinity _ => NaN
  | Infinity sx, Finite sy _ _ => Infinity (xorb sx sy)
  | Finite sx _ _, Infinity sy => Finite (xorb sx sy) 0 0
  | Finite sx mx ex, Finite sy my ey =>
      if (my =? 0)%N then
        if (mx =? 0)%N then NaN else Infinity (xorb sx sy)
      else
        ratio (xorb sx sy) (Z.of_N mx * 2 ^ Z.max 0 (ex - ey)) (Z.of_N my * 2 ^ Z.max 0 (ey - ex))
  end.

(** [Math.ceil(x)] *)
Definition Math_ceil (x : number) : number :=
  match x with
  | Finite negative m e =>
      if (0 <=? e)%Z then x
      else if negative then Finite true (Z.to_N (Z.of_N m `div` 2 ^ (- e))) 0
           else Finite false (Z.to_N (- ((- Z.of_N m) `div` 2 ^ (- e)))) 0
  | _ => x
  end.

(** *** Text of a number: [Number::toString(x)], radix 10 *)

(** [count] times the character ["0"]. *)
Fixpoint zeros (count : nat) : string :=
  match count with
  | O => ""
  | S count' => String "0" (zeros count')
  end.

Fixpoint take_string (n : nat) (s : string) : string :=
  match n, s with
  | S n', String c s' => String c (take_string n' s')
  | _, _ => ""
  end.

Fixpoint drop_string (n : nat) (s : string) : string :=
  match n, s with
  | S n', String _ s' => drop_string n' s'
  | _, _ => s
  end.

(** The decimal [c * 10^t], as a number. *)
Definition decimal (negative : bool) (c t : Z) : number :=
  ratio negative (c * 10 ^ Z.max 0 t) (10 ^ Z.max 0 (- t)).

(** The [n] with [10^(n-1) <= p / q < 10^n], for positive [p] and [q]. *)
Fixpoint small_exponent (fuel : nat) (p q : Z) (n : Z) : Z :=
  match fuel with
  | O => n
  | S fuel' => if (p * 10 <? q)%Z then small_exponent fuel' (p * 10) q (n - 1) else n
  end.

Definition decimal_exponent (p q : Z) : Z :=
  if (q <=? p)%Z then Z.of_nat (String.length (pretty (p `div` q)%Z))
  else small_exponent 400 p q 0.

(** [c] without the zeros at its end, and their count added to [t]. *)
Fixpoint strip_zeros (fuel : nat) (c t : Z) : Z * Z :=
  match fuel with
  | O => (c, t)
  | S fuel' =>
      if (0 <? c)%Z && (c `mod` 10 =? 0)%Z then strip_zeros fuel' (c `div` 10) (t + 1)
      else (c, t)
  end.

(** The decimals of [k] digits next to [p / q], below and above, and the one
    of them that reads back as [x], the nearer one if both do. *)
Definition digits_of_length (x : number) (p q n k : Z) : option (Z * Z) :=
  let t := (n - k)%Z in
  let below := ((p * 10 ^ Z.max 0 (- t)) `div` (q * 10 ^ Z.max 0 t))%Z in
  let above := (below + 1)%Z in
  let reads_back c := same_value (decimal false c t) x in
  (* 2 * (p / q) against (below + above) * 10^t *)
  let twice := (2 * (p * 10 ^ Z.max 0 (- t)))%Z in
  let middle := ((below + above) * (q * 10 ^ Z.max 0 t))%Z in
  let nearer_below := (twice <? middle)%Z || ((twice =? middle)%Z && Z.even below) in
  match reads_back below, reads_back above with
  | true, true => Some (if nearer_below then below else above, t)
  | true, false => Some (below, t)
  | false, true => Some (above, t)
  | false, false => None
  end.

(** The shortest decimal [c * 10^t] that reads back as [x]: the digit
    counts [k], [k + 1], ... are tried in turn. *)
Fixpoint shortest_from (fuel : nat) (x : number) (p q n k : Z) : Z * Z :=
  match fuel with
  | O => (0%Z, 0%Z)
  | S fuel' =>
      match digits_of_length x p q n k with
      | Some ct => ct
      | None => shortest_from fuel' x p q n (k + 1)
      end
  end.

(** The digits [s], their count [k] and the exponent [n] of
    [Number::toString] for the positive value [m * 2^e]: the value is
    [0.s * 10^n]. Seventeen digits always read back as the same double. *)
Definition shortest_digits (m : N) (e : Z) : string * Z :=
  let p := (Z.of_N m * 2 ^ Z.max 0 e)%Z in
  let q := (2 ^ Z.max 0 (- e))%Z in
  let n := decimal_exponent p q in
  let '(c, t) := shortest_from 17 (Finite false m e) p q n 1 in
  let '(c, t) := strip_zeros 400 c t in
  (pretty c, (Z.of_nat (String.length (pretty c)) + t)%Z).

Definition Number_toString (x : number) : string :=
  match x with
  | NaN => "NaN"
  | Infinity negative => if negative then "-Infinity" else "Infinity"
  | Finite negative m e =>
      if (m =? 0)%N then "0"
      else
        let '(s, n) := shortest_digits m e in
        let k := Z.of_nat (String.length s) in
        (if negative then "-" else "") +:+
        (if (k <=? n)%Z && (n <=? 21)%Z then s +:+ zeros (Z.to_nat (n - k))
         else if (0 <? n)%Z && (n <=? 21)%Z then
           take_string (Z.to_nat n) s +:+ "." +:+ drop_string (Z.to_nat n) s
         else if (-6 <? n)%Z && (n <=? 0)%Z then "0." +:+ zeros (Z.to_nat (- n)) +:+ s
         else
           let exponent := (if (n - 1 <? 0)%Z then "-" else "+") +:+ pretty (Z.abs (n - 1)) in
           if (k =? 1)%Z then s +:+ "e" +:+ exponent
           else take_string 1 s +:+ "." +:+ drop_string 1 s +:+ "e" +:+ exponent)
  end.

(** *** Numbers of a text *)

(** The longest prefix of characters that satisfy [P], and the rest. *)
Fixpoint span (P : ascii → bool) (s : string) : string * string :=
  match s with
  | "" => ("", "")
  | String c s' =>
      if P c then let '(a, b) := span P s' in (String c a, b) else ("", s)
  end.

(** The value of a digit: 0-9, a-z and A-Z stand for 0 to 35. *)
Definition digit_of (c : ascii) : option Z :=
  let n := Z.of_nat (nat_of_ascii c) in
  if (48 <=? n)%Z && (n <=? 57)%Z then Some (n - 48)%Z
  else if (97 <=? n)%Z && (n <=? 122)%Z then Some (n - 87)%Z
  else if (65 <=? n)%Z && (n <=? 90)%Z then Some (n - 55)%Z
  else None.

Definition is_radix_digit (R : Z) (c : ascii) : bool :=
  match digit_of c with
  | Some d => (d <? R)%Z
  | None => false
  end.

(** The integer that the digits [s] write in radix [R], after [acc]. *)
Fixpoint radix_value (R : Z) (acc : Z) (s : string) : Z :=
  match s with
  | "" => acc
  | String c s' => radix_value R (acc * R + default 0%Z (digit_of c)) s'
  end.

(** The character of code [n]. *)
Definition utf8 (n : nat) : ascii := ascii_of_nat n.

(** WhiteSpace and LineTerminator: U+0009 to U+000D, U+0020, U+00A0, U+1680,
    U+2000 to U+200A, U+2028, U+2029, U+202F, U+205F, U+3000 and U+FEFF. *)
Definition white_space : list string :=
  [String (utf8 9) ""; String (utf8 10) ""; String (utf8 11) "";
   String (utf8 12) ""; String (utf8 13) ""; String (utf8 32) "";
   String (utf8 194) (String (utf8 160) "");
   String (utf8 225) (String (utf8 154) (String (utf8 128) ""));
   String (utf8 227) (String (utf8 128) (String (utf8 128) ""));
   String (utf8 239) (String (utf8 187) (String (utf8 191) ""))]
  ++ ((λ b, String (utf8 226) (String (utf8 128) (String (utf8 b) "")))
        <$> [128; 129; 130; 131; 132; 133; 134; 135; 136; 137; 138; 168; 169; 175]%nat)
  ++ [String (utf8 226) (String (utf8 129) (String (utf8 159) ""))].

(** [s] without the prefix [p], if it starts with it. *)
Fixpoint drop_prefix (p s : string) : option string :=
  match p, s with
  | "", _ => Some s
  | String a p', String b s' => if Ascii.eqb a b then drop_prefix p' s' else None
  | String _ _, "" => None
  end.

Fixpoint drop_one_of (tokens : list string) (s : string) : option string :=
  match tokens with
  | [] => None
  | t :: tokens' =>
      match drop_prefix t s with
      | Some rest => Some rest
      | None => drop_one_of tokens' s
      end
  end.

Fixpoint drop_all_of (fuel : nat) (tokens : list string) (s : string) : string :=
  match fuel with
  | O => s
  | S fuel' =>
      match drop_one_of tokens s with
      | Some rest => drop_all_of fuel' tokens rest
      | None => s
      end
  end.

Definition trim_start (s : string) : string :=
  drop_all_of (String.length s) white_space s.

Definition trim_end (s : string) : string :=
  String.rev (drop_all_of (String.length s) (String.rev <$> white_space) (String.rev s)).

(** The sign at the head of a text, and the text after it. *)
Definition split_sign (s : string) : bool * string :=
  match s with
  | String c rest =>
      if Ascii.eqb c "-" then (true, rest)
      else if Ascii.eqb c "+" then (false, rest)
      else (false, s)
  | "" => (false, s)
  end.

(** The text starts with [0x] or [0X]. *)
Definition hex_prefix (s : string) : bool :=
  match s with
  | String c1 (String c2 _) => Ascii.eqb c1 "0" && (Ascii.eqb c2 "x" || Ascii.eqb c2 "X")
  | _ => false
  end.

(** [parseInt(s)] for a string [s], no radix given: leading white space is
    skipped, a sign and [0x] are read, then the digits as far as they go. *)
Definition parseInt_string (s : string) : number :=
  let '(negative, text) := split_sign (trim_start s) in
  let '(R, text) := if hex_prefix text then (16%Z, drop_string 2 text) else (10%Z, text) in
  let '(digits, _) := span (is_radix_digit R) text in
  match digits with
  | "" => NaN
  | _ => ratio negative (radix_value R 0 digits) 1
  end.

(** NonDecimalIntegerLiteral: [0x], [0o] or [0b] and digits of that radix. *)
Definition non_decimal (s : string) : option number :=
  match s with
  | String "0" (String c digits) =>
      let radix :=
        match c with
        | "x" | "X" => Some 16%Z
        | "o" | "O" => Some 8%Z
        | "b" | "B" => Some 2%Z
        | _ => None
        end%char in
      match radix, digits with
      | Some R, String _ _ =>
          if string_all (is_radix_digit R) digits
          then Some (ratio false (radix_value R 0 digits) 1)
          else None
      | _, _ => None
      end
  | _ => None
  end.

(** The exponent part of a decimal literal: nothing, or [e] or [E], a sign
    if any, and digits. *)
Definition exponent_part (s : string) : option Z :=
  match s with
  | "" => Some 0%Z
  | String c rest =>
      if Ascii.eqb c "e" || Ascii.eqb c "E" then
        let '(negative, digits) := split_sign rest in
        match digits with
        | "" => None
        | _ =>
            if string_all is_digit digits
            then Some (if negative then - radix_value 10 0 digits else radix_value 10 0 digits)%Z
            else None
        end
      else None
  end.

(** StrDecimalLiteral: a sign if any, then [Infinity], or digits with a
    point and an exponent part if any. *)
Definition decimal_literal (s : string) : option number :=
  let '(negative, s) := split_sign s in
  if bool_decide (s = "Infinity") then Some (Infinity negative)
  else
    let '(whole, rest) := span is_digit s in
    let '(fraction, rest) :=
      match rest with
      | String "." rest' => span is_digit rest'
      | _ => ("", rest)
      end in
    match whole +:+ fraction, exponent_part rest with
    | String _ _ as digits, Some exponent =>
        Some (decimal negative (radix_value 10 0 digits)
                (exponent - Z.of_nat (String.length fraction)))
    | _, _ => None
    end.

(** [StringToNumber(s)] *)
Definition StringToNumber (s : string) : number :=
  match trim_end (trim_start s) with
  | "" => Finite false 0 0
  | text =>
      match non_decimal text with
      | Some x => x
      | None => default NaN (decimal_literal text)
      end
  end.

(** *** Conversions of a value *)

(** [ToBoolean(v)]: what [!v] negates. *)
Definition ToBoolean (v : value) : bool :=
  match v with
  | Undefined | Null => false
  | Bool b => b
  | Num NaN => false
  | Num (Finite _ m _) => negb (m =? 0)%N
  | Num (Infinity _) => true
  | Str s => negb (bool_decide (s = ""))
  | Arr _ | Obj _ => true
  end.

(** [ToString(v)], as in a template literal; [None] is a TypeError.  An
    array is the texts of its elements joined by commas ([null] and
    [undefined] give no text).  An object parsed from JSON is
    ["[object Object]"], unless it has a property [toString] of its own:
    that one is no function, and neither it nor [valueOf] gives a text. *)
Fixpoint ToString (v : value) : option string :=
  match v with
  | Undefined => Some "undefined"
  | Null => Some "null"
  | Bool b => Some (if b then "true" else "false")
  | Num x => Some (Number_toString x)
  | Str s => Some s
  | Arr elements =>
      let texts :=
        (fix texts (l : list value) : option (list string) :=
           match l with
           | [] => Some []
           | e :: l' =>
               match
                 match e with
                 | Undefined | Null => Some ""
                 | _ => ToString e
                 end, texts l'
               with
               | Some s, Some ss => Some (s :: ss)
               | _, _ => None
               end
           end) elements in
      String.concat "," <$> texts
  | Obj properties =>
      if bool_decide ("toString" ∈ properties.*1) then None
      else Some "[object Object]"
  end.

(** [ToNumber(v)], as the operands of [/] are read; [None] is a TypeError. *)
Definition ToNumber (v : value) : option number :=
  match v with
  | Undefined => Some NaN
  | Null => Some (Finite false 0 0)
  | Bool b => Some (Finite false (if b then 1 else 0) 0)
  | Num x => Some x
  | Str s => Some (StringToNumber s)
  | Arr _ | Obj _ => StringToNumber <$> ToString v
  end.

(** [parseInt(v)] *)
Definition parseInt (v : value) : option number := parseInt_string <$> ToString v.

(** ** server.js *)

Module Js.

(** [Math.ceil(a / b)] for integers [a] and [b ≠ 0]. *)
Definition ceil_div (a b : Z) : Z := (- ((- a) `div` b))%Z.

(** [await minioClient.getObject(bucketName, key)]: the promise is rejected
    when the request fails or the key is not in the bucket. *)
Definition getObject (key : string) : M bytes := λ w,
  if fails w then (inl (MinioError (GetObject key)), used w, [GetObject key])
  else match objects w !! key with
       | None => (inl (MinioError (GetObject key)), used w, [GetObject key])
       | Some data => (inr data, used w, [GetObject key])
       end.

(** The promise around the stream: the data events are collected until
    'end'; an 'error' event rejects. *)
Definition readStream (key : string) (stream : bytes) : M bytes := λ w,
  if fails w then (inl (MinioError (ReadStream key)), used w, [ReadStream key])
  else (inr stream, used w, [ReadStream key]).

(** *** POST /api/upload/init *)

(** The fields of [req.body] that the handler reads. *)
Record InitBody := mkBody {
  body_fileName : value;
  body_fileSize : value;
  body_chunkSize : value
}.

(** The object put into [multipartUploads] ([uploadedChunks] is a new, empty
    set and [createdAt] the time of the call). *)
Record Session := mkSession {
  session_fileName : value;
  session_objectName : string;
  session_fileSize : number;
  session_chunkSize : number;
  session_totalChunks : number
}.

(** The three ends of the handler: the answer 400 of line 70, the answer 500
    of the [catch], and the answer 200 after [multipartUploads.set(uploadId,
    session)]; the answer 200 carries [uploadId] and the [objectName] and
    [totalChunks] of the session. *)
Inductive init_result :=
| Init400
| Init500
| Init200 (uploadId : string) (session : Session).

(** POST /api/upload/init, on the values of the body. *)
Definition upload_init_body (uuid : string) (now : Z) (body : InitBody) : init_result :=
  let fileName := body_fileName body in
  let fileSize := body_fileSize body in
  let chunkSize := body_chunkSize body in
  if negb (ToBoolean fileName) || negb (ToBoolean fileSize) || negb (ToBoolean chunkSize)
  then Init400
  else
    let uploadId := uuid in
    match
      name ← ToString fileName;
      let objectName := make_objectName now name in
      size ← parseInt fileSize;
      chunk ← parseInt chunkSize;
      dividend ← ToNumber fileSize;
      divisor ← ToNumber chunkSize;
      Some (mkSession fileName objectName size chunk (Math_ceil (divide dividend divisor)))
    with
    | Some session => Init200 uploadId session
    | None => Init500
    end.

(** The session as the world holds it: its file name is a text and its
    sizes are integers.  A session with another file name, or with a size
    that is [NaN] or infinite, is none of the sessions of a [world]. *)
Definition session_info (created : Z) (session : Session) : option UploadInfo :=
  match session_fileName session with
  | Str fileName =>
      size ← to_integer (session_fileSize session);
      chunk ← to_integer (session_chunkSize session);
      total ← to_integer (session_totalChunks session);
      Some (mkUploadInfo fileName (session_objectName session) size chunk total ∅ created)
  | _ => None
  end.

(** The handler as a step of the world; [None] when the session it stores
    is none of the sessions of a [world]. *)
Definition upload_init_json (uuid : string) (now created : Z) (body : InitBody)
  : world → option (response * world * list call) := λ w,
  match upload_init_body uuid now body with
  | Init400 => Some (MissingParams, w, [])
  | Init500 => Some (Failed TypeError, w, [])
  | Init200 uploadId session =>
      info ← session_info created session;
      Some (InitOk uploadId (session_objectName session) (totalChunks info),
            World (objects w) (faults w) (<[uploadId := info]> (multipartUploads w)), [])
  end.

(** The body of a request with a text as file name and integers as sizes,
    sent as JSON numbers. *)
Definition json_body (req : InitRequest) : InitBody :=
  mkBody (Str (req_fileName req)) (Num (json_number (req_fileSize req)))
    (Num (json_number (req_chunkSize req))).

(** What the handler does with a text and two integers, read off the
    integers: [!fileSize] as [fileSize = 0], [parseInt(fileSize)] as
    [fileSize] and [Math.ceil(fileSize / chunkSize)] as
    [ceil_div fileSize chunkSize].  For sizes below 2^53 in absolute value
    this is the handler on the body [json_body req]
    ([upload_init_json_integers]). *)
Definition upload_init_integers (uuid : string) (now created : Z) (req : InitRequest)
  : M response :=
  if bool_decide (req_fileName req = "") || bool_decide (req_fileSize req = 0%Z)
     || bool_decide (req_chunkSize req = 0%Z)
  then ret MissingParams
  else
    let uploadId := uuid in
    let objectName := make_objectName now (req_fileName req) in
    run set_upload uploadId
          (mkUploadInfo (req_fileName req) objectName (req_fileSize req)
             (req_chunkSize req) (ceil_div (req_fileSize req) (req_chunkSize req))
             ∅ created);
    ret (InitOk uploadId objectName (ceil_div (req_fileSize req) (req_chunkSize req))).

(** The handler as a step of the world for a request with a text as file
    name and integers as sizes: [upload_init_json] on the body
    [json_body req].  Where the session that the handler stores is none of
    the sessions of a world (a size too large for a double is read as
    [Infinity] and stored as [NaN]), the step is read off the integers. *)
Definition upload_init (uuid : string) (now created : Z) (req : InitRequest)
  : world → response * world * list call := λ w,
  match upload_init_json uuid now created (json_body req) w with
  | Some r => r
  | None => handle (upload_init_integers uuid now created req) w
  end.

(** POST /api/upload/chunk *)
Definition upload_chunk_body (req : ChunkRequest) : M response :=
  match req_chunkIndex req, req_chunk req with
  | Some chunkIndex, Some chunk =>
      if bool_decide (req_uploadId req = "") then ret MissingParams
      else
        do found <- get_upload (req_uploadId req);
        match found with
        | None => ret NoSuchUpload
        | Some uploadInfo =>
            let chunkIndexNum := chunkIndex in
            let chunkObjectName := chunkObjectName (objectName uploadInfo) chunkIndexNum in
            run putObject chunkObjectName chunk;
            run set_upload (req_uploadId req) (add_chunk chunkIndexNum uploadInfo);
            ret (ChunkOk chunkIndexNum
                   (size (uploadedChunks (add_chunk chunkIndexNum uploadInfo)))
                   (totalChunks uploadInfo))
        end
  | _, _ => ret MissingParams
  end.

Definition upload_chunk req := handle (upload_chunk_body req).

(** POST /api/upload/complete *)
Definition upload_complete_body (cfg : Config) (uploadId : string) : M response :=
  if bool_decide (uploadId = "") then ret MissingParams
  else
    do found <- get_upload uploadId;
    match found with
    | None => ret NoSuchUpload
    | Some uploadInfo =>
        if bool_decide (Z.of_nat (size (uploadedChunks uploadInfo)) ≠ totalChunks uploadInfo)
        then ret (Incomplete (size (uploadedChunks uploadInfo)) (totalChunks uploadInfo))
        else
          let chunkObjects :=
            chunkObjectName (objectName uploadInfo) <$> seqZ 0 (totalChunks uploadInfo) in
          let finalObject := objectName uploadInfo in
          run (if bool_decide (1 < length chunkObjects)%nat then
                 do chunks <- forM chunkObjects (λ name,
                                do chunkStream <- getObject name;
                                readStream name chunkStream);
                 let mergedData := concat chunks in
                 run putObject finalObject mergedData;
                 forM_ chunkObjects (λ name,
                   try_catch (removeObject name) (λ _, ret tt))
               else
                 match chunkObjects !! 0%nat with
                 | None => throw TypeError
                 | Some chunk0 =>
                     run copyObject finalObject chunk0;
                     removeObject chunk0
                 end);
          let downloadUrl := download_url cfg finalObject in
          run delete_upload uploadId;
          ret (CompleteOk downloadUrl (fileName uploadInfo) finalObject)
    end.

Definition upload_complete cfg uploadId := handle (upload_complete_body cfg uploadId).

(** DELETE /api/upload/:uploadId *)
Definition upload_cancel_body (uploadId : string) : M response :=
  do found <- get_upload uploadId;
  match found with
  | None => ret NoSuchUpload
  | Some uploadInfo =>
      run forM_ (seqZ 0 (totalChunks uploadInfo)) (λ i,
            let chunkObjectName := chunkObjectName (objectName uploadInfo) i in
            try_catch (removeObject chunkObjectName) (λ _, ret tt));
      run delete_upload uploadId;
      ret CancelOk
  end.

Definition upload_cancel uploadId := handle (upload_cancel_body uploadId).

(** GET /api/upload/:uploadId/status *)
Definition upload_status_body (uploadId : string) : M response :=
  do found <- get_upload uploadId;
  match found with
  | None => ret NoSuchUpload
  | Some uploadInfo =>
      ret (StatusOk uploadId (fileName uploadInfo)
             (size (uploadedChunks uploadInfo)) (totalChunks uploadInfo))
  end.

Definition upload_status uploadId := handle (upload_status_body uploadId).

(** GET /api/files *)
Definition files_list_body (cfg : Config) : M response :=
  do stream <- listObjects;
  ret (FilesOk ((λ obj, mkFile obj.1 (Z.of_nat (length obj.2)) (download_url cfg obj.1))
                  <$> stream)).

Definition files_list cfg := handle (files_list_body cfg).

(** DELETE /api/files/:objectName *)
Definition files_delete_body (objectName : string) : M response :=
  run removeObject objectName;
  ret DeleteOk.

Definition files_delete objectName := handle (files_delete_body objectName).

End Js.

(** ** main.go

    A Go call [x, err := f(...)] followed by [if err != nil { return 500 }] is
    the bind of [M] under [handle]; [if err != nil { log.Printf(...) }] is
    [try_catch] with a handler that goes on. *)

Module Go.

(** Two's complement wrap-around of [int64] (and of [int] on a 64-bit target). *)
Definition wrap64 (x : Z) : Z := ((x + 2 ^ 63) `mod` 2 ^ 64 - 2 ^ 63)%Z.

(** [minioClient.GetObject]: hands out a reader; nothing is fetched yet. *)
Definition minio_GetObject (key : string) : M string := λ w,
  if fails w then (inl (MinioError (GetObject key)), used w, [GetObject key])
  else (inr key, used w, [GetObject key]).

(** [io.ReadAll(obj)]: fetches the object behind the reader. *)
Definition io_ReadAll (obj : string) : M bytes := λ w,
  if fails w then (inl (MinioError (ReadStream obj)), used w, [ReadStream obj])
  else match objects w !! obj with
       | None => (inl (MinioError (ReadStream obj)), used w, [ReadStream obj])
       | Some data => (inr data, used w, [ReadStream obj])
       end.

Definition initMultipartUpload_body (uuid : string) (now created : Z) (request : InitRequest)
  : M response :=
  if bool_decide (req_fileName request = "") || bool_decide (req_fileSize request = 0%Z)
     || bool_decide (req_chunkSize request = 0%Z)
  then ret MissingParams
  else
    let uploadID := uuid in
    let objectName := make_objectName now (req_fileName request) in
    let totalChunks :=
      wrap64 (wrap64 (req_fileSize request + req_chunkSize request - 1)
                `quot` req_chunkSize request) in
    run set_upload uploadID
          (mkUploadInfo (req_fileName request) objectName (req_fileSize request)
             (req_chunkSize request) totalChunks ∅ created);
    ret (InitOk uploadID objectName totalChunks).

Definition initMultipartUpload uuid now created request :=
  handle (initMultipartUpload_body uuid now created request).

Definition uploadChunk_body (req : ChunkRequest) : M response :=
  if bool_decide (req_uploadId req = "") then ret MissingParams
  else
    match req_chunkIndex req with
    | None => ret MissingParams
    | Some chunkIndex =>
        do found <- get_upload (req_uploadId req);
        match found with
        | None => ret NoSuchUpload
        | Some uploadInfo =>
            match req_chunk req with
            | None => ret MissingParams
            | Some fileContent =>
                let chunkObjectName := chunkObjectName (objectName uploadInfo) chunkIndex in
                run putObject chunkObjectName fileContent;
                run set_upload (req_uploadId req) (add_chunk chunkIndex uploadInfo);
                let uploadedCount := size (uploadedChunks (add_chunk chunkIndex uploadInfo)) in
                ret (ChunkOk chunkIndex uploadedCount (totalChunks uploadInfo))
            end
        end
    end.

Definition uploadChunk req := handle (uploadChunk_body req).

Definition completeMultipartUpload_body (cfg : Config) (uploadID : string) : M response :=
  if bool_decide (uploadID = "") then ret MissingParams
  else
    do found <- get_upload uploadID;
    match found with
    | None => ret NoSuchUpload
    | Some uploadInfo =>
        let uploadedCount := size (uploadedChunks uploadInfo) in
        let totalChunks := totalChunks uploadInfo in
        if bool_decide (Z.of_nat uploadedCount ≠ totalChunks)
        then ret (Incomplete uploadedCount totalChunks)
        else
          let finalObject := objectName uploadInfo in
          run (if bool_decide (1 < totalChunks)%Z then
                 do chunks <- forM (seqZ 0 totalChunks) (λ i,
                                let chunkObjectName := chunkObjectName (objectName uploadInfo) i in
                                do obj <- minio_GetObject chunkObjectName;
                                io_ReadAll obj);
                 let mergedData := concat chunks in
                 run putObject finalObject mergedData;
                 forM_ (seqZ 0 totalChunks) (λ i,
                   let chunkObjectName := chunkObjectName (objectName uploadInfo) i in
                   try_catch (removeObject chunkObjectName) (λ _, ret tt))
               else
                 let chunkObjectName := chunkObjectName (objectName uploadInfo) 0 in
                 run copyObject finalObject chunkObjectName;
                 try_catch (removeObject chunkObjectName) (λ _, ret tt));
          let downloadURL := download_url cfg finalObject in
          run delete_upload uploadID;
          ret (CompleteOk downloadURL (fileName uploadInfo) finalObject)
    end.

Definition completeMultipartUpload cfg uploadID :=
  handle (completeMultipartUpload_body cfg uploadID).

Definition cancelUpload_body (uploadID : string) : M response :=
  do found <- get_upload uploadID;
  match found with
  | None => ret NoSuchUpload
  | Some uploadInfo =>
      run forM_ (seqZ 0 (totalChunks uploadInfo)) (λ i,
            let chunkObjectName := chunkObjectName (objectName uploadInfo) i in
            try_catch (removeObject chunkObjectName) (λ _, ret tt));
      run delete_upload uploadID;
      ret CancelOk
  end.

Definition cancelUpload uploadID := handle (cancelUpload_body uploadID).

Definition getUploadStatus_body (uploadID : string) : M response :=
  do found <- get_upload uploadID;
  match found with
  | None => ret NoSuchUpload
  | Some uploadInfo =>
      ret (StatusOk uploadID (fileName uploadInfo)
             (size (uploadedChunks uploadInfo)) (totalChunks uploadInfo))
  end.

Definition getUploadStatus uploadID := handle (getUploadStatus_body uploadID).

Definition listFiles_body (cfg : Config) : M response :=
  do objectCh <- listObjects;
  ret (FilesOk ((λ object, mkFile object.1 (Z.of_nat (length object.2))
                             (download_url cfg object.1))
                  <$> filter (λ object, Contains object.1 ".part" = false) objectCh)).

Definition listFiles cfg := handle (listFiles_body cfg).

Definition deleteFile_body (objectName : string) : M response :=
  run removeObject objectName;
  ret DeleteOk.

Definition deleteFile objectName := handle (deleteFile_body objectName).

End Go.

(** ** Definitions used to state the properties *)

(** What the part-deleting loops do to the world: one [removeObject] per key,
    its failure ignored. *)
Fixpoint drop_parts (keys : list string) (w : world) : world :=
  match keys with
  | [] => w
  | k :: ks =>
      drop_parts ks
        (if fails w then used w
         else World (delete k (objects w)) (tail (faults w)) (multipartUploads w))
  end.

(** The client calls that read an object. *)
Definition is_read (c : call) : Prop :=
  match c with
  | GetObject _ | ReadStream _ => True
  | _ => False
  end.

(** The errors of reading a part or writing the final object. *)
Definition read_or_write_error (e : exn) : Prop :=
  match e with
  | MinioError (GetObject _) | MinioError (ReadStream _)
  | MinioError (PutObject _ _) | MinioError (CopyObject _ _) => True
  | _ => False
  end.

(** The stored contents of the parts [0 .. total-1] of an object, in that
    order ([None] when one of them is not in the bucket). *)
Definition stored_parts (objs : gmap string bytes) (objName : string) (total : Z)
  : option (list bytes) :=
  mapM (M := option) (λ i, objs !! chunkObjectName objName i) (seqZ 0 total).

(** A history of chunk uploads of one session: index and bytes of each
    upload, oldest first. *)
Abbreviation history := (list (Z * bytes)).

(** The bytes of the latest upload of index [i] in a history. *)
Fixpoint last_upload (h : history) (i : Z) : option bytes :=
  match h with
  | [] => None
  | (j, d) :: h' =>
      match last_upload h' i with
      | Some d' => Some d'
      | None => if bool_decide (j = i) then Some d else None
      end
  end.

Definition after {A} (r : A * world * list call) : world := r.1.2.
Definition answer {A} (r : A * world * list call) : A := r.1.1.
Definition calls {A} (r : A * world * list call) : list call := r.2.

(** The world after the chunk uploads of a history, each a request of its own. *)
Definition replay (upload : ChunkRequest → world → response * world * list call)
    (uploadId : string) (h : history) (w : world) : world :=
  foldl (λ w p, after (upload (mkChunk uploadId (Some p.1) (Some p.2)) w)) w h.

(** The part keys of a session, in index order. *)
Definition part_keys (info : UploadInfo) : list string :=
  chunkObjectName (objectName info) <$> seqZ 0 (totalChunks info).

(** The world a cancellation of the session [info] under [uploadId] leaves. *)
Definition cancelled (uploadId : string) (info : UploadInfo) (w : world) : world :=
  World (objects (drop_parts (part_keys info) w))
        (faults (drop_parts (part_keys info) w))
        (delete uploadId (multipartUploads w)).

(** The session once the chunks of a history are recorded. *)
Definition add_chunks (h : history) (info : UploadInfo) : UploadInfo :=
  foldl (λ info p, add_chunk p.1 info) info h.

(** The latest chunks [0 .. total-1] of a history, in index order. *)
Definition latest_chunks (h : history) (total : Z) : list bytes :=
  (λ i, default [] (last_upload h i)) <$> seqZ 0 total.

(** Replaying the history [h] on the session [info] of [w] and completing it
    merges the stored parts in ascending index order: the parts in the bucket
    are the latest chunks, complete answers 200 with the object name, the
    final object is their concatenation, the parts are gone and so is the
    session. *)
Definition merges_in_index_order
    (upload : ChunkRequest → world → response * world * list call)
    (complete : string → world → response * world * list call)
    (cfg : Config) (uploadId : string) (info : UploadInfo) (h : history) (w : world)
  : Prop :=
  let uploaded := replay upload uploadId h w in
  let r := complete uploadId uploaded in
  stored_parts (objects uploaded) (objectName info) (totalChunks info)
  = Some (latest_chunks h (totalChunks info)) ∧
  answer r = CompleteOk (download_url cfg (objectName info)) (fileName info)
               (objectName info) ∧
  status (answer r) = 200%Z ∧
  objects (after r) !! objectName info = Some (concat (latest_chunks h (totalChunks info))) ∧
  (∀ i, (0 ≤ i < totalChunks info)%Z →
        objects (after r) !! chunkObjectName (objectName info) i = None) ∧
  multipartUploads (after r) !! uploadId = None.

(** What a cancellation leaves alone: [r] is the outcome of cancelling the
    session [info] under [uploadId] in the world [w]. *)
Definition leaves_rest_alone (r : response * world * list call) (w : world)
    (uploadId : string) (info : UploadInfo) : Prop :=
  let own k := ∃ i, (0 ≤ i < totalChunks info)%Z ∧ k = chunkObjectName (objectName info) i in
  (∀ k, ¬ own k → objects (after r) !! k = objects w !! k) ∧
  (∀ j, ¬ (0 ≤ j < totalChunks info)%Z →
        objects (after r) !! chunkObjectName (objectName info) j
        = objects w !! chunkObjectName (objectName info) j) ∧
  (∀ k, objects (after r) !! k = objects w !! k ∨ (own k ∧ objects (after r) !! k = None)) ∧
  (∀ other, other ≠ uploadId →
            multipartUploads (after r) !! other = multipartUploads w !! other) ∧
  multipartUploads (after r) !! uploadId = None ∧
  Forall (λ c, ∃ k, own k ∧ c = RemoveObject k) (calls r).

(** ** Sample data *)

Definition sample_cfg : Config := mkConfig "localhost" 9000 "uploads".

(** The session of [init("a.bin", 10, 4)] at time 1700, with some chunks in. *)
Definition sample_session (uploaded : gset Z) : UploadInfo :=
  mkUploadInfo "a.bin" "1700_a.bin" 10 4 3 uploaded 1700.

Definition sample_world (objs : gmap string bytes) (fs : list bool) (uploaded : gset Z)
  : world :=
  World objs fs {["u1" := sample_session uploaded]}.

Definition AB : bytes := [Byte.x41; Byte.x42].
Definition CD : bytes := [Byte.x43; Byte.x44].
Definition EF : bytes := [Byte.x45; Byte.x46].

(** Chunks 0 and 2 are in, chunk 1 is not. *)
Definition two_of_three : world :=
  sample_world (<["1700_a.bin.part0" := AB]> (<["1700_a.bin.part2" := EF]> ∅)) []
    {[0%Z; 2%Z]}.

(** All three chunks are in. *)
Definition three_of_three (fs : list bool) : world :=
  sample_world
    (<["1700_a.bin.part0" := AB]>
       (<["1700_a.bin.part1" := CD]> (<["1700_a.bin.part2" := EF]> ∅)))
    fs {[0%Z; 1%Z; 2%Z]}.

(** A request with a negative file size. *)
Definition negative_size_request : InitRequest := mkInit "a.bin" (-10) 4.

(** An empty bucket and no session. *)
Definition empty_world : world := World ∅ [] ∅.

(** A chunk of the sample session sent under index 5, past its three chunks. *)
Definition stray_chunk : ChunkRequest := mkChunk "u1" (Some 5%Z) (Some CD).

(** The sample session with nothing uploaded yet. *)
Definition none_of_three (fs : list bool) : world := sample_world ∅ fs ∅.

(** A bucket with a finished file, a part of the sample session, a part
    stored under the stray index 5, and a second session. *)
Definition busy_world : world :=
  World
    (<["1700_a.bin.part0" := AB]>
       (<["1700_a.bin.part5" := CD]> (<["1699_b.txt" := EF]> ∅)))
    []
    (<["u1" := sample_session {[0%Z; 5%Z]}]>
       {["u2" := mkUploadInfo "c.bin" "1701_c.bin" 8 4 2 ∅ 1701]}).

(** Three chunks sent out of order, chunk 0 twice. *)
Definition sample_history : history := [(2%Z, EF); (0%Z, CD); (0%Z, AB); (1%Z, CD)].

(** A session of no chunk at all, as a negative file size gives. *)
Definition no_chunk_request : InitRequest := mkInit "x" (-1) 4.

(** ** The rest of the servers: single-file upload and start-up *)

(** The next [n] client calls do not fail. *)
Definition calm_for (n : nat) (w : world) : Prop :=
  Forall (λ b, b = false) (take n (faults w)).

(** The file of POST /api/upload/single: [req.file.originalname] and
    [req.file.buffer] ([file.Filename] and the opened content in main.go);
    its size is the length of the content. *)
Record UploadedFile := mkUploaded {
  originalname : string;
  buffer : bytes
}.

Inductive single_response :=
| SingleOk (fName objName downloadUrl : string) (size : Z)
| NoFile
| SingleFailed (e : exn).

Definition single_status (r : single_response) : Z :=
  match r with
  | SingleOk _ _ _ _ => 200
  | NoFile => 400
  | SingleFailed _ => 500
  end.

Definition handle_single (body : M single_response)
  : world → single_response * world * list call := λ w,
  match body w with
  | (inl e, w1, t) => (SingleFailed e, w1, t)
  | (inr r, w1, t) => (r, w1, t)
  end.

(** The MinIO server as start-up sees it: the buckets it holds, and the
    outcomes of the coming administrative calls (as [faults] for a world). *)
Record cluster := Cluster {
  buckets : gset string;
  admin_faults : list bool
}.

Inductive admin_call :=
| ListBuckets
| BucketExists (name : string)
| MakeBucket (name region : string).

Definition admin_fails (c : cluster) : bool :=
  match admin_faults c with
  | b :: _ => b
  | [] => false
  end.

Definition admin_used (c : cluster) : cluster :=
  Cluster (buckets c) (tail (admin_faults c)).

(** [bucketExists]: the error of the call, or whether the bucket is there. *)
Definition bucketExists (name : string) (c : cluster)
  : (admin_call + bool) * cluster * list admin_call :=
  if admin_fails c then (inl (BucketExists name), admin_used c, [BucketExists name])
  else (inr (bool_decide (name ∈ buckets c)), admin_used c, [BucketExists name]).

(** [makeBucket]: fails on a bucket that is already there. *)
Definition makeBucket (name region : string) (c : cluster)
  : (admin_call + unit) * cluster * list admin_call :=
  if admin_fails c then (inl (MakeBucket name region), admin_used c, [MakeBucket name region])
  else if bool_decide (name ∈ buckets c)
       then (inl (MakeBucket name region), admin_used c, [MakeBucket name region])
       else (inr tt, Cluster ({[name]} ∪ buckets c) (tail (admin_faults c)),
             [MakeBucket name region]).

Definition listBuckets (c : cluster) : (admin_call + unit) * cluster * list admin_call :=
  if admin_fails c then (inl ListBuckets, admin_used c, [ListBuckets])
  else (inr tt, admin_used c, [ListBuckets]).

(** What [initializeBucket] logs. *)
Inductive bucket_log :=
| BucketCreated
| BucketAlreadyThere
| BucketInitFailed (c : admin_call).

Module JsServer.

(** [initializeBucket()]: every error is caught and logged. *)
Definition initializeBucket (bucketName : string) (c : cluster)
  : bucket_log * cluster * list admin_call :=
  match bucketExists bucketName c with
  | (inl e, c1, t1) => (BucketInitFailed e, c1, t1)
  | (inr exists_, c1, t1) =>
      if negb exists_ then
        match makeBucket bucketName "us-east-1" c1 with
        | (inl e, c2, t2) => (BucketInitFailed e, c2, t1 ++ t2)
        | (inr _, c2, t2) => (BucketCreated, c2, t1 ++ t2)
        end
      else (BucketAlreadyThere, c1, t1)
  end.

(** [startServer()]: the bucket is looked after, then the server listens,
    whatever [initializeBucket] logged. *)
Definition startServer (bucketName : string) (c : cluster)
  : bool * bucket_log * cluster * list admin_call :=
  match initializeBucket bucketName c with
  | (log, c1, t) => (true, log, c1, t)
  end.

(** POST /api/upload/single, for a file within multer's size limit. *)
Definition upload_single_body (cfg : Config) (now : Z) (file : option UploadedFile)
  : M single_response :=
  match file with
  | None => ret NoFile
  | Some file =>
      let objectName := make_objectName now (originalname file) in
      run putObject objectName (buffer file);
      let downloadUrl := download_url cfg objectName in
      ret (SingleOk (originalname file) objectName downloadUrl
             (Z.of_nat (length (buffer file))))
  end.

Definition upload_single cfg now file := handle_single (upload_single_body cfg now file).

End JsServer.

Module GoServer.

(** [uploadSingle], for a file that opens. *)
Definition uploadSingle_body (cfg : Config) (now : Z) (file : option UploadedFile)
  : M single_response :=
  match file with
  | None => ret NoFile
  | Some file =>
      let objectName := make_objectName now (originalname file) in
      run putObject objectName (buffer file);
      let downloadURL := download_url cfg objectName in
      ret (SingleOk (originalname file) objectName downloadURL
             (Z.of_nat (length (buffer file))))
  end.

Definition uploadSingle cfg now file := handle_single (uploadSingle_body cfg now file).

(** [initializeBucket()]: [None] is the nil error. *)
Definition initializeBucket (bucketName : string) (c : cluster)
  : option admin_call * cluster * list admin_call :=
  match listBuckets c with
  | (inl e, c0, t0) => (Some e, c0, t0)
  | (inr _, c0, t0) =>
      match bucketExists bucketName c0 with
      | (inl e, c1, t1) => (Some e, c1, t0 ++ t1)
      | (inr exists_, c1, t1) =>
          if negb exists_ then
            match makeBucket bucketName "us-east-1" c1 with
            | (inl e, c2, t2) => (Some e, c2, t0 ++ t1 ++ t2)
            | (inr _, c2, t2) => (None, c2, t0 ++ t1 ++ t2)
            end
          else (None, c1, t0 ++ t1)
      end
  end.

(** The [Config] struct of main.go. *)
Record AppConfig := mkAppConfig {
  Port : string;
  MinioEndpoint : string;
  MinioPort : Z;
  MinioUseSSL : bool;
  MinioAccessKey : string;
  MinioSecretKey : string;
  BucketName : string
}.

(** The errors [initConfig] returns, in the order it checks. *)
Inductive config_error :=
| EndpointUnset
| InvalidPort
| AccessKeyUnset
| SecretKeyUnset
| BucketNameUnset.

(** [os.Getenv]: the empty string for a variable that is not set. *)
Definition Getenv (env : gmap string string) (key : string) : string :=
  default "" (env !! key).

(** [initConfig()], on the environment as it is once the .env file is
    loaded; [Atoi] is [strconv.Atoi] ([None] for its error). *)
Definition initConfig (Atoi : string → option Z) (env : gmap string string)
  : config_error + AppConfig :=
  let port := Getenv env "PORT" in
  let port := if bool_decide (port = "") then "3000" else port in
  let minioEndpoint := Getenv env "MINIO_ENDPOINT" in
  if bool_decide (minioEndpoint = "") then inl EndpointUnset
  else
    let minioPortStr := Getenv env "MINIO_PORT" in
    match Atoi minioPortStr with
    | None => inl InvalidPort
    | Some minioPort =>
        let minioUseSSLStr := Getenv env "MINIO_USE_SSL" in
        let minioUseSSL := bool_decide (minioUseSSLStr = "true") in
        let minioAccessKey := Getenv env "MINIO_ACCESS_KEY" in
        if bool_decide (minioAccessKey = "") then inl AccessKeyUnset
        else
          let minioSecretKey := Getenv env "MINIO_SECRET_KEY" in
          if bool_decide (minioSecretKey = "") then inl SecretKeyUnset
          else
            let bucketName := Getenv env "BUCKET_NAME" in
            if bool_decide (bucketName = "") then inl BucketNameUnset
            else inr (mkAppConfig port minioEndpoint minioPort minioUseSSL
                        minioAccessKey minioSecretKey bucketName)
    end.

(** How [main] ends its start-up: with [log.Fatalf] or listening. *)
Inductive startup :=
| FatalConfig (e : config_error)
| FatalClient
| FatalBucket (e : admin_call)
| Listening (config : AppConfig).

(** [main()] up to [app.Listen]; [client_ok] tells whether [minio.New]
    accepts the endpoint [host:port]. *)
Definition main (Atoi : string → option Z) (client_ok : string → bool)
    (env : gmap string string) (c : cluster) : startup * cluster * list admin_call :=
  match initConfig Atoi env with
  | inl e => (FatalConfig e, c, [])
  | inr config =>
      if negb (client_ok (MinioEndpoint config +:+ ":" +:+ pretty (MinioPort config)))
      then (FatalClient, c, [])
      else
        match initializeBucket (BucketName config) c with
        | (Some e, c1, t) => (FatalBucket e, c1, t)
        | (None, c1, t) => (Listening config, c1, t)
        end
  end.

End GoServer.

(** A decimal reading of [strconv.Atoi] for the samples: an optional sign
    and digits, nothing else. *)
Fixpoint digits_value (s : string) (acc : Z) : option Z :=
  match s with
  | EmptyString => Some acc
  | String c s' =>
      if is_digit c then digits_value s' (10 * acc + Z.of_nat (nat_of_ascii c) - 48)%Z
      else None
  end.

Definition sample_Atoi (s : string) : option Z :=
  match s with
  | EmptyString => None
  | String "-" (String c s') => Z.opp <$> digits_value (String c s') 0
  | String "+" (String c s') => digits_value (String c s') 0
  | _ => if bool_decide (s = "-" ∨ s = "+") then None else digits_value s 0
  end.

(** ** More sample data *)

Definition sample_env : gmap string string :=
  <["MINIO_ENDPOINT" := "localhost"]>
    (<["MINIO_PORT" := "9000"]>
       (<["MINIO_ACCESS_KEY" := "minio"]>
          (<["MINIO_SECRET_KEY" := "secret"]>
             (<["BUCKET_NAME" := "uploads"]> ∅)))).

Definition empty_cluster : cluster := Cluster ∅ [].

Definition sample_file : UploadedFile := mkUploaded "notes.txt" AB.

(** ** Statements about more than one server *)

(** The outcome [r] of a chunk upload (index [i], bytes [data]) to the
    session [info] of [w] touches its own part key and its own session only,
    keeps every field of the session but the set of chunks, which does not
    shrink, and issues one [putObject]. *)
Definition touches_only_its_part (r : response * world * list call) (w : world)
    (uploadId : string) (info : UploadInfo) (i : Z) (data : bytes) : Prop :=
  let key := chunkObjectName (objectName info) i in
  (∀ k, k ≠ key → objects (after r) !! k = objects w !! k) ∧
  (∀ other, other ≠ uploadId →
            multipartUploads (after r) !! other = multipartUploads w !! other) ∧
  (∃ info', multipartUploads (after r) !! uploadId = Some info' ∧
            fileName info' = fileName info ∧ objectName info' = objectName info ∧
            fileSize info' = fileSize info ∧ chunkSize info' = chunkSize info ∧
            totalChunks info' = totalChunks info ∧ createdAt info' = createdAt info ∧
            uploadedChunks info ⊆ uploadedChunks info') ∧
  calls r = [PutObject key data].

(** The outcome [r] of completing [uploadId] in [w] retires the session
    exactly when it answers 200, and then the final object is in the bucket
    under the session's object name. *)
Definition retires_on_success_only (r : response * world * list call) (w : world)
    (uploadId : string) : Prop :=
  match answer r with
  | CompleteOk url f o =>
      ∃ info, multipartUploads w !! uploadId = Some info ∧
              o = objectName info ∧ f = fileName info ∧
              is_Some (objects (after r) !! o) ∧
              multipartUploads (after r) = delete uploadId (multipartUploads w)
  | _ => multipartUploads (after r) = multipartUploads w
  end.

(** The removal of the part of index [i] fails in a merge of many parts: it
    is the client call number [i] after the reads of all the parts and the
    write of the final object. *)
Definition removal_fails (w : world) (info : UploadInfo) (i : nat) : bool :=
  default false (drop (2 * Z.to_nat (totalChunks info) + 1) (faults w) !! i).

(** The outcome [r] of complete in the world [w] is a merge of many parts
    whose part removals may have failed: the answer is 200, the final object
    is the concatenation of the parts and the session is gone; the reads, the
    write and one removal per part were issued, in that order; the part of
    index [i] stays in the bucket, as it was, exactly when its removal failed
    and is gone otherwise; no other key changes. *)
Definition completes_with_orphans (r : response * world * list call) (w : world)
    (cfg : Config) (uploadId : string) (info : UploadInfo) (parts : list bytes) : Prop :=
  answer r = CompleteOk (download_url cfg (objectName info)) (fileName info)
               (objectName info) ∧
  objects (after r) !! objectName info = Some (concat parts) ∧
  multipartUploads (after r) = delete uploadId (multipartUploads w) ∧
  (∀ i k, part_keys info !! i = Some k →
          objects (after r) !! k
          = if removal_fails w info i then objects w !! k else None) ∧
  (∀ k, k ≠ objectName info → k ∉ part_keys info →
        objects (after r) !! k = objects w !! k) ∧
  calls r = (part_keys info ≫= λ k, [GetObject k; ReadStream k])
            ++ PutObject (objectName info) (concat parts)
            :: (RemoveObject <$> part_keys info).

(** The outcome [r] of an accepted init opens an empty session: the answer
    carries the upload id and the object name, the bucket is untouched and no
    client call is made, the other sessions are as before, and the status
    query [query] finds the new session with no chunk received. *)
Definition opens_empty_session (r : response * world * list call)
    (query : string → world → response * world * list call)
    (w : world) (uuid : string) (now : Z) (req : InitRequest) : Prop :=
  ∃ total,
    answer r = InitOk uuid (make_objectName now (req_fileName req)) total ∧
    objects (after r) = objects w ∧
    calls r = [] ∧
    (∀ other, other ≠ uuid →
              multipartUploads (after r) !! other = multipartUploads w !! other) ∧
    answer (query uuid (after r)) = StatusOk uuid (req_fileName req) 0 total.

(** [initializeBucket] made sure of the bucket [name]: it is among the
    buckets of [c'], which are otherwise those of [c]. *)
Definition bucket_ensured (name : string) (c c' : cluster) : Prop :=
  name ∈ buckets c' ∧ buckets c' = {[name]} ∪ buckets c.

(** ** Definitions for the statements on validation, names and failures *)

(** A field of the body that reads as missing in server.js: it is absent, or
    it is [null], [false], the number 0 (of either sign), [NaN] or the empty
    text. *)
Definition reads_as_missing (v : value) : Prop :=
  v = Undefined ∨ v = Null ∨ v = Bool false ∨ v = Str "" ∨ v = Num NaN ∨
  ∃ negative e, v = Num (Finite negative 0 e).

(** The body of a request with texts in all three fields, as a form sends
    them. *)
Definition text_body (fileName fileSize chunkSize : string) : Js.InitBody :=
  Js.mkBody (Str fileName) (Str fileSize) (Str chunkSize).

(** The file name ends in the marker of a chunk: [<base>.part<index>]. *)
Definition ends_in_part_index (f : string) : Prop :=
  ∃ base (i : Z), f = base +:+ ".part" +:+ pretty i.

(** The last character of a string is a decimal digit. *)
Fixpoint last_is_digit (s : string) : bool :=
  match s with
  | "" => false
  | String c "" => is_digit c
  | String _ s' => last_is_digit s'
  end.

(** The client calls of a merge up to the write of the final object: a
    [getObject] and a read per part and the [putObject], or the one
    [copyObject] of a session of one part. *)
Definition merge_calls (info : UploadInfo) : nat :=
  if bool_decide (1 < totalChunks info)%Z then 2 * Z.to_nat (totalChunks info) + 1 else 1.

(** One of the next [n] client calls fails. *)
Definition fault_within (n : nat) (w : world) : Prop := true ∈ take n (faults w).

(** The outcome [r] of complete in the world [w] is an aborted merge: the
    answer is 500 with the error of a part read or of the write of the final
    object, the bucket and the sessions are as in [w], and no removal was
    issued. *)
Definition merge_aborted (r : response * world * list call) (w : world) : Prop :=
  ∃ e, answer r = Failed e ∧ read_or_write_error e ∧ status (answer r) = 500%Z ∧
       objects (after r) = objects w ∧
       multipartUploads (after r) = multipartUploads w ∧
       Forall (λ c, ∀ k, c ≠ RemoveObject k) (calls r).

(** Closes a goal [call ∉ [c1; ...; cn]] when the call differs from each. *)
Ltac not_issued :=
  let Hm := fresh "Hm" in
  intros Hm; repeat (apply elem_of_cons in Hm as [?|Hm]; [done|]);
  by apply elem_of_nil in Hm.


(** ** Facts about strings and keys *)

Lemma append_nil (t : string) : "" +:+ t = t.
Proof. reflexivity. Qed.

Lemma append_cons (c : ascii) (s t : string) : String c s +:+ t = String c (s +:+ t).
Proof. reflexivity. Qed.

Lemma length_append (s t : string) :
  String.length (s +:+ t) = (String.length s + String.length t)%nat.
Proof.
  induction s as [|c s IH]; [done|].
  rewrite append_cons. simpl. by rewrite IH.
Qed.

Lemma append_assoc (s t u : string) : (s +:+ t) +:+ u = s +:+ t +:+ u.
Proof.
  induction s as [|c s IH]; [done|].
  rewrite !append_cons. by rewrite IH.
Qed.

Lemma objectName_not_chunk (o : string) (i : Z) : chunkObjectName o i ≠ o.
Proof.
  unfold chunkObjectName. intros H.
  apply (f_equal String.length) in H. rewrite !length_append in H.
  simpl in H. lia.
Qed.

Lemma chunkObjectName_inj (o : string) (i j : Z) :
  chunkObjectName o i = chunkObjectName o j → i = j.
Proof.
  intros H. unfold chunkObjectName in H.
  apply (inj (String.append o)) in H.
  apply (inj (String.append ".part")) in H.
  by apply (inj pretty) in H.
Qed.

Lemma prefix_append (p s : string) : String.prefix p (p +:+ s) = true.
Proof.
  induction p as [|c p IH]; [by destruct s|].
  rewrite append_cons. simpl.
  destruct (Ascii.ascii_dec c c); [done | congruence].
Qed.

Lemma Contains_prefix (s sub : string) :
  String.prefix sub s = true → Contains s sub = true.
Proof. destruct s; unfold Contains; intros ->; done. Qed.

Lemma Contains_append (a sub b : string) : Contains (a +:+ sub +:+ b) sub = true.
Proof.
  induction a as [|c a IH].
  - rewrite append_nil. apply Contains_prefix, prefix_append.
  - rewrite append_cons. simpl. rewrite IH. apply orb_true_r.
Qed.

Lemma chunkObjectName_Contains (o : string) (i : Z) :
  Contains (chunkObjectName o i) ".part" = true.
Proof. apply Contains_append. Qed.

Lemma part_key_pattern_Contains (k : string) :
  part_key_pattern k → Contains k ".part" = true.
Proof. intros (base & digits & -> & _). apply Contains_append. Qed.

Lemma Contains_cons (c : ascii) (s sub : string) :
  Contains (String c s) sub = String.prefix sub (String c s) || Contains s sub.
Proof. reflexivity. Qed.

Lemma prefix_cons_ne (a b : ascii) (p s : string) :
  a ≠ b → String.prefix (String a p) (String b s) = false.
Proof. intros Hne. cbn [String.prefix]. by destruct (Ascii.ascii_dec a b). Qed.

(** A prefix without a dot adds no occurrence of [".part"]. *)
Lemma Contains_dotless_prefix (p s : string) :
  string_all not_dot p = true →
  Contains (p +:+ s) ".part" = Contains s ".part".
Proof.
  induction p as [|c p IH]; [done|].
  rewrite append_cons, Contains_cons.
  cbn [string_all]. intros [Hc Hp]%andb_true_iff.
  rewrite IH by done.
  rewrite prefix_cons_ne; [done|].
  intros <-. done.
Qed.

Lemma pretty_N_go_dotless (x : N) (s : string) :
  string_all not_dot s = true → string_all not_dot (pretty_N_go x s) = true.
Proof.
  revert s. induction (N.lt_wf_0 x) as [x _ IH]; intros s Hs.
  assert (x = 0 ∨ 0 < x)%N as [->|?] by lia.
  - by rewrite pretty_N_go_0.
  - rewrite pretty_N_go_step by done. apply IH.
    { by apply N.div_lt. }
    simpl. rewrite Hs, andb_true_r.
    unfold pretty_N_char. by repeat case_match.
Qed.

Lemma pretty_Z_dotless (z : Z) : string_all not_dot (pretty z) = true.
Proof.
  destruct z as [|p|p]; [done| |].
  - unfold pretty, pretty_Z, pretty, pretty_positive, pretty, pretty_N.
    case_decide; [done|]. by apply pretty_N_go_dotless.
  - unfold pretty, pretty_Z. rewrite append_cons, append_nil. simpl.
    unfold pretty, pretty_positive, pretty, pretty_N.
    case_decide; [done|]. by apply pretty_N_go_dotless.
Qed.

Lemma string_all_append (P : ascii → bool) (s t : string) :
  string_all P (s +:+ t) = string_all P s && string_all P t.
Proof.
  induction s as [|c s IH]; [done|].
  rewrite append_cons. simpl. by rewrite IH, andb_assoc.
Qed.

(** The object name contains [".part"] exactly when the file name does. *)
Lemma make_objectName_Contains (now : Z) (f : string) :
  Contains (make_objectName now f) ".part" = Contains f ".part".
Proof.
  unfold make_objectName.
  rewrite <-(Contains_dotless_prefix "_" f) by done.
  apply Contains_dotless_prefix, pretty_Z_dotless.
Qed.
(** ** Facts about JavaScript numbers and their texts *)

Section numbers.
Local Open Scope Z_scope.

Lemma pow2_split (a b : Z) : 0 ≤ a → 0 ≤ b → 2 ^ (a + b) = 2 ^ a * 2 ^ b.
Proof. intros. by rewrite Z.pow_add_r. Qed.

Lemma pow2_pos (a : Z) : 0 ≤ a → 0 < 2 ^ a.
Proof. intros. by apply Z.pow_pos_nonneg. Qed.

(** The binary exponent of a ratio of two integers below 2^53. *)
Lemma log2_ratio_safe (a b : Z) :
  0 < a < 2 ^ 53 → 0 < b < 2 ^ 53 →
  let L := log2_ratio a b in
  -53 ≤ L ≤ 52 ∧ b * 2 ^ 52 ≤ a * 2 ^ (52 - L) < b * 2 ^ 53.
Proof.
  intros Ha Hb. unfold log2_ratio.
  pose proof (Z.log2_spec a ltac:(lia)) as Hla.
  pose proof (Z.log2_spec b ltac:(lia)) as Hlb.
  pose proof (Z.log2_nonneg a) as Hla0. pose proof (Z.log2_nonneg b) as Hlb0.
  assert (Z.log2 a < 53) as Hla1 by (apply Z.log2_lt_pow2; lia).
  assert (Z.log2 b < 53) as Hlb1 by (apply Z.log2_lt_pow2; lia).
  set (la := Z.log2 a) in *. set (lb := Z.log2 b) in *.
  replace (Z.succ la) with (la + 1) in Hla by lia.
  replace (Z.succ lb) with (lb + 1) in Hlb by lia.
  rewrite pow2_split in Hla, Hlb by lia. change (2 ^ 1) with 2 in *.
  pose proof (pow2_pos la Hla0). pose proof (pow2_pos lb Hlb0).
  destruct (decide (lb ≤ la)) as [Hg|Hg].
  - rewrite (Z.max_l 0 (- (la - lb))), (Z.max_r 0 (la - lb)) by lia.
    change (2 ^ 0) with 1. rewrite Z.mul_1_r.
    assert (2 ^ la = 2 ^ lb * 2 ^ (la - lb)) as Hsplit.
    { rewrite <-pow2_split by lia. f_equal. lia. }
    pose proof (pow2_pos (la - lb) ltac:(lia)).
    case_match eqn:Hcmp; [apply Z.ltb_lt in Hcmp | apply Z.ltb_ge in Hcmp].
    + split; [lia|].
      replace (52 - (la - lb - 1)) with (53 - (la - lb)) by lia.
      assert (2 ^ 53 = 2 ^ (la - lb) * 2 ^ (53 - (la - lb))) as H53.
      { rewrite <-pow2_split by lia. f_equal. lia. }
      assert (2 ^ 52 * 2 = 2 ^ 53) as H52 by done.
      pose proof (pow2_pos (53 - (la - lb)) ltac:(lia)).
      set (X := 2 ^ (la - lb)) in *. set (Y := 2 ^ (53 - (la - lb))) in *.
      set (A := 2 ^ la) in *. set (B := 2 ^ lb) in *.
      split; nia.
    + split; [lia|].
      assert (2 ^ 52 = 2 ^ (la - lb) * 2 ^ (52 - (la - lb))) as H52.
      { rewrite <-pow2_split by lia. f_equal. lia. }
      assert (2 ^ 53 = 2 ^ 52 * 2) as H53 by done.
      pose proof (pow2_pos (52 - (la - lb)) ltac:(lia)).
      set (X := 2 ^ (la - lb)) in *. set (Y := 2 ^ (52 - (la - lb))) in *.
      set (A := 2 ^ la) in *. set (B := 2 ^ lb) in *.
      split; nia.
  - rewrite (Z.max_r 0 (- (la - lb))), (Z.max_l 0 (la - lb)) by lia.
    change (2 ^ 0) with 1. rewrite Z.mul_1_r.
    assert (2 ^ lb = 2 ^ la * 2 ^ (lb - la)) as Hsplit.
    { rewrite <-pow2_split by lia. f_equal. lia. }
    replace (- (la - lb)) with (lb - la) by lia.
    pose proof (pow2_pos (lb - la) ltac:(lia)).
    case_match eqn:Hcmp; [apply Z.ltb_lt in Hcmp | apply Z.ltb_ge in Hcmp].
    + split; [lia|].
      replace (52 - (la - lb - 1)) with (lb - la + 53) by lia.
      rewrite pow2_split by lia.
      set (X := 2 ^ (lb - la)) in *. 
      set (A := 2 ^ la) in *. set (B := 2 ^ lb) in *.
      assert (2 ^ 53 = 2 ^ 52 * 2) as H53 by done.
      split; nia.
    + split; [lia|].
      replace (52 - (la - lb)) with (lb - la + 52) by lia.
      rewrite pow2_split by lia.
      set (X := 2 ^ (lb - la)) in *. 
      set (A := 2 ^ la) in *. set (B := 2 ^ lb) in *.
      assert (2 ^ 53 = 2 ^ 52 * 2) as H53 by done.
      split; nia.
Qed.

(** The nearest double of [a / b]: the significand is scaled by 2^t and the
    exponent is [- t]. *)
Lemma round_nearest_safe (s : bool) (a b : Z) :
  0 < a < 2 ^ 53 → 0 < b < 2 ^ 53 →
  ∃ t n', 0 ≤ t ∧ 0 ≤ n' ∧
    round_nearest s a b = Finite s (Z.to_N n') (- t) ∧
    b * 2 ^ 52 ≤ a * 2 ^ t < b * 2 ^ 53 ∧
    let n := (a * 2 ^ t) `div` b in
    let r := (a * 2 ^ t) `mod` b in
    n' = if (b <? 2 * r) || ((b =? 2 * r) && Z.odd n) then n + 1 else n.
Proof.
  intros Ha Hb.
  destruct (log2_ratio_safe a b Ha Hb) as [HL Hbound].
  pose proof (pow2_pos (52 - log2_ratio a b) ltac:(lia)) as HT.
  set (t := 52 - log2_ratio a b) in *.
  set (n := (a * 2 ^ t) `div` b). set (r := (a * 2 ^ t) `mod` b).
  assert (0 ≤ n) as Hn0 by (apply Z.div_pos; nia).
  assert (n < 2 ^ 53) as Hn1 by (apply Z.div_lt_upper_bound; nia).
  set (n' := if (b <? 2 * r) || ((b =? 2 * r) && Z.odd n) then n + 1 else n).
  assert (0 ≤ n' ≤ 2 ^ 53) as Hn' by (unfold n'; case_match; lia).
  exists t, n'.
  split; [lia|]. split; [lia|]. split; [|split; [exact Hbound | reflexivity]].
  unfold round_nearest.
  rewrite (Z.max_l (log2_ratio a b - 52) (-1074)) by lia.
  rewrite (Z.max_r 0 (- (log2_ratio a b - 52))) by lia.
  rewrite (Z.max_l 0 (log2_ratio a b - 52)) by lia.
  replace (- (log2_ratio a b - 52)) with t by lia.
  change (2 ^ 0) with 1. rewrite !Z.mul_1_r.
  fold n r n'.
  rewrite (proj2 (Z.leb_gt (2 ^ 1024) n')) by lia.
  f_equal. lia.
Qed.

(** [Math.ceil(a / b)] on integers below 2^53 is the integer ceiling: the
    rounding of the quotient does not reach the next integer. *)
Lemma ceil_ratio_safe (s : bool) (a b : Z) :
  0 < a < 2 ^ 53 → 0 < b < 2 ^ 53 →
  to_integer (Math_ceil (ratio s a b))
  = Some (if s then - (a `div` b) else - ((- a) `div` b)).
Proof.
  intros Ha Hb. unfold ratio.
  rewrite (proj2 (Z.eqb_neq a 0)) by lia.
  destruct (round_nearest_safe s a b Ha Hb) as (t & n' & Ht & Hn0 & -> & Hbound & Hn').
  pose proof (pow2_pos t Ht) as HT.
  pose proof (Z.div_mod (a * 2 ^ t) b ltac:(lia)) as Hdm.
  pose proof (Z.mod_pos_bound (a * 2 ^ t) b ltac:(lia)) as Hr.
  pose proof (Z.div_mod a b ltac:(lia)) as Hab.
  pose proof (Z.mod_pos_bound a b ltac:(lia)) as HR.
  set (n := (a * 2 ^ t) `div` b) in *. set (r := (a * 2 ^ t) `mod` b) in *.
  set (Q := a `div` b) in *. set (R := a `mod` b) in *.
  assert (- ((- a) `div` b) = if decide (R = 0) then Q else Q + 1) as Hceil.
  { case_decide as HR0.
    - assert (- a = b * - Q) as -> by lia.
      rewrite Z.mul_comm, Z.div_mul by lia. lia.
    - symmetry. apply Z.opp_inj. rewrite Z.opp_involutive.
      apply Z.div_unique with (r := b - R); lia. }
  assert (b < 2 * 2 ^ t) as HbT.
  { assert (2 ^ 53 = 2 * 2 ^ 52) as H53 by done. nia. }
  assert (Q * 2 ^ t ≤ n < Q * 2 ^ t + 2 ^ t) as Hn.
  { split.
    - apply Z.div_le_lower_bound; nia.
    - apply Z.div_lt_upper_bound; nia. }
  assert (if decide (R = 0) then n' = Q * 2 ^ t
          else Q * 2 ^ t < n' < (Q + 1) * 2 ^ t) as Hrange.
  { case_decide as HR0.
    - assert (n = Q * 2 ^ t) as Hnq by nia.
      assert (r = 0) as Hr0 by nia.
      rewrite Hn', Hr0. rewrite (proj2 (Z.ltb_ge b (2 * 0))) by lia.
      rewrite (proj2 (Z.eqb_neq b (2 * 0))) by lia. done.
    - rewrite Hn'. destruct (decide (n = Q * 2 ^ t)) as [Hlow|Hlow].
      + assert (r = R * 2 ^ t) as Hr' by nia.
        rewrite (proj2 (Z.ltb_lt b (2 * r))) by nia. simpl. nia.
      + destruct (decide (n = Q * 2 ^ t + 2 ^ t - 1)) as [Hhigh|Hhigh].
        * assert (r = b - (b - R) * 2 ^ t) as Hr' by nia.
          rewrite (proj2 (Z.ltb_ge b (2 * r))) by nia.
          rewrite (proj2 (Z.eqb_neq b (2 * r))) by nia. simpl. nia.
        * case_match; nia. }
  clear Hn'.
  unfold Math_ceil. destruct (decide (t = 0)) as [->|Ht0].
  - change (2 ^ 0) with 1 in *. assert (b = 1) as Hb1 by nia.
    assert (R = 0) as HR0 by (unfold R; rewrite Hb1; apply Z.mod_1_r).
    assert (Q = a) as HQ by (unfold Q; rewrite Hb1; apply Z.div_1_r).
    rewrite decide_True in Hrange by done. rewrite decide_True in Hceil by done.
    rewrite Hceil. change (0 <=? - 0) with true. cbv iota. cbn [to_integer].
    change (0 <=? - 0) with true. cbv iota.
    rewrite Z2N.id by lia. change (2 ^ (- 0)) with 1.
    destruct s; f_equal; lia.
  - rewrite (proj2 (Z.leb_gt 0 (- t))) by lia.
    rewrite Z2N.id by lia. rewrite Z.opp_involutive.
    destruct s; cbn [to_integer]; rewrite (proj2 (Z.leb_le 0 0)) by lia.
    + f_equal. rewrite Z2N.id by (apply Z.div_pos; lia).
      change (2 ^ 0) with 1. rewrite Z.mul_1_r.
      assert (n' `div` 2 ^ t = Q) as ->; [|lia].
      symmetry. case_decide.
      * subst n'. by rewrite Z.div_mul by lia.
      * apply Z.div_unique with (r := n' - Q * 2 ^ t); lia.
    + f_equal. rewrite Hceil.
      assert (- ((- n') `div` 2 ^ t) = if decide (R = 0) then Q else Q + 1) as Hc.
      { case_decide.
        - apply Z.opp_inj. rewrite Z.opp_involutive. symmetry.
          apply Z.div_unique with (r := 0); lia.
        - apply Z.opp_inj. rewrite Z.opp_involutive. symmetry.
          apply Z.div_unique with (r := (Q + 1) * 2 ^ t - n'); lia. }
      rewrite Hc. rewrite Z2N.id by (case_decide; nia).
      change (2 ^ 0) with 1. lia.
Qed.

(** *** Decimal digits *)

Lemma pretty_N_go_app (x : N) (s : string) :
  pretty_N_go x s = pretty_N_go x "" +:+ s.
Proof.
  revert s. induction (N.lt_wf_0 x) as [x _ IH]; intros s.
  assert (x = 0 ∨ 0 < x)%N as [->|Hx] by lia.
  - by rewrite !pretty_N_go_0.
  - rewrite (pretty_N_go_step x s), (pretty_N_go_step x "") by done.
    pose proof (N.div_lt x 10 Hx ltac:(lia)) as Hlt.
    rewrite (IH (x `div` 10)%N Hlt (String (pretty_N_char (x `mod` 10)) s)).
    rewrite (IH (x `div` 10)%N Hlt (String (pretty_N_char (x `mod` 10)) "")).
    by rewrite append_assoc.
Qed.

(** The digits of a positive number: those of its tenth, and its last digit. *)
Lemma pretty_N_go_last (x : N) :
  (0 < x)%N →
  pretty_N_go x "" = pretty_N_go (x `div` 10) "" +:+ String (pretty_N_char (x `mod` 10)) "".
Proof. intros Hx. rewrite pretty_N_go_step by done. apply pretty_N_go_app. Qed.

Lemma pretty_Z_pos (c : Z) : 0 < c → pretty c = pretty_N_go (Z.to_N c) "".
Proof.
  intros Hc. destruct c as [|p|p]; [lia | | lia].
  unfold pretty, pretty_Z, pretty, pretty_positive, pretty, pretty_N.
  by rewrite decide_False.
Qed.

Lemma pretty_Z_neg (c : Z) : c < 0 → pretty c = "-" +:+ pretty (- c).
Proof. intros Hc. destruct c as [|p|p]; [lia | lia | done]. Qed.

Lemma digit_of_pretty_N_char (d : N) :
  (d < 10)%N → digit_of (pretty_N_char d) = Some (Z.of_N d).
Proof.
  intros Hd. 
  assert (d ∈ [0; 1; 2; 3; 4; 5; 6; 7; 8; 9]%N) as Hin.
  { rewrite !elem_of_cons. lia. }
  repeat (apply elem_of_cons in Hin as [->|Hin]; [reflexivity|]).
  by apply elem_of_nil in Hin.
Qed.

Lemma radix_value_app (R acc : Z) (s t : string) :
  radix_value R acc (s +:+ t) = radix_value R (radix_value R acc s) t.
Proof.
  revert acc. induction s as [|c s IH]; intros acc; [done|].
  rewrite append_cons. cbn [radix_value]. apply IH.
Qed.

Lemma string_all_digits_pretty_N_go (x : N) :
  string_all (is_radix_digit 10) (pretty_N_go x "") = true ∧
  radix_value 10 0 (pretty_N_go x "") = Z.of_N x.
Proof.
  induction (N.lt_wf_0 x) as [x _ IH].
  assert (x = 0 ∨ 0 < x)%N as [->|Hx] by lia.
  - by rewrite pretty_N_go_0.
  - rewrite pretty_N_go_last by done.
    destruct (IH (x `div` 10)%N) as [IH1 IH2]; [by apply N.div_lt|].
    pose proof (digit_of_pretty_N_char (x `mod` 10)%N) as Hd.
    rewrite string_all_append, radix_value_app, IH1, IH2.
    cbn [string_all radix_value]. unfold is_radix_digit.
    rewrite Hd by (apply N.mod_lt; lia). cbn [default].
    split.
    + rewrite andb_true_r. apply Z.ltb_lt.
      pose proof (N.mod_lt x 10). lia.
    + unfold id. pose proof (N.div_mod x 10 ltac:(lia)). lia.
Qed.

Lemma length_zeros (t : nat) : String.length (zeros t) = t.
Proof. induction t; simpl; congruence. Qed.

Lemma zeros_snoc (t : nat) : zeros t +:+ "0" = zeros (S t).
Proof.
  induction t as [|t IH]; [done|].
  cbn [zeros]. rewrite append_cons. by rewrite IH.
Qed.

(** The digits of [x * 10^t] are those of [x] and [t] zeros. *)
Lemma pretty_N_go_zeros (x : N) (t : nat) :
  (0 < x)%N →
  pretty_N_go (x * 10 ^ N.of_nat t) "" = pretty_N_go x "" +:+ zeros t.
Proof.
  intros Hx. induction t as [|t IH].
  - change (10 ^ N.of_nat 0)%N with 1%N. rewrite N.mul_1_r.
    induction (pretty_N_go x "") as [|c s IHs]; [done|].
    rewrite append_cons. by rewrite <-IHs.
  - replace (x * 10 ^ N.of_nat (S t))%N with (x * 10 ^ N.of_nat t * 10)%N.
    2:{ rewrite Nat2N.inj_succ, N.pow_succ_r'. lia. }
    rewrite pretty_N_go_last by lia.
    rewrite N.div_mul, N.Div0.mod_mul by lia.
    rewrite IH. change (String (pretty_N_char 0) "") with "0".
    by rewrite append_assoc, zeros_snoc.
Qed.

(** A number below 10^d has at most [d] digits. *)
Lemma length_pretty_N_go (x : N) (d : nat) :
  (x < 10 ^ N.of_nat d)%N → (String.length (pretty_N_go x "") ≤ d)%nat.
Proof.
  revert x. induction d as [|d IH]; intros x Hx.
  - assert (x = 0)%N as -> by (change (10 ^ N.of_nat 0)%N with 1%N in Hx; lia).
    by rewrite pretty_N_go_0.
  - assert (x = 0 ∨ 0 < x)%N as [->|Hpos] by lia.
    { rewrite pretty_N_go_0. simpl. lia. }
    rewrite pretty_N_go_last, length_append by done.
    assert (x `div` 10 < 10 ^ N.of_nat d)%N as Hdiv.
    { apply N.Div0.div_lt_upper_bound.
      rewrite Nat2N.inj_succ, N.pow_succ_r' in Hx. lia. }
    specialize (IH _ Hdiv). simpl. lia.
Qed.

Lemma length_pretty_N_go_pos (x : N) :
  (0 < x)%N → (0 < String.length (pretty_N_go x ""))%nat.
Proof.
  intros Hx. rewrite pretty_N_go_last, length_append by done. simpl. lia.
Qed.

(** *** The double of an integer *)

Lemma log2_ratio_one (C : Z) : 0 < C → log2_ratio C 1 = Z.log2 C.
Proof.
  intros HC. unfold log2_ratio. change (Z.log2 1) with 0. rewrite Z.sub_0_r.
  pose proof (Z.log2_nonneg C). pose proof (Z.log2_spec C HC) as [Hlow _].
  rewrite (Z.max_l 0 (- Z.log2 C)), (Z.max_r 0 (Z.log2 C)) by lia.
  change (2 ^ 0) with 1. rewrite (proj2 (Z.ltb_ge _ _)); [done | lia].
Qed.

(** An integer below 2^53 is a double. *)
Lemma round_nearest_integer_small (s : bool) (C : Z) :
  0 < C < 2 ^ 53 →
  round_nearest s C 1
  = Finite s (Z.to_N (C * 2 ^ (52 - Z.log2 C))) (Z.log2 C - 52).
Proof.
  intros HC. unfold round_nearest. rewrite log2_ratio_one by lia.
  pose proof (Z.log2_nonneg C).
  assert (Z.log2 C < 53) by (apply Z.log2_lt_pow2; lia).
  pose proof (Z.log2_spec C ltac:(lia)) as [_ Hup].
  rewrite (Z.max_l (Z.log2 C - 52) (-1074)) by lia.
  rewrite (Z.max_r 0 (- (Z.log2 C - 52))), (Z.max_l 0 (Z.log2 C - 52)) by lia.
  replace (- (Z.log2 C - 52)) with (52 - Z.log2 C) by lia.
  change (2 ^ 0) with 1. rewrite !Z.mul_1_r, Z.div_1_r, Z.mod_1_r.
  change (1 <? 2 * 0) with false. change (1 =? 2 * 0) with false. cbn [orb andb].
  assert (C * 2 ^ (52 - Z.log2 C) < 2 ^ 53) as Hsmall.
  { replace (Z.succ (Z.log2 C)) with (Z.log2 C + 1) in Hup by lia.
    assert (2 ^ 53 = 2 ^ (Z.log2 C + 1) * 2 ^ (52 - Z.log2 C)) as ->.
    { rewrite <-pow2_split by lia. f_equal. lia. }
    pose proof (pow2_pos (52 - Z.log2 C) ltac:(lia)). nia. }
  rewrite (proj2 (Z.leb_gt _ _)); [done | lia].
Qed.

(** An integer from 2^53 on rounds to a double from 2^53 on. *)
Lemma round_nearest_integer_large (s : bool) (C : Z) :
  2 ^ 53 ≤ C →
  round_nearest s C 1 = Infinity s ∨
  ∃ n' u, round_nearest s C 1 = Finite s (Z.to_N n') u ∧ 1 ≤ u ∧ 2 ^ 52 ≤ n'.
Proof.
  intros HC. unfold round_nearest. rewrite log2_ratio_one by lia.
  assert (53 ≤ Z.log2 C) by (apply Z.log2_le_pow2; lia).
  pose proof (Z.log2_spec C ltac:(lia)) as [Hlow _].
  rewrite (Z.max_l (Z.log2 C - 52) (-1074)) by lia.
  rewrite (Z.max_l 0 (- (Z.log2 C - 52))), (Z.max_r 0 (Z.log2 C - 52)) by lia.
  change (2 ^ 0) with 1. rewrite !Z.mul_1_r, !Z.mul_1_l.
  set (u := Z.log2 C - 52) in *.
  pose proof (pow2_pos u ltac:(lia)).
  assert (2 ^ 52 ≤ C `div` 2 ^ u) as Hn.
  { apply Z.div_le_lower_bound; [lia|].
    replace (Z.log2 C) with (u + 52) in Hlow by lia.
    rewrite pow2_split in Hlow by lia. lia. }
  case_match; [by left|]. right. eexists _, u. split; [done|].
  split; [lia|]. case_match; lia.
Qed.

(** Among the integers, only a double below 2^53 itself reads back as it. *)
Lemma reads_back_integer (m : N) (C : Z) :
  0 < Z.of_N m < 2 ^ 53 → 0 ≤ C →
  same_value (ratio false C 1) (Finite false m 0) = true ↔ C = Z.of_N m.
Proof.
  intros Hm HC. unfold ratio.
  destruct (Z.eqb_spec C 0) as [->|HC0].
  { cbn [same_value]. change (2 ^ Z.max 0 (0 - 0)) with 1.
    change (Z.of_N 0) with 0. split; [|lia]. intros [H _]%andb_true_iff.
    apply Z.eqb_eq in H. lia. }
  destruct (decide (C < 2 ^ 53)) as [Hsmall|Hlarge].
  - rewrite round_nearest_integer_small by lia. cbn [same_value].
    pose proof (Z.log2_nonneg C).
    assert (Z.log2 C < 53) by (apply Z.log2_lt_pow2; lia).
    pose proof (pow2_pos (52 - Z.log2 C) ltac:(lia)).
    rewrite Z2N.id by nia.
    rewrite (Z.max_l 0 (Z.log2 C - 52 - 0)), (Z.max_r 0 (0 - (Z.log2 C - 52))) by lia.
    change (2 ^ 0) with 1. rewrite Z.mul_1_r.
    replace (0 - (Z.log2 C - 52)) with (52 - Z.log2 C) by lia.
    rewrite bool_decide_eq_true_2 by done. rewrite orb_true_l, andb_true_r.
    rewrite Z.eqb_eq. nia.
  - split; [|lia]. intros Hsame. exfalso.
    destruct (round_nearest_integer_large false C ltac:(lia))
      as [Hr | (n' & u & Hr & Hu & Hn')]; rewrite Hr in Hsame; [done|].
    cbn [same_value] in Hsame. apply andb_true_iff in Hsame as [Hsame _].
    apply Z.eqb_eq in Hsame.
    rewrite Z2N.id in Hsame by lia.
    rewrite (Z.max_r 0 (u - 0)), (Z.max_l 0 (0 - u)) in Hsame by lia.
    change (2 ^ 0) with 1 in Hsame. rewrite Z.sub_0_r in Hsame.
    assert (2 ≤ 2 ^ u).
    { change 2 with (2 ^ 1) at 1. apply Z.pow_le_mono_r; lia. }
    assert (2 ^ 53 = 2 ^ 52 * 2) by done. nia.
Qed.

(** The value of an integer below 2^53 read as a double. *)
Lemma to_integer_ratio (s : bool) (C : Z) :
  0 ≤ C < 2 ^ 53 → to_integer (ratio s C 1) = Some (if s then - C else C).
Proof.
  intros HC. unfold ratio.
  destruct (Z.eqb_spec C 0) as [->|HC0]; [by destruct s|].
  rewrite round_nearest_integer_small by lia. cbn [to_integer].
  pose proof (Z.log2_nonneg C).
  assert (Z.log2 C < 53) by (apply Z.log2_lt_pow2; lia).
  pose proof (pow2_pos (52 - Z.log2 C) ltac:(lia)).
  rewrite Z2N.id by nia.
  replace (- (Z.log2 C - 52)) with (52 - Z.log2 C) by lia.
  rewrite Z.mod_mul, Z.div_mul by lia. rewrite Z.eqb_refl.
  destruct (Z.leb_spec 0 (Z.log2 C - 52)) as [Hle|Hlt].
  - assert (Z.log2 C = 52) as Heq by lia. rewrite Heq.
    change (52 - 52) with 0. change (2 ^ 0) with 1.
    destruct s; f_equal; lia.
  - destruct s; f_equal; lia.
Qed.

(** *** The text of an integer *)

Lemma decimal_integer (c t : Z) :
  0 ≤ t → decimal false c t = ratio false (c * 10 ^ t) 1.
Proof.
  intros Ht. unfold decimal.
  by rewrite (Z.max_r 0 t), (Z.max_l 0 (- t)) by lia.
Qed.

Lemma pow10_pos (t : Z) : 0 ≤ t → 0 < 10 ^ t.
Proof. intros. by apply Z.pow_pos_nonneg. Qed.

(** For an integer below 2^53, a decimal of [k] digits reads back only if
    it is the integer itself. *)
Lemma digits_of_length_integer (m : N) (n k : Z) :
  0 < Z.of_N m < 2 ^ 53 → k ≤ n →
  match digits_of_length (Finite false m 0) (Z.of_N m) 1 n k with
  | Some (c, t) => c * 10 ^ t = Z.of_N m ∧ t = n - k
  | None => k ≠ n
  end.
Proof.
  intros Hm Hk. unfold digits_of_length.
  rewrite (Z.max_r 0 (n - k)), (Z.max_l 0 (- (n - k))) by lia.
  change (10 ^ 0) with 1. rewrite !Z.mul_1_r, !Z.mul_1_l.
  pose proof (pow10_pos (n - k) ltac:(lia)) as Hpow.
  set (below := Z.of_N m `div` 10 ^ (n - k)).
  assert (0 ≤ below) as Hbelow by (apply Z.div_pos; lia).
  rewrite !decimal_integer by lia.
  pose proof (reads_back_integer m (below * 10 ^ (n - k)) Hm ltac:(nia)) as H1.
  pose proof (reads_back_integer m ((below + 1) * 10 ^ (n - k)) Hm ltac:(nia)) as H2.
  destruct (same_value (ratio false (below * 10 ^ (n - k)) 1) _) eqn:E1;
    destruct (same_value (ratio false ((below + 1) * 10 ^ (n - k)) 1) _) eqn:E2.
  - case_match; split; first [done | by apply H1 | by apply H2].
  - split; [by apply H1 | done].
  - split; [by apply H2 | done].
  - intros ->. destruct H1 as [_ H1]. 
    assert (below = Z.of_N m) as Hb.
    { unfold below. rewrite Z.sub_diag. apply Z.div_1_r. }
    rewrite Z.sub_diag in H1. change (10 ^ 0) with 1 in H1.
    specialize (H1 ltac:(lia)). done.
Qed.

Lemma shortest_from_integer (m : N) (n : Z) (fuel : nat) (k : Z) :
  0 < Z.of_N m < 2 ^ 53 → k ≤ n → (Z.to_nat (n - k) < fuel)%nat →
  ∃ c t, shortest_from fuel (Finite false m 0) (Z.of_N m) 1 n k = (c, t) ∧
         c * 10 ^ t = Z.of_N m ∧ 0 ≤ t.
Proof.
  intros Hm. revert k. induction fuel as [|fuel IH]; intros k Hk Hfuel; [lia|].
  cbn [shortest_from].
  pose proof (digits_of_length_integer m n k Hm Hk) as Hd.
  destruct (digits_of_length _ _ _ _ _) as [[c t]|].
  - exists c, t. destruct Hd as [Hc ->]. split_and!; [done | done | lia].
  - apply IH; lia.
Qed.

Lemma strip_zeros_spec (fuel : nat) (c t : Z) :
  0 < c → 0 ≤ t →
  ∃ c' t', strip_zeros fuel c t = (c', t') ∧
           c' * 10 ^ t' = c * 10 ^ t ∧ 0 < c' ∧ 0 ≤ t'.
Proof.
  revert c t. induction fuel as [|fuel IH]; intros c t Hc Ht.
  { exists c, t. done. }
  cbn [strip_zeros]. rewrite (proj2 (Z.ltb_lt 0 c)) by done. cbn [andb].
  destruct (Z.eqb_spec (c `mod` 10) 0) as [Hmod|Hmod].
  - pose proof (Z.div_mod c 10 ltac:(lia)) as Hdm.
    destruct (IH (c `div` 10) (t + 1) ltac:(lia) ltac:(lia)) as (c' & t' & -> & Hp & Hc' & Ht').
    exists c', t'. split_and!; [done | | done | done].
    rewrite Hp, Z.pow_add_r by lia. lia.
  - exists c, t. done.
Qed.

(** The text of a non-zero integer below 2^53 is its decimal writing. *)
Lemma Number_toString_integer (s : bool) (m : N) :
  0 < Z.of_N m < 2 ^ 53 →
  Number_toString (Finite s m 0) = (if s then "-" else "") +:+ pretty (Z.of_N m).
Proof.
  intros Hm. unfold Number_toString.
  rewrite (proj2 (N.eqb_neq m 0)) by lia.
  unfold shortest_digits.
  change (2 ^ Z.max 0 0) with 1. change (2 ^ Z.max 0 (- 0)) with 1.
  rewrite Z.mul_1_r.
  unfold decimal_exponent. rewrite (proj2 (Z.leb_le 1 (Z.of_N m))) by lia.
  rewrite Z.div_1_r.
  rewrite (pretty_Z_pos (Z.of_N m)) by lia. rewrite N2Z.id.
  assert (String.length (pretty_N_go m "") ≤ 16)%nat as Hlen.
  { apply length_pretty_N_go. change (10 ^ N.of_nat 16)%N with 10000000000000000%N.
    change (2 ^ 53) with 9007199254740992 in Hm. lia. }
  pose proof (length_pretty_N_go_pos m ltac:(lia)) as Hlen0.
  set (n := Z.of_nat (String.length (pretty_N_go m ""))) in *.
  destruct (shortest_from_integer m n 17 1 Hm ltac:(lia) ltac:(lia))
    as (c & t & -> & Hct & Ht).
  assert (0 < c) as Hc by (pose proof (pow10_pos t Ht); nia).
  destruct (strip_zeros_spec 400 c t Hc Ht) as (c' & t' & -> & Hp & Hc' & Ht').
  rewrite (pretty_Z_pos c') by done.
  assert (pretty_N_go m "" = pretty_N_go (Z.to_N c') "" +:+ zeros (Z.to_nat t')) as Hdigits.
  { rewrite <-pretty_N_go_zeros by lia. f_equal.
    apply N2Z.inj. rewrite N2Z.inj_mul, N2Z.inj_pow, Z2N.id, nat_N_Z, Z2Nat.id by lia.
    change (Z.of_N 10) with 10. lia. }
  set (k := Z.of_nat (String.length (pretty_N_go (Z.to_N c') ""))) in *.
  assert (n = k + t') as Hn.
  { unfold n, k. rewrite Hdigits, length_append, length_zeros. lia. }
  rewrite (proj2 (Z.leb_le k (k + t'))) by lia.
  rewrite (proj2 (Z.leb_le (k + t') 21)) by lia. cbn [andb].
  replace (k + t' - k) with t' by lia. by rewrite <-Hdigits.
Qed.

(** *** Reading the text of an integer back *)

Lemma decimal_digit_is_plain (c : ascii) :
  is_radix_digit 10 c = true →
  Ascii.eqb c "-" = false ∧ Ascii.eqb c "+" = false ∧
  Ascii.eqb c "x" = false ∧ Ascii.eqb c "X" = false ∧
  ∀ s, drop_one_of white_space (String c s) = None.
Proof.
  intros H.
  destruct c as [[] [] [] [] [] [] [] []]; vm_compute in H; try discriminate H;
    split_and!; try reflexivity; intros s; reflexivity.
Qed.

Lemma span_all (P : ascii → bool) (s : string) :
  string_all P s = true → span P s = (s, "").
Proof.
  induction s as [|c s IH]; [done|].
  cbn [string_all span]. intros [-> Hs]%andb_true_iff. by rewrite IH.
Qed.

Lemma trim_start_plain (c : ascii) (s : string) :
  drop_one_of white_space (String c s) = None → trim_start (String c s) = String c s.
Proof. intros H. unfold trim_start. cbn [String.length drop_all_of]. by rewrite H. Qed.

(** [parseInt] of the decimal writing of an integer is that integer. *)
Lemma parseInt_string_integer (s : bool) (m : N) :
  (0 < m)%N →
  parseInt_string ((if s then "-" else "") +:+ pretty_N_go m "") = ratio s (Z.of_N m) 1.
Proof.
  intros Hm.
  destruct (string_all_digits_pretty_N_go m) as [Hall Hval].
  pose proof (length_pretty_N_go_pos m Hm) as Hlen.
  destruct (pretty_N_go m "") as [|c1 rest] eqn:Hdigits; [simpl in Hlen; lia|].
  pose proof Hall as Hall'. cbn [string_all] in Hall'.
  apply andb_true_iff in Hall' as [Hc1 Hrest].
  destruct (decimal_digit_is_plain c1 Hc1) as (Hminus & Hplus & _ & _ & Hspace).
  assert (hex_prefix (String c1 rest) = false) as Hhex.
  { destruct rest as [|c2 rest]; [done|]. cbn [hex_prefix].
    cbn [string_all] in Hrest. apply andb_true_iff in Hrest as [Hc2 _].
    destruct (decimal_digit_is_plain c2 Hc2) as (_ & _ & -> & -> & _).
    apply andb_false_r. }
  assert (split_sign (trim_start ((if s then "-" else "") +:+ String c1 rest))
          = (s, String c1 rest)) as Hsign.
  { destruct s.
    - rewrite append_cons, append_nil. rewrite trim_start_plain by reflexivity. done.
    - rewrite append_nil. rewrite trim_start_plain by apply Hspace.
      cbn [split_sign]. by rewrite Hminus, Hplus. }
  unfold parseInt_string. rewrite Hsign, Hhex, (span_all _ _ Hall). 
  by rewrite Hval.
Qed.

(** [parseInt] of a number that is a non-zero integer below 2^53 gives the
    integer back, and so does its division by 1. *)
Lemma parseInt_integer (z : Z) :
  z ≠ 0 → - 2 ^ 53 < z < 2 ^ 53 →
  ∃ x, parseInt (Num (integer z)) = Some x ∧ to_integer x = Some z.
Proof.
  intros Hz Hsafe. unfold parseInt, integer. cbn [ToString fmap option_fmap option_map].
  rewrite Number_toString_integer by lia.
  rewrite (pretty_Z_pos (Z.of_N (Z.abs_N z))) by lia. rewrite N2Z.id.
  rewrite parseInt_string_integer by lia.
  eexists. split; [done|]. rewrite to_integer_ratio by lia.
  f_equal. destruct (Z.ltb_spec z 0); lia.
Qed.

(** *** The init handler on integers *)

Lemma json_number_safe (z : Z) : - 2 ^ 53 < z < 2 ^ 53 → json_number z = integer z.
Proof. intros Hz. unfold json_number. by rewrite (proj2 (Z.ltb_lt _ _)) by lia. Qed.

(** A non-zero integer is read as a number that is neither zero nor [NaN]. *)
Lemma ToBoolean_json_number (z : Z) :
  ToBoolean (Num (json_number z)) = negb (bool_decide (z = 0)).
Proof.
  unfold json_number. destruct (Z.ltb_spec (Z.abs z) (2 ^ 53)) as [Hsafe|Hlarge].
  - unfold integer. cbn [ToBoolean]. f_equal.
    destruct (N.eqb_spec (Z.abs_N z) 0); case_bool_decide; lia.
  - rewrite bool_decide_eq_false_2 by (intros ->; done).
    unfold ratio. rewrite (proj2 (Z.eqb_neq _ _)) by lia.
    destruct (round_nearest_integer_large (z <? 0) (Z.abs z) Hlarge)
      as [-> | (n' & u & -> & _ & Hn')]; [done|].
    cbn [ToBoolean negb]. destruct (N.eqb_spec (Z.to_N n') 0); [lia | done].
Qed.

Lemma ToBoolean_integer (z : Z) : ToBoolean (Num (integer z)) = negb (bool_decide (z = 0)).
Proof.
  unfold integer. cbn [ToBoolean]. f_equal.
  destruct (N.eqb_spec (Z.abs_N z) 0); case_bool_decide; lia.
Qed.

(** [Math.ceil(a / b)] on integers below 2^53. *)
Lemma ceil_divide_integers (a b : Z) :
  a ≠ 0 → b ≠ 0 → - 2 ^ 53 < a < 2 ^ 53 → - 2 ^ 53 < b < 2 ^ 53 →
  to_integer (Math_ceil (divide (integer a) (integer b))) = Some (Js.ceil_div a b).
Proof.
  intros Ha Hb Hsa Hsb. unfold divide, integer.
  rewrite (proj2 (N.eqb_neq (Z.abs_N b) 0)) by lia.
  change (2 ^ Z.max 0 (0 - 0)) with 1. rewrite !Z.mul_1_r.
  rewrite !N2Z.inj_abs_N.
  rewrite ceil_ratio_safe by lia. f_equal. unfold Js.ceil_div.
  destruct (Z.ltb_spec a 0), (Z.ltb_spec b 0); cbn [xorb].
  - rewrite !Z.abs_neq by lia. rewrite Z.opp_involutive.
    rewrite <-(Z.div_opp_opp (- a) b) by lia. by rewrite Z.opp_involutive.
  - rewrite Z.abs_neq, Z.abs_eq by lia. done.
  - rewrite Z.abs_eq, Z.abs_neq by lia.
    rewrite <-(Z.div_opp_opp a (- b)) by lia. by rewrite Z.opp_involutive.
  - rewrite !Z.abs_eq by lia. done.
Qed.

(** On a body with a text as file name and integers below 2^53 as sizes,
    the handler on the values does what is read off the integers. *)
Lemma upload_init_json_integers (uuid : string) (now created : Z) (req : InitRequest)
    (w : world) :
  - 2 ^ 53 < req_fileSize req < 2 ^ 53 →
  - 2 ^ 53 < req_chunkSize req < 2 ^ 53 →
  Js.upload_init_json uuid now created (Js.json_body req) w
  = Some (handle (Js.upload_init_integers uuid now created req) w).
Proof.
  intros Hsize Hchunk.
  unfold Js.upload_init_json, Js.upload_init_body, Js.json_body,
    handle, Js.upload_init_integers.
  rewrite !json_number_safe by done.
  cbn [Js.body_fileName Js.body_fileSize Js.body_chunkSize].
  rewrite !ToBoolean_integer. cbn [ToBoolean]. rewrite !negb_involutive.
  destruct (bool_decide (req_fileName req = "") || bool_decide (req_fileSize req = 0)
            || bool_decide (req_chunkSize req = 0)) eqn:Hcheck; [done|].
  apply orb_false_iff in Hcheck as [[_ H2]%orb_false_iff H3].
  apply bool_decide_eq_false in H2, H3.
  destruct (parseInt_integer (req_fileSize req) H2 Hsize) as (size & -> & Hs).
  destruct (parseInt_integer (req_chunkSize req) H3 Hchunk) as (chunk & -> & Hc).
  cbn [ToString ToNumber mbind option_bind].
  unfold Js.session_info.
  cbn [Js.session_fileName Js.session_fileSize Js.session_chunkSize
       Js.session_totalChunks Js.session_objectName].
  rewrite Hs, Hc. cbn [mbind option_bind].
  rewrite ceil_divide_integers by done. cbn [mbind option_bind totalChunks].
  done.
Qed.

Lemma upload_init_integers_step (uuid : string) (now created : Z) (req : InitRequest)
    (w : world) :
  - 2 ^ 53 < req_fileSize req < 2 ^ 53 →
  - 2 ^ 53 < req_chunkSize req < 2 ^ 53 →
  Js.upload_init uuid now created req w
  = handle (Js.upload_init_integers uuid now created req) w.
Proof.
  intros Hsize Hchunk. unfold Js.upload_init.
  by rewrite upload_init_json_integers.
Qed.

(** Whatever the sizes, a request with a name and non-zero sizes opens an
    empty session under the new upload id and the answer carries its
    [totalChunks]. *)
Lemma upload_init_opens (uuid : string) (now created : Z) (req : InitRequest)
    (w : world) :
  req_fileName req ≠ "" → req_fileSize req ≠ 0 → req_chunkSize req ≠ 0 →
  ∃ info,
    Js.upload_init uuid now created req w
    = (InitOk uuid (make_objectName now (req_fileName req)) (totalChunks info),
       World (objects w) (faults w) (<[uuid := info]> (multipartUploads w)), []) ∧
    fileName info = req_fileName req ∧
    objectName info = make_objectName now (req_fileName req) ∧
    uploadedChunks info = ∅.
Proof.
  intros Hname Hsize Hchunk.
  unfold Js.upload_init, Js.upload_init_json, Js.upload_init_body, Js.json_body.
  cbn [Js.body_fileName Js.body_fileSize Js.body_chunkSize].
  rewrite !ToBoolean_json_number.
  rewrite !bool_decide_eq_false_2 by done.
  assert (ToBoolean (Str (req_fileName req)) = true) as ->.
  { cbn. destruct (req_fileName req); done. }
  cbn [negb orb ToString parseInt ToNumber fmap option_fmap option_map mbind option_bind].
  unfold Js.session_info.
  cbn [Js.session_fileName Js.session_fileSize Js.session_chunkSize
         Js.session_totalChunks Js.session_objectName].
  destruct (to_integer (parseInt_string (Number_toString (json_number (req_fileSize req)))))
    as [size|]; cbn [mbind option_bind];
    [destruct (to_integer
                 (parseInt_string (Number_toString (json_number (req_chunkSize req)))))
       as [chunk|]; cbn [mbind option_bind];
     [destruct (to_integer
                  (Math_ceil (divide (json_number (req_fileSize req))
                                (json_number (req_chunkSize req)))))
        as [total|]; cbn [mbind option_bind]; [by eexists|] |] |].
  all: unfold handle, Js.upload_init_integers;
    rewrite !bool_decide_eq_false_2 by done;
    unfold bind, set_upload, ret; cbn [orb];
    by exists (mkUploadInfo (req_fileName req) (make_objectName now (req_fileName req))
                 (req_fileSize req) (req_chunkSize req)
                 (Js.ceil_div (req_fileSize req) (req_chunkSize req)) ∅ created).
Qed.

End numbers.


(** ** Facts about the world, the client and the loops *)

Lemma used_calm (w : world) : faults w = [] → used w = w.
Proof. destruct w as [o f u]; simpl; intros ->; done. Qed.

Lemma fails_calm (w : world) : faults w = [] → fails w = false.
Proof. unfold fails. by intros ->. Qed.

Lemma drop_parts_uploads (ks : list string) (w : world) :
  multipartUploads (drop_parts ks w) = multipartUploads w.
Proof.
  revert w. induction ks as [|k ks IH]; intros w; [done|].
  simpl. rewrite IH. by destruct (fails w).
Qed.

Lemma drop_parts_other (ks : list string) (w : world) (k : string) :
  k ∉ ks → objects (drop_parts ks w) !! k = objects w !! k.
Proof.
  revert w. induction ks as [|k' ks IH]; intros w Hk; [done|].
  apply not_elem_of_cons in Hk as [Hne Hk].
  simpl. rewrite IH by done.
  destruct (fails w); simpl; [done|]. by rewrite lookup_delete_ne.
Qed.

Lemma drop_parts_calm (ks : list string) (w : world) :
  faults w = [] →
  faults (drop_parts ks w) = [] ∧
  ∀ k, objects (drop_parts ks w) !! k = if decide (k ∈ ks) then None else objects w !! k.
Proof.
  revert w. induction ks as [|k' ks IH]; intros w Hw.
  - split; [done|]. intros k. case_decide as Hin; [|done]. by apply elem_of_nil in Hin.
  - simpl. rewrite (fails_calm w Hw).
    destruct (IH (World (delete k' (objects w)) (tail (faults w)) (multipartUploads w)))
      as [Hf Ho]; [by simpl; rewrite Hw|].
    split; [done|]. intros k. rewrite Ho. simpl.
    destruct (decide (k = k')) as [->|Hne].
    + rewrite lookup_delete_eq.
      rewrite (decide_True (P := k' ∈ k' :: ks)) by (apply elem_of_cons; by left).
      by case_decide.
    + rewrite lookup_delete_ne by done.
      destruct (decide (k ∈ ks)) as [Hin|Hin].
      * rewrite decide_True; [done|]. apply elem_of_cons; by right.
      * rewrite decide_False; [done|]. intros [?|?]%elem_of_cons; done.
Qed.

(** The part-deleting loops never fail and issue one [removeObject] per key. *)
Lemma forM_remove {A} (f : A → string) (l : list A) (w : world) :
  forM_ l (λ x, try_catch (removeObject (f x)) (λ _, ret tt)) w
  = (inr tt, drop_parts (f <$> l) w, RemoveObject ∘ f <$> l).
Proof.
  revert w. induction l as [|x l IH]; intros w; [done|].
  cbn [forM_ fmap list_fmap drop_parts]. unfold bind at 1.
  unfold try_catch, removeObject, ret.
  destruct (fails w); simpl; rewrite IH; done.
Qed.

(** *** Reading the parts *)

Section fetch.
Context (fetch : string → M bytes).

Hypothesis fetch_frame : ∀ k w r w' t,
  fetch k w = (r, w', t) →
  objects w' = objects w ∧ multipartUploads w' = multipartUploads w ∧
  Forall is_read t ∧ ∀ e, r = inl e → read_or_write_error e.

Hypothesis fetch_calm : ∀ k w d,
  faults w = [] → objects w !! k = Some d →
  fetch k w = (inr d, w, [GetObject k; ReadStream k]).

Lemma forM_fetch_frame {A} (f : A → string) (l : list A) (w : world) r w' t :
  forM l (λ x, fetch (f x)) w = (r, w', t) →
  objects w' = objects w ∧ multipartUploads w' = multipartUploads w ∧
  Forall is_read t ∧ ∀ e, r = inl e → read_or_write_error e.
Proof.
  revert w r w' t. induction l as [|x l IH]; intros w r w' t H.
  - injection H as <- <- <-. split_and!; [done | done | by constructor | done].
  - cbn [forM] in H. unfold bind at 1 in H.
    destruct (fetch (f x) w) as [[[e|d] w1] t1] eqn:Hfetch.
    { injection H as <- <- <-. apply fetch_frame in Hfetch as (Ho & Hu & Hc & He).
      split_and!; [done | done | done |]. intros e' [= <-]. by apply He. }
    apply fetch_frame in Hfetch as (Ho & Hu & Hc & _).
    unfold bind at 1 in H.
    destruct (forM l _ w1) as [[[e|ds] w2] t2] eqn:Hrest;
      apply IH in Hrest as (Ho' & Hu' & Hc' & He');
      simpl in H; injection H as <- <- <-.
    + split_and!; [congruence | congruence | by apply Forall_app | done].
    + rewrite app_nil_r.
      split_and!; [congruence | congruence | by apply Forall_app | done].
Qed.

Lemma forM_fetch_calm {A} (f : A → string) (l : list A) (w : world) (ds : list bytes) :
  faults w = [] →
  mapM (λ x, objects w !! f x) l = Some ds →
  forM l (λ x, fetch (f x)) w
  = (inr ds, w, l ≫= (λ x, [GetObject (f x); ReadStream (f x)])).
Proof.
  intros Hw. revert ds. induction l as [|x l IH]; intros ds Hds.
  - by injection Hds as <-.
  - cbn [mapM] in Hds.
    destruct (objects w !! f x) as [d|] eqn:Hd; [|done].
    destruct (mapM _ l) as [ds'|] eqn:Hds'; [|done].
    injection Hds as <-.
    cbn [forM]. unfold bind at 1. rewrite (fetch_calm _ _ _ Hw Hd).
    unfold bind at 1. rewrite (IH ds' eq_refl). unfold ret.
    simpl. by rewrite app_nil_r.
Qed.
End fetch.

(** The part reader of server.js. *)
Lemma js_fetch_frame (k : string) (w : world) r w' t :
  (do chunkStream <- Js.getObject k; Js.readStream k chunkStream) w = (r, w', t) →
  objects w' = objects w ∧ multipartUploads w' = multipartUploads w ∧
  Forall is_read t ∧ ∀ e, r = inl e → read_or_write_error e.
Proof.
  unfold bind, Js.getObject, Js.readStream, fails, used.
  destruct w as [o fs u]; simpl.
  destruct fs as [|[] fs]; simpl; destruct (o !! k); simpl;
    try (destruct fs as [|[] fs]; simpl);
    intros [= <- <- <-]; simpl;
    (split_and!; [done | done | repeat constructor | by intros ? [= <-]]).
Qed.

Lemma js_fetch_calm (k : string) (w : world) (d : bytes) :
  faults w = [] → objects w !! k = Some d →
  (do chunkStream <- Js.getObject k; Js.readStream k chunkStream) w
  = (inr d, w, [GetObject k; ReadStream k]).
Proof.
  unfold bind, Js.getObject, Js.readStream, fails, used.
  destruct w as [o fs u]; simpl. intros -> Hd. simpl. by rewrite Hd.
Qed.

(** The part reader of main.go. *)
Lemma go_fetch_frame (k : string) (w : world) r w' t :
  (do obj <- Go.minio_GetObject k; Go.io_ReadAll obj) w = (r, w', t) →
  objects w' = objects w ∧ multipartUploads w' = multipartUploads w ∧
  Forall is_read t ∧ ∀ e, r = inl e → read_or_write_error e.
Proof.
  unfold bind, Go.minio_GetObject, Go.io_ReadAll, fails, used.
  destruct w as [o fs u]; simpl.
  destruct fs as [|[] fs]; simpl; destruct (o !! k); simpl;
    try (destruct fs as [|[] fs]; simpl);
    intros [= <- <- <-]; simpl;
    (split_and!; [done | done | repeat constructor | by intros ? [= <-]]).
Qed.

Lemma go_fetch_calm (k : string) (w : world) (d : bytes) :
  faults w = [] → objects w !! k = Some d →
  (do obj <- Go.minio_GetObject k; Go.io_ReadAll obj) w
  = (inr d, w, [GetObject k; ReadStream k]).
Proof.
  unfold bind, Go.minio_GetObject, Go.io_ReadAll, fails, used.
  destruct w as [o fs u]; simpl. intros -> Hd. simpl. by rewrite Hd.
Qed.

Lemma drop_parts_shrinks (ks : list string) (w : world) (k : string) :
  objects (drop_parts ks w) !! k = objects w !! k ∨ objects (drop_parts ks w) !! k = None.
Proof.
  revert w. induction ks as [|k' ks IH]; intros w; [by left|].
  simpl. destruct (fails w).
  - apply (IH (used w)).
  - destruct (IH (World (delete k' (objects w)) (tail (faults w)) (multipartUploads w)))
      as [H|H]; [|by right].
    rewrite H. simpl. destruct (decide (k' = k)) as [->|Hne].
    + right. apply lookup_delete_eq.
    + left. by apply lookup_delete_ne.
Qed.

(** *** A store that stays calm for some calls, or does not *)

Lemma world_eta (w : world) :
  World (objects w) (faults w) (multipartUploads w) = w.
Proof. by destruct w. Qed.

Lemma calm_for_split (a b : nat) (w : world) :
  calm_for (a + b) w →
  calm_for a w ∧ ∀ o u, calm_for b (World o (drop a (faults w)) u).
Proof.
  unfold calm_for. rewrite <-take_take_drop, Forall_app. intros [Ha Hb].
  split; [done|]. intros o u. done.
Qed.

Lemma calm_for_fails (n : nat) (w : world) :
  calm_for (S n) w → fails w = false.
Proof.
  unfold calm_for, fails. destruct (faults w) as [|b fs]; [done|].
  simpl. by intros [-> _]%Forall_cons.
Qed.

Lemma mapM_option_fmap {A B C} (g : A → B) (f : B → option C) (l : list A) :
  mapM f (g <$> l) = mapM (λ x, f (g x)) l.
Proof. induction l as [|x l IH]; [done|]. cbn [fmap list_fmap mapM]. by rewrite IH. Qed.

Lemma calm_or_fault (n : nat) (w : world) : calm_for n w ∨ fault_within n w.
Proof.
  unfold calm_for, fault_within.
  induction (take n (faults w)) as [|b l IH]; [left; constructor|].
  destruct b; [right; apply elem_of_cons; by left|].
  destruct IH as [IH|IH]; [left; by constructor | right; apply elem_of_cons; by right].
Qed.

(** A fault among the next [n + 1] calls that is not among the next [n] is
    the fault of the call after them. *)
Lemma fault_after_calm (n : nat) (w : world) (o : gmap string bytes)
    (u : gmap string UploadInfo) :
  fault_within (n + 1) w → calm_for n w → fails (World o (drop n (faults w)) u) = true.
Proof.
  unfold fault_within, calm_for, fails. cbn [faults].
  rewrite <-take_take_drop. intros [Hin|Hin]%elem_of_app Hcalm.
  - rewrite Forall_forall in Hcalm. by specialize (Hcalm _ Hin).
  - destruct (drop n (faults w)) as [|b l]; [by apply elem_of_nil in Hin|].
    cbn in Hin. apply elem_of_cons in Hin as [<-|Hin]; [done|].
    by apply elem_of_nil in Hin.
Qed.

Lemma fault_within_one (w : world) : fault_within 1 w → fails w = true.
Proof.
  intros H. rewrite <-(world_eta w). 
  apply (fault_after_calm 0 w (objects w) (multipartUploads w) H). constructor.
Qed.

Section success.
Context (fetch : string → M bytes).

Hypothesis fetch_success : ∀ k w d w' t,
  fetch k w = (inr d, w', t) →
  calm_for 2 w ∧ objects w !! k = Some d ∧
  w' = World (objects w) (drop 2 (faults w)) (multipartUploads w).

(** When every part was read, the reads met no fault and every part was
    there. *)
Lemma forM_fetch_success {A} (f : A → string) (l : list A) (w : world)
    (ds : list bytes) (w' : world) (t : list call) :
  forM l (λ x, fetch (f x)) w = (inr ds, w', t) →
  calm_for (2 * length l) w ∧
  mapM (λ x, objects w !! f x) l = Some ds ∧
  w' = World (objects w) (drop (2 * length l) (faults w)) (multipartUploads w).
Proof.
  revert w ds w' t. induction l as [|x l IH]; intros w ds w' t H.
  - injection H as <- <- <-. split_and!; [constructor | done | by rewrite world_eta].
  - cbn [forM] in H. unfold bind at 1 in H.
    destruct (fetch (f x) w) as [[[e|d] w1] t1] eqn:Hfetch; [done|].
    apply fetch_success in Hfetch as (Hcalm & Hd & ->).
    unfold bind at 1 in H.
    destruct (forM l _ _) as [[[e|ds'] w2] t2] eqn:Hrest; [done|].
    apply IH in Hrest as (Hcalm' & Hds' & ->).
    cbn in H. injection H as <- <- <-.
    cbn [objects faults multipartUploads] in *.
    split_and!.
    + replace (2 * length (x :: l))%nat with (2 + 2 * length l)%nat by (simpl; lia).
      unfold calm_for in *. rewrite <-take_take_drop. by apply Forall_app.
    + cbn [mapM]. rewrite Hd. cbn. rewrite Hds'. done.
    + rewrite drop_drop. do 2 f_equal. simpl. lia.
Qed.
End success.

Lemma js_fetch_success (k : string) (w : world) (d : bytes) (w' : world) (t : list call) :
  (do chunkStream <- Js.getObject k; Js.readStream k chunkStream) w = (inr d, w', t) →
  calm_for 2 w ∧ objects w !! k = Some d ∧
  w' = World (objects w) (drop 2 (faults w)) (multipartUploads w).
Proof.
  unfold calm_for, bind, Js.getObject, Js.readStream, fails, used.
  destruct w as [o fs u]; cbn [objects faults multipartUploads].
  destruct fs as [|[] [|[] fs]]; cbn; destruct (o !! k); cbn;
    intros [= <- <- <-]; split_and!; try done; repeat constructor.
Qed.

Lemma go_fetch_success (k : string) (w : world) (d : bytes) (w' : world) (t : list call) :
  (do obj <- Go.minio_GetObject k; Go.io_ReadAll obj) w = (inr d, w', t) →
  calm_for 2 w ∧ objects w !! k = Some d ∧
  w' = World (objects w) (drop 2 (faults w)) (multipartUploads w).
Proof.
  unfold calm_for, bind, Go.minio_GetObject, Go.io_ReadAll, fails, used.
  destruct w as [o fs u]; cbn [objects faults multipartUploads].
  destruct fs as [|[] [|[] fs]]; cbn; destruct (o !! k); cbn;
    intros [= <- <- <-]; split_and!; try done; repeat constructor.
Qed.

Lemma stored_parts_single (objs : gmap string bytes) (o : string) :
  stored_parts objs o 1 = None → objs !! chunkObjectName o 0 = None.
Proof.
  unfold stored_parts. change (seqZ 0 1) with [0%Z]. cbn [mapM].
  destruct (objs !! chunkObjectName o 0); [done|done].
Qed.

Lemma NoDup_part_keys (info : UploadInfo) : NoDup (part_keys info).
Proof.
  unfold part_keys. apply NoDup_fmap_2; [|apply NoDup_seqZ].
  intros i j. apply chunkObjectName_inj.
Qed.

(** A key that the loop removes once stays exactly when its removal fails. *)
Lemma drop_parts_lookup (ks : list string) (w : world) (i : nat) (k : string) :
  NoDup ks → ks !! i = Some k →
  objects (drop_parts ks w) !! k
  = if default false (faults w !! i) then objects w !! k else None.
Proof.
  revert w i. induction ks as [|k0 ks IH]; intros w i Hnodup Hk; [done|].
  apply NoDup_cons in Hnodup as [Hfresh Hnodup].
  cbn [drop_parts]. destruct i as [|i]; cbn in Hk.
  - injection Hk as ->. rewrite drop_parts_other by done.
    unfold fails. destruct (faults w) as [|[] fs]; cbn; [| done |];
      by rewrite ?lookup_delete_eq.
  - assert (k ≠ k0) as Hne.
    { intros ->. apply Hfresh. by eapply list_elem_of_lookup_2. }
    rewrite (IH _ i Hnodup Hk).
    unfold fails, used. destruct (faults w) as [|b fs]; cbn.
    + by rewrite lookup_delete_ne.
    + destruct b; cbn; [done|]. by rewrite lookup_delete_ne.
Qed.


(** ** Completion before all chunks are in *)

(** C2. For an existing session with fewer uploaded chunk indices than
    [totalChunks], complete answers 400 with the uploaded count and
    [totalChunks], issues no client call and leaves the world (bucket, session
    map, the session's set of chunks) as it was; the status query that follows
    still finds the session with the same count. *)
Theorem complete_incomplete_conflict (cfg : Config) (w : world) (uploadId : string)
    (info : UploadInfo) :
  uploadId ≠ "" →
  multipartUploads w !! uploadId = Some info →
  (Z.of_nat (size (uploadedChunks info)) < totalChunks info)%Z →
  let conflict := Incomplete (size (uploadedChunks info)) (totalChunks info) in
  let found := StatusOk uploadId (fileName info) (size (uploadedChunks info))
                 (totalChunks info) in
  status conflict = 400%Z ∧
  Js.upload_complete cfg uploadId w = (conflict, w, []) ∧
  Js.upload_status uploadId (after (Js.upload_complete cfg uploadId w)) = (found, w, []) ∧
  Go.completeMultipartUpload cfg uploadId w = (conflict, w, []) ∧
  Go.getUploadStatus uploadId (after (Go.completeMultipartUpload cfg uploadId w))
  = (found, w, []).
Proof.
  intros Hid Hinfo Hlt conflict found.
  assert (Js.upload_complete cfg uploadId w = (conflict, w, [])) as Hjs.
  { unfold Js.upload_complete, handle, Js.upload_complete_body.
    rewrite bool_decide_eq_false_2 by done.
    unfold bind at 1, get_upload. rewrite Hinfo.
    rewrite bool_decide_eq_true_2 by lia. done. }
  assert (Go.completeMultipartUpload cfg uploadId w = (conflict, w, [])) as Hgo.
  { unfold Go.completeMultipartUpload, handle, Go.completeMultipartUpload_body.
    rewrite bool_decide_eq_false_2 by done.
    unfold bind at 1, get_upload. rewrite Hinfo.
    rewrite bool_decide_eq_true_2 by lia. done. }
  rewrite Hjs, Hgo. unfold after. simpl.
  split_and!; try done.
  - unfold Js.upload_status, handle, Js.upload_status_body, bind, get_upload.
    by rewrite Hinfo.
  - unfold Go.getUploadStatus, handle, Go.getUploadStatus_body, bind, get_upload.
    by rewrite Hinfo.
Qed.

Lemma complete_incomplete_conflict_witness :
  Js.upload_complete sample_cfg "u1" two_of_three = (Incomplete 2 3, two_of_three, []) ∧
  Go.completeMultipartUpload sample_cfg "u1" two_of_three
  = (Incomplete 2 3, two_of_three, []).
Proof.
  pose proof (complete_incomplete_conflict sample_cfg two_of_three "u1"
                (sample_session {[0%Z; 2%Z]})) as H.
  destruct H as (_ & Hjs & _ & Hgo & _); [done | reflexivity | reflexivity |].
  split; [exact Hjs | exact Hgo].
Defined.

(** ** Validation at init *)

(** [!v] holds exactly for the values that read as missing. *)
Lemma ToBoolean_false (v : value) : ToBoolean v = false ↔ reads_as_missing v.
Proof.
  unfold reads_as_missing. split.
  - destruct v as [| |[]|[| |negative m e]|s| |]; cbn [ToBoolean]; intros H;
      try discriminate H.
    + by left.
    + right. by left.
    + do 2 right. by left.
    + do 4 right. by left.
    + apply negb_false_iff, N.eqb_eq in H. subst m. do 5 right. by exists negative, e.
    + apply negb_false_iff, bool_decide_eq_true in H. subst s. do 3 right. by left.
  - intros [->|[->|[->|[->|[->|(negative & e & ->)]]]]]; done.
Qed.

Lemma init_check (body : Js.InitBody) :
  negb (ToBoolean (Js.body_fileName body)) || negb (ToBoolean (Js.body_fileSize body))
  || negb (ToBoolean (Js.body_chunkSize body)) = true ↔
  reads_as_missing (Js.body_fileName body) ∨ reads_as_missing (Js.body_fileSize body) ∨
  reads_as_missing (Js.body_chunkSize body).
Proof.
  rewrite !orb_true_iff, !negb_true_iff, !ToBoolean_false. tauto.
Qed.

(** What the handler of server.js does with a body, by its check. *)
Lemma js_init_outcome (uuid : string) (now created : Z) (body : Js.InitBody) (w : world) :
  let missing := reads_as_missing (Js.body_fileName body) ∨
                 reads_as_missing (Js.body_fileSize body) ∨
                 reads_as_missing (Js.body_chunkSize body) in
  (missing ∧ Js.upload_init_body uuid now body = Js.Init400 ∧
   Js.upload_init_json uuid now created body w = Some (MissingParams, w, [])) ∨
  (¬ missing ∧ Js.upload_init_body uuid now body ≠ Js.Init400 ∧
   (Js.upload_init_json uuid now created body w = None ∨
    Js.upload_init_json uuid now created body w = Some (Failed TypeError, w, []) ∨
    ∃ info,
      Js.upload_init_json uuid now created body w
      = Some (InitOk uuid (objectName info) (totalChunks info),
              World (objects w) (faults w) (<[uuid := info]> (multipartUploads w)), []) ∧
      Js.body_fileName body = Str (fileName info) ∧
      objectName info = make_objectName now (fileName info) ∧
      uploadedChunks info = ∅ ∧ createdAt info = created)).
Proof.
  intros missing. pose proof (init_check body) as Hcheck. fold missing in Hcheck.
  unfold Js.upload_init_json, Js.upload_init_body.
  destruct (negb (ToBoolean (Js.body_fileName body)) || _ || _).
  { left. split_and!; [by apply Hcheck | done | done]. }
  right. split; [intros Hm%Hcheck; done|].
  destruct (ToString (Js.body_fileName body)) as [name|] eqn:Hname; cbn [mbind option_bind];
    [|split; [done | right; by left]].
  destruct (parseInt (Js.body_fileSize body)) as [size|]; cbn [mbind option_bind];
    [|split; [done | right; by left]].
  destruct (parseInt (Js.body_chunkSize body)) as [chunk|]; cbn [mbind option_bind];
    [|split; [done | right; by left]].
  destruct (ToNumber (Js.body_fileSize body)) as [dividend|]; cbn [mbind option_bind];
    [|split; [done | right; by left]].
  destruct (ToNumber (Js.body_chunkSize body)) as [divisor|]; cbn [mbind option_bind];
    [|split; [done | right; by left]].
  split; [done|]. unfold Js.session_info.
  cbn [Js.session_fileName Js.session_fileSize Js.session_chunkSize
       Js.session_totalChunks Js.session_objectName].
  destruct (Js.body_fileName body) as [| | | |fileName| |] eqn:Hfile; try by left.
  injection Hname as <-.
  destruct (to_integer size) as [s|]; cbn [mbind option_bind]; [|by left].
  destruct (to_integer chunk) as [c|]; cbn [mbind option_bind]; [|by left].
  destruct (to_integer (Math_ceil _)) as [total|]; cbn [mbind option_bind]; [|by left].
  right. right.
  exists (mkUploadInfo fileName (make_objectName now fileName) s c total ∅ created).
  done.
Qed.

(** C5, as stated, fails: a negative file size is accepted by both servers
    (the session is created and the answer is 200), and server.js also
    accepts a size of zero that is sent as a text. *)
Lemma init_accepts_negative_size :
  (req_fileSize negative_size_request ≤ 0)%Z ∧
  Js.upload_init_json "u1" 1700 1700 (Js.json_body negative_size_request) empty_world
  = Some (InitOk "u1" "1700_a.bin" (-2),
          World ∅ [] {["u1" := mkUploadInfo "a.bin" "1700_a.bin" (-10) 4 (-2) ∅ 1700]}, []) ∧
  Js.upload_init "u1" 1700 1700 negative_size_request empty_world
  = (InitOk "u1" "1700_a.bin" (-2),
     World ∅ [] {["u1" := mkUploadInfo "a.bin" "1700_a.bin" (-10) 4 (-2) ∅ 1700]}, []) ∧
  Go.initMultipartUpload "u1" 1700 1700 negative_size_request empty_world
  = (InitOk "u1" "1700_a.bin" (-1),
     World ∅ [] {["u1" := mkUploadInfo "a.bin" "1700_a.bin" (-10) 4 (-1) ∅ 1700]}, []) ∧
  status (InitOk "u1" "1700_a.bin" (-2)) = 200%Z ∧
  Js.upload_init_json "u1" 1700 1700 (text_body "a.bin" "0" "4") empty_world
  = Some (InitOk "u1" "1700_a.bin" 0,
          World ∅ [] {["u1" := mkUploadInfo "a.bin" "1700_a.bin" 0 4 0 ∅ 1700]}, []).
Proof.
  split_and!; [done | vm_compute; reflexivity | reflexivity | reflexivity | reflexivity
              | vm_compute; reflexivity].
Qed.

Lemma js_init_validation (uuid : string) (now created : Z) (body : Js.InitBody) (w : world) :
  let js := Js.upload_init_json uuid now created body w in
  let missing_js := reads_as_missing (Js.body_fileName body) ∨
                    reads_as_missing (Js.body_fileSize body) ∨
                    reads_as_missing (Js.body_chunkSize body) in
  (missing_js ↔ Js.upload_init_body uuid now body = Js.Init400) ∧
  (missing_js ↔ js = Some (MissingParams, w, [])) ∧
  (missing_js ↔ ∃ r, js = Some r ∧ status (answer r) = 400%Z) ∧
  (¬ missing_js →
     js = None ∨ js = Some (Failed TypeError, w, []) ∨
     ∃ info,
       js = Some (InitOk uuid (objectName info) (totalChunks info),
                  World (objects w) (faults w) (<[uuid := info]> (multipartUploads w)), []) ∧
       Js.body_fileName body = Str (fileName info) ∧
       objectName info = make_objectName now (fileName info) ∧
       uploadedChunks info = ∅ ∧ createdAt info = created).
Proof.
  intros js missing_js.
  destruct (js_init_outcome uuid now created body w)
    as [(Hm & Hbody & Hjs) | (Hm & Hbody & Hjs)]; fold js in Hjs; fold missing_js in Hm.
  - split_and!; [done | done | | done].
    split; [|done]. intros _. rewrite Hjs. by eexists.
  - split_and!; [done | | | done].
    + split; [done|]. intros Heq.
      destruct Hjs as [Hjs | [Hjs | (info & Hjs & _)]]; rewrite Hjs in Heq; done.
    + split; [done|]. intros (r & Heq & Hstatus).
      destruct Hjs as [Hjs | [Hjs | (info & Hjs & _)]]; rewrite Hjs in Heq;
        [done | injection Heq as <-; done | injection Heq as <-; done].
Qed.

Lemma go_init_validation (uuid : string) (now created : Z) (req : InitRequest) (w : world) :
  let go := Go.initMultipartUpload uuid now created req w in
  let missing := req_fileName req = "" ∨ req_fileSize req = 0%Z ∨ req_chunkSize req = 0%Z in
  (status (answer go) = 400%Z ↔ missing) ∧
  (missing → go = (MissingParams, w, [])) ∧
  (¬ missing →
     status (answer go) = 200%Z ∧
     ∃ info, multipartUploads (after go) !! uuid = Some info ∧
             fileName info = req_fileName req ∧ fileSize info = req_fileSize req ∧
             chunkSize info = req_chunkSize req ∧ uploadedChunks info = ∅).
Proof.
  intros go missing. subst go.
  unfold Go.initMultipartUpload, handle, Go.initMultipartUpload_body.
  destruct (bool_decide (req_fileName req = "") || bool_decide (req_fileSize req = 0%Z)
            || bool_decide (req_chunkSize req = 0%Z)) eqn:Hcheck.
  - assert missing as Hm.
    { apply orb_true_iff in Hcheck as [[H|H]%orb_true_iff|H];
        apply bool_decide_eq_true in H; unfold missing; auto. }
    unfold ret, answer, after. simpl. split_and!; done.
  - assert (¬ missing) as Hm.
    { apply orb_false_iff in Hcheck as [[H1 H2]%orb_false_iff H3].
      apply bool_decide_eq_false in H1, H2, H3. unfold missing. tauto. }
    unfold bind, set_upload, ret, answer, after. simpl.
    split_and!; try done.
    intros _. split; [done|]. eexists. rewrite lookup_insert_eq. done.
Qed.

Lemma js_init_integers (uuid : string) (now created : Z) (req : InitRequest) (w : world) :
  let js_req := Js.upload_init_json uuid now created (Js.json_body req) w in
  let missing := req_fileName req = "" ∨ req_fileSize req = 0%Z ∨ req_chunkSize req = 0%Z in
  (- 2 ^ 53 < req_fileSize req < 2 ^ 53)%Z → (- 2 ^ 53 < req_chunkSize req < 2 ^ 53)%Z →
  (missing → js_req = Some (MissingParams, w, [])) ∧
  (¬ missing →
     ∃ r info, js_req = Some r ∧ status (answer r) = 200%Z ∧
               multipartUploads (after r) !! uuid = Some info ∧
               fileName info = req_fileName req ∧ fileSize info = req_fileSize req ∧
               chunkSize info = req_chunkSize req ∧
               totalChunks info = Js.ceil_div (req_fileSize req) (req_chunkSize req) ∧
               uploadedChunks info = ∅).
Proof.
  intros js_req missing Hsize Hchunk. subst js_req.
  rewrite upload_init_json_integers by done.
  unfold handle, Js.upload_init_integers.
  destruct (bool_decide (req_fileName req = "") || bool_decide (req_fileSize req = 0%Z)
            || bool_decide (req_chunkSize req = 0%Z)) eqn:Hcheck.
  - assert missing as Hm.
    { apply orb_true_iff in Hcheck as [[H|H]%orb_true_iff|H];
        apply bool_decide_eq_true in H; unfold missing; auto. }
    split; done.
  - assert (¬ missing) as Hm.
    { apply orb_false_iff in Hcheck as [[H1 H2]%orb_false_iff H3].
      apply bool_decide_eq_false in H1, H2, H3. unfold missing. tauto. }
    split; [done|]. intros _.
    unfold bind, set_upload, ret. cbn. eexists _, _. split; [reflexivity|].
    unfold answer, after. cbn. rewrite lookup_insert_eq. done.
Qed.

(** C5, amended. Init answers 400 exactly when one of the three fields reads
    as missing, and then changes nothing.  In server.js a field reads as
    missing when it is absent, [null], [false], the number 0, [NaN] or the
    empty text; any other body is not rejected: a [TypeError] while a field
    is turned into text or number gives 500 and no session, and otherwise the
    answer is 200 and the session is stored ([None] stands for a stored
    session with a size that is no integer or a file name that is no text,
    which is none of the sessions of a [world]).  In main.go the bound request
    reads as missing when its file name is empty or a size is 0.  For a text
    and two integers below 2^53 in absolute value, sent as JSON numbers, both
    servers reject the same requests and store the sizes as sent, negative
    ones included. *)
Theorem init_rejects_only_missing (uuid : string) (now created : Z) (body : Js.InitBody)
    (req : InitRequest) (w : world) :
  let js := Js.upload_init_json uuid now created body w in
  let js_req := Js.upload_init_json uuid now created (Js.json_body req) w in
  let go := Go.initMultipartUpload uuid now created req w in
  let missing_js := reads_as_missing (Js.body_fileName body) ∨
                    reads_as_missing (Js.body_fileSize body) ∨
                    reads_as_missing (Js.body_chunkSize body) in
  let missing := req_fileName req = "" ∨ req_fileSize req = 0%Z ∨ req_chunkSize req = 0%Z in
  (missing_js ↔ Js.upload_init_body uuid now body = Js.Init400) ∧
  (missing_js ↔ js = Some (MissingParams, w, [])) ∧
  (missing_js ↔ ∃ r, js = Some r ∧ status (answer r) = 400%Z) ∧
  (¬ missing_js →
     js = None ∨ js = Some (Failed TypeError, w, []) ∨
     ∃ info,
       js = Some (InitOk uuid (objectName info) (totalChunks info),
                  World (objects w) (faults w) (<[uuid := info]> (multipartUploads w)), []) ∧
       Js.body_fileName body = Str (fileName info) ∧
       objectName info = make_objectName now (fileName info) ∧
       uploadedChunks info = ∅ ∧ createdAt info = created) ∧
  (status (answer go) = 400%Z ↔ missing) ∧
  (missing → go = (MissingParams, w, [])) ∧
  (¬ missing →
     status (answer go) = 200%Z ∧
     ∃ info, multipartUploads (after go) !! uuid = Some info ∧
             fileName info = req_fileName req ∧ fileSize info = req_fileSize req ∧
             chunkSize info = req_chunkSize req ∧ uploadedChunks info = ∅) ∧
  ((- 2 ^ 53 < req_fileSize req < 2 ^ 53)%Z → (- 2 ^ 53 < req_chunkSize req < 2 ^ 53)%Z →
     (missing → js_req = Some (MissingParams, w, [])) ∧
     (¬ missing →
        ∃ r info, js_req = Some r ∧ status (answer r) = 200%Z ∧
                  multipartUploads (after r) !! uuid = Some info ∧
                  fileName info = req_fileName req ∧ fileSize info = req_fileSize req ∧
                  chunkSize info = req_chunkSize req ∧
                  totalChunks info = Js.ceil_div (req_fileSize req) (req_chunkSize req) ∧
                  uploadedChunks info = ∅)).
Proof.
  intros js js_req go missing_js missing.
  destruct (js_init_validation uuid now created body w) as (H1 & H2 & H3 & H4).
  destruct (go_init_validation uuid now created req w) as (H5 & H6 & H7).
  split_and!; [done.. |].
  apply js_init_integers.
Qed.

(** Sizes sent as texts are read as numbers: the session is the one of the
    same sizes sent as numbers. *)
Example init_reads_text_sizes :
  Js.upload_init_json "u1" 1700 1700 (text_body "a.bin" "10" "4") empty_world
  = Some (Js.upload_init "u1" 1700 1700 (mkInit "a.bin" 10 4) empty_world).
Proof. vm_compute. reflexivity. Qed.

(** The stored sizes are what [parseInt] reads in the text of the value: of
    the number 10^21, whose text is [1e+21], it reads 1. *)
Example init_stores_what_parseInt_reads :
  Js.upload_init_json "u1" 1700 1700 (Js.json_body (mkInit "a.bin" (10 ^ 21) 4)) empty_world
  = Some (InitOk "u1" "1700_a.bin" 250000000000000000000,
          World ∅ []
            {["u1" := mkUploadInfo "a.bin" "1700_a.bin" 1 4 250000000000000000000 ∅ 1700]},
          []) ∧
  Js.upload_init "u1" 1700 1700 (mkInit "a.bin" (10 ^ 21) 4) empty_world
  = (InitOk "u1" "1700_a.bin" 250000000000000000000,
     World ∅ []
       {["u1" := mkUploadInfo "a.bin" "1700_a.bin" 1 4 250000000000000000000 ∅ 1700]},
     []).
Proof. split; vm_compute; reflexivity. Qed.

(** A size that is a text without digits is accepted as well; the session is
    stored with [NaN] as size and as chunk count. *)
Example init_accepts_any_text :
  Js.upload_init_body "u1" 1700 (text_body "a.bin" "abc" "4")
  = Js.Init200 "u1" (Js.mkSession (Str "a.bin") "1700_a.bin" NaN (ratio false 4 1) NaN) ∧
  Js.upload_init_json "u1" 1700 1700 (text_body "a.bin" "abc" "4") empty_world = None.
Proof. split; vm_compute; reflexivity. Qed.

(** A file name that cannot be turned into a text ends the handler in its
    [catch]: 500, and no session. *)
Example init_throws_on_object :
  Js.upload_init_json "u1" 1700 1700
    (Js.mkBody (Obj [("toString", Null)]) (Num (integer 1)) (Num (integer 1))) empty_world
  = Some (Failed TypeError, empty_world, []).
Proof. vm_compute. reflexivity. Qed.

(** ** Chunk upload *)

(** What a chunk upload does to an existing session, whatever the index. *)
Lemma js_upload_chunk_run (w : world) (uploadId : string) (info : UploadInfo)
    (i : Z) (data : bytes) :
  uploadId ≠ "" →
  multipartUploads w !! uploadId = Some info →
  let key := chunkObjectName (objectName info) i in
  Js.upload_chunk (mkChunk uploadId (Some i) (Some data)) w
  = if fails w then (Failed (MinioError (PutObject key data)), used w, [PutObject key data])
    else (ChunkOk i (size ({[i]} ∪ uploadedChunks info)) (totalChunks info),
          World (<[key := data]> (objects w)) (tail (faults w))
            (<[uploadId := add_chunk i info]> (multipartUploads w)),
          [PutObject key data]).
Proof.
  intros Hid Hinfo key.
  unfold Js.upload_chunk, handle, Js.upload_chunk_body. simpl.
  rewrite bool_decide_eq_false_2 by done.
  unfold bind at 1, get_upload. rewrite Hinfo.
  unfold bind, putObject, set_upload, ret. fold key.
  destruct (fails w); done.
Qed.

Lemma go_uploadChunk_run (w : world) (uploadId : string) (info : UploadInfo)
    (i : Z) (data : bytes) :
  uploadId ≠ "" →
  multipartUploads w !! uploadId = Some info →
  let key := chunkObjectName (objectName info) i in
  Go.uploadChunk (mkChunk uploadId (Some i) (Some data)) w
  = if fails w then (Failed (MinioError (PutObject key data)), used w, [PutObject key data])
    else (ChunkOk i (size ({[i]} ∪ uploadedChunks info)) (totalChunks info),
          World (<[key := data]> (objects w)) (tail (faults w))
            (<[uploadId := add_chunk i info]> (multipartUploads w)),
          [PutObject key data]).
Proof.
  intros Hid Hinfo key.
  unfold Go.uploadChunk, handle, Go.uploadChunk_body. simpl.
  rewrite bool_decide_eq_false_2 by done.
  unfold bind at 1, get_upload. rewrite Hinfo.
  unfold bind, putObject, set_upload, ret. fold key.
  destruct (fails w); done.
Qed.

(** A chunk upload whose store write fails answers 500 and changes neither
    the bucket nor the session. *)
Lemma chunk_upload_failure_leaves_state (w : world) (uploadId : string)
    (info : UploadInfo) (i : Z) (data : bytes) :
  uploadId ≠ "" →
  multipartUploads w !! uploadId = Some info →
  fails w = true →
  ∀ r, r = Js.upload_chunk (mkChunk uploadId (Some i) (Some data)) w ∨
       r = Go.uploadChunk (mkChunk uploadId (Some i) (Some data)) w →
  status (answer r) = 500%Z ∧ objects (after r) = objects w ∧
  multipartUploads (after r) = multipartUploads w.
Proof.
  intros Hid Hinfo Hfail r [-> | ->].
  - rewrite (js_upload_chunk_run w uploadId info i data Hid Hinfo), Hfail. done.
  - rewrite (go_uploadChunk_run w uploadId info i data Hid Hinfo), Hfail. done.
Qed.

(** C4, as stated, fails: index 5 of a three-chunk session is accepted with
    200, its part is written and 5 joins [uploadedChunks]. *)
Lemma chunk_index_out_of_range_accepted :
  ¬ (0 ≤ 5 < totalChunks (sample_session {[0%Z; 2%Z]}))%Z ∧
  answer (Js.upload_chunk stray_chunk two_of_three) = ChunkOk 5 3 3 ∧
  objects (after (Js.upload_chunk stray_chunk two_of_three)) !! "1700_a.bin.part5" = Some CD ∧
  multipartUploads (after (Js.upload_chunk stray_chunk two_of_three)) !! "u1"
  = Some (sample_session {[5%Z; 0%Z; 2%Z]}) ∧
  answer (Go.uploadChunk stray_chunk two_of_three) = ChunkOk 5 3 3 ∧
  objects (after (Go.uploadChunk stray_chunk two_of_three)) !! "1700_a.bin.part5" = Some CD ∧
  multipartUploads (after (Go.uploadChunk stray_chunk two_of_three)) !! "u1"
  = Some (sample_session {[5%Z; 0%Z; 2%Z]}).
Proof.
  split_and!; [simpl; lia | reflexivity..].
Qed.

(** C4, amended. Neither server checks the index against [totalChunks]: for
    an existing session and any integer index, a chunk upload whose store write
    succeeds answers 200, stores the bytes under [objectName.part<index>] and
    adds the index to [uploadedChunks]. *)
Theorem chunk_index_not_checked (w : world) (uploadId : string) (info : UploadInfo)
    (i : Z) (data : bytes) :
  uploadId ≠ "" →
  multipartUploads w !! uploadId = Some info →
  fails w = false →
  let key := chunkObjectName (objectName info) i in
  let done_ := (ChunkOk i (size ({[i]} ∪ uploadedChunks info)) (totalChunks info),
                World (<[key := data]> (objects w)) (tail (faults w))
                  (<[uploadId := add_chunk i info]> (multipartUploads w)),
                [PutObject key data]) in
  Js.upload_chunk (mkChunk uploadId (Some i) (Some data)) w = done_ ∧
  Go.uploadChunk (mkChunk uploadId (Some i) (Some data)) w = done_ ∧
  status (answer done_) = 200%Z ∧
  objects (after done_) !! key = Some data ∧
  (∃ info', multipartUploads (after done_) !! uploadId = Some info' ∧
            i ∈ uploadedChunks info').
Proof.
  intros Hid Hinfo Hok key done_.
  rewrite (js_upload_chunk_run w uploadId info i data Hid Hinfo).
  rewrite (go_uploadChunk_run w uploadId info i data Hid Hinfo).
  rewrite Hok. subst done_. unfold answer, after. simpl.
  split_and!; try done.
  - by rewrite lookup_insert_eq.
  - eexists. rewrite lookup_insert_eq. split; [done|]. simpl.
    apply elem_of_union_l. by apply elem_of_singleton.
Qed.

Lemma chunk_index_not_checked_witness :
  Js.upload_chunk stray_chunk two_of_three
  = (ChunkOk 5 (size ({[5%Z]} ∪ ({[0%Z; 2%Z]} : gset Z))) 3,
     World (<["1700_a.bin.part5" := CD]> (objects two_of_three)) []
       (<["u1" := add_chunk 5 (sample_session {[0%Z; 2%Z]})]> (multipartUploads two_of_three)),
     [PutObject "1700_a.bin.part5" CD]).
Proof.
  exact (proj1 (chunk_index_not_checked two_of_three "u1" (sample_session {[0%Z; 2%Z]})
                  5 CD ltac:(done) eq_refl eq_refl)).
Defined.

(** ** Listing the bucket *)

(** main.go skips every key that contains [".part"], hence every part key. *)
Lemma go_listFiles_hides_parts (cfg : Config) (w : world) (files : list file_entry)
    (f : file_entry) :
  answer (Go.listFiles cfg w) = FilesOk files →
  f ∈ files →
  Contains (fe_name f) ".part" = false ∧ ¬ part_key_pattern (fe_name f).
Proof.
  unfold Go.listFiles, handle, Go.listFiles_body, bind, listObjects, ret, answer.
  destruct (fails w); simpl; [done|].
  intros [= <-] Hf.
  apply list_elem_of_fmap in Hf as (obj & -> & Hobj).
  apply list_elem_of_filter in Hobj as [Hkey _]. simpl.
  split; [done|]. intros Hpat%part_key_pattern_Contains. congruence.
Qed.

(** C3 on server.js: the listing of a bucket that holds the parts of an upload
    in flight names them. *)
Theorem js_list_shows_parts :
  ∃ files f,
    answer (Js.files_list sample_cfg two_of_three) = FilesOk files ∧
    f ∈ files ∧
    fe_name f = chunkObjectName "1700_a.bin" 0 ∧
    part_key_pattern (fe_name f).
Proof.
  eexists _, (mkFile "1700_a.bin.part0" 2 "http://localhost:9000/uploads/1700_a.bin.part0").
  split_and!.
  - reflexivity.
  - vm_compute. apply elem_of_cons. right. apply elem_of_cons. by left.
  - reflexivity.
  - exists "1700_a.bin", "0". done.
Qed.

(** ** Object names and part keys *)


(** A text that starts with dotless characters and has [".part"] in it has
    it after them. *)
Lemma dotless_prefix_split (p f b d : string) :
  string_all not_dot p = true →
  p +:+ f = b +:+ ".part" +:+ d →
  ∃ b', b = p +:+ b' ∧ f = b' +:+ ".part" +:+ d.
Proof.
  revert b. induction p as [|c p IH]; intros b Hp Heq.
  - exists b. done.
  - cbn [string_all] in Hp. apply andb_true_iff in Hp as [Hc Hp].
    destruct b as [|c' b].
    + rewrite append_nil, !append_cons in Heq. injection Heq as -> _. done.
    + rewrite !append_cons in Heq. injection Heq as -> Heq.
      destruct (IH b Hp Heq) as (b' & -> & ->). exists b'. done.
Qed.

(** An object name is [<base>.part<d>] exactly when its file name is, with
    the base the object name of the base of the file name. *)
Lemma make_objectName_split (now : Z) (f b d : string) :
  make_objectName now f = b +:+ ".part" +:+ d ↔
  ∃ b', b = make_objectName now b' ∧ f = b' +:+ ".part" +:+ d.
Proof.
  unfold make_objectName. split.
  - intros Heq.
    destruct (dotless_prefix_split (pretty now +:+ "_") f b d) as (b' & -> & ->).
    + by rewrite string_all_append, pretty_Z_dotless.
    + by rewrite append_assoc.
    + exists b'. by rewrite append_assoc.
  - intros (b' & -> & ->). by rewrite !append_assoc.
Qed.

Lemma last_is_digit_app (s t : string) :
  t ≠ "" → last_is_digit (s +:+ t) = last_is_digit t.
Proof.
  intros Ht. induction s as [|c s IH]; [done|].
  rewrite append_cons. cbn [last_is_digit]. rewrite IH.
  destruct (s +:+ t) eqn:Hst; [|done].
  destruct s; [by rewrite append_nil in Hst | by rewrite append_cons in Hst].
Qed.

Lemma is_digit_pretty_N_char (d : N) : is_digit (pretty_N_char d) = true.
Proof. unfold pretty_N_char. by repeat case_match. Qed.

Lemma last_is_digit_pretty (i : Z) : last_is_digit (pretty i) = true.
Proof.
  assert (∀ x : N, (0 < x)%N → last_is_digit (pretty_N_go x "") = true) as Hpos.
  { intros x Hx. rewrite pretty_N_go_last by done.
    rewrite last_is_digit_app by done. apply is_digit_pretty_N_char. }
  destruct i as [|p|p]; [reflexivity| |].
  - rewrite pretty_Z_pos by lia. apply Hpos. lia.
  - rewrite pretty_Z_neg by lia. rewrite last_is_digit_app.
    + rewrite pretty_Z_pos by lia. apply Hpos. lia.
    + rewrite pretty_Z_pos by lia.
      pose proof (length_pretty_N_go_pos (Z.to_N (- Z.neg p)) ltac:(lia)) as Hlen.
      intros Heq. rewrite Heq in Hlen. simpl in Hlen. lia.
Qed.

Lemma ends_in_part_index_digit (f : string) :
  ends_in_part_index f → last_is_digit f = true.
Proof.
  intros (base & i & ->). rewrite !last_is_digit_app.
  - apply last_is_digit_pretty.
  - pose proof (last_is_digit_pretty i). by destruct (pretty i).
  - done.
Qed.

(** The object name of a file name that does not end in a digit is no part
    key. *)
Lemma plain_end_is_no_part_key (now : Z) (f o : string) (i : Z) :
  last_is_digit f = false → make_objectName now f ≠ chunkObjectName o i.
Proof.
  intros Hlast Heq. apply make_objectName_split in Heq as (base & _ & ->).
  assert (ends_in_part_index (base +:+ ".part" +:+ pretty i)) as Hends by (by exists base, i).
  apply ends_in_part_index_digit in Hends. congruence.
Qed.


(** File names with [".part"] in them whose object names are no part keys. *)
Example partial_names_are_no_part_keys (now : Z) (o : string) (i : Z) :
  make_objectName now "my.partial.txt" ≠ chunkObjectName o i ∧
  make_objectName now "a.part0.bak" ≠ chunkObjectName o i ∧
  Contains "a.part0.bak" ".part" = true.
Proof.
  split_and!; [by apply plain_end_is_no_part_key.. | reflexivity].
Qed.

(** ** Cancellation *)

Lemma js_upload_cancel_run (w : world) (uploadId : string) (info : UploadInfo) :
  multipartUploads w !! uploadId = Some info →
  Js.upload_cancel uploadId w
  = (CancelOk, cancelled uploadId info w, RemoveObject <$> part_keys info).
Proof.
  intros Hinfo.
  unfold Js.upload_cancel, handle, Js.upload_cancel_body.
  unfold bind at 1, get_upload. rewrite Hinfo.
  unfold bind at 1. rewrite forM_remove.
  unfold bind, delete_upload, ret, cancelled, part_keys. simpl.
  rewrite drop_parts_uploads, !app_nil_r, <-list_fmap_compose. done.
Qed.

Lemma go_cancelUpload_run (w : world) (uploadID : string) (info : UploadInfo) :
  multipartUploads w !! uploadID = Some info →
  Go.cancelUpload uploadID w
  = (CancelOk, cancelled uploadID info w, RemoveObject <$> part_keys info).
Proof.
  intros Hinfo.
  unfold Go.cancelUpload, handle, Go.cancelUpload_body.
  unfold bind at 1, get_upload. rewrite Hinfo.
  unfold bind at 1. rewrite forM_remove.
  unfold bind, delete_upload, ret, cancelled, part_keys. simpl.
  rewrite drop_parts_uploads, !app_nil_r, <-list_fmap_compose. done.
Qed.

Lemma elem_of_part_keys (info : UploadInfo) (k : string) :
  k ∈ part_keys info ↔
  ∃ i, (0 ≤ i < totalChunks info)%Z ∧ k = chunkObjectName (objectName info) i.
Proof.
  unfold part_keys. rewrite list_elem_of_fmap. setoid_rewrite elem_of_seqZ.
  split; intros (i & H1 & H2); exists i; split; first [done | lia].
Qed.

(** Once the session is gone, every handler that takes the upload id answers 404. *)
Lemma unknown_upload_404 (cfg : Config) (w : world) (uploadId : string)
    (i : Z) (data : bytes) :
  uploadId ≠ "" →
  multipartUploads w !! uploadId = None →
  Js.upload_status uploadId w = (NoSuchUpload, w, []) ∧
  Js.upload_chunk (mkChunk uploadId (Some i) (Some data)) w = (NoSuchUpload, w, []) ∧
  Js.upload_complete cfg uploadId w = (NoSuchUpload, w, []) ∧
  Go.getUploadStatus uploadId w = (NoSuchUpload, w, []) ∧
  Go.uploadChunk (mkChunk uploadId (Some i) (Some data)) w = (NoSuchUpload, w, []) ∧
  Go.completeMultipartUpload cfg uploadId w = (NoSuchUpload, w, []).
Proof.
  intros Hid Hnone.
  unfold Js.upload_status, Js.upload_chunk, Js.upload_complete,
    Go.getUploadStatus, Go.uploadChunk, Go.completeMultipartUpload, handle,
    Js.upload_status_body, Js.upload_chunk_body, Js.upload_complete_body,
    Go.getUploadStatus_body, Go.uploadChunk_body, Go.completeMultipartUpload_body.
  simpl. rewrite !bool_decide_eq_false_2 by done.
  unfold bind, get_upload. rewrite Hnone. done.
Qed.

(** C7. Cancelling an existing session, whatever it has uploaded and whatever
    the store answers: one [removeObject] is issued for the part key of every
    index of [0, totalChunks), in order; a part that is not in the bucket is no
    obstacle; the session leaves the map; the answer is 200.  When the store
    does not fail, no part key of the session is left in the bucket.
    Afterwards status, chunk and complete answer 404 for that upload id. *)
Theorem cancel_removes_parts_and_session (cfg : Config) (w : world) (uploadId : string)
    (info : UploadInfo) (i : Z) (data : bytes) :
  uploadId ≠ "" →
  multipartUploads w !! uploadId = Some info →
  let w' := cancelled uploadId info w in
  let removals :=
    (λ i, RemoveObject (chunkObjectName (objectName info) i)) <$> seqZ 0 (totalChunks info) in
  Js.upload_cancel uploadId w = (CancelOk, w', removals) ∧
  Go.cancelUpload uploadId w = (CancelOk, w', removals) ∧
  status CancelOk = 200%Z ∧
  multipartUploads w' = delete uploadId (multipartUploads w) ∧
  (faults w = [] →
   ∀ j, (0 ≤ j < totalChunks info)%Z →
        objects w' !! chunkObjectName (objectName info) j = None) ∧
  Js.upload_status uploadId w' = (NoSuchUpload, w', []) ∧
  Js.upload_chunk (mkChunk uploadId (Some i) (Some data)) w' = (NoSuchUpload, w', []) ∧
  Js.upload_complete cfg uploadId w' = (NoSuchUpload, w', []) ∧
  Go.getUploadStatus uploadId w' = (NoSuchUpload, w', []) ∧
  Go.uploadChunk (mkChunk uploadId (Some i) (Some data)) w' = (NoSuchUpload, w', []) ∧
  Go.completeMultipartUpload cfg uploadId w' = (NoSuchUpload, w', []) ∧
  status NoSuchUpload = 404%Z.
Proof.
  intros Hid Hinfo w' removals.
  assert (removals = RemoveObject <$> part_keys info) as ->.
  { unfold removals, part_keys. by rewrite <-list_fmap_compose. }
  rewrite (js_upload_cancel_run w uploadId info Hinfo).
  rewrite (go_cancelUpload_run w uploadId info Hinfo).
  assert (multipartUploads w' !! uploadId = None) as Hgone.
  { unfold w', cancelled. simpl. apply lookup_delete_eq. }
  destruct (unknown_upload_404 cfg w' uploadId i data Hid Hgone)
    as (H1 & H2 & H3 & H4 & H5 & H6).
  split_and!; try done.
  intros Hcalm j Hj.
  destruct (drop_parts_calm (part_keys info) w Hcalm) as [_ Hobjs].
  unfold w', cancelled. simpl. rewrite Hobjs.
  rewrite decide_True; [done|]. apply elem_of_part_keys. by exists j.
Qed.

Lemma cancel_removes_parts_and_session_witness :
  Js.upload_cancel "u1" (three_of_three []) 
  = (CancelOk, empty_world,
     [RemoveObject "1700_a.bin.part0"; RemoveObject "1700_a.bin.part1";
      RemoveObject "1700_a.bin.part2"]) ∧
  Go.cancelUpload "u1" (none_of_three [true; false])
  = (CancelOk, empty_world,
     [RemoveObject "1700_a.bin.part0"; RemoveObject "1700_a.bin.part1";
      RemoveObject "1700_a.bin.part2"]).
Proof.
  split.
  - exact (proj1 (cancel_removes_parts_and_session sample_cfg (three_of_three []) "u1"
                    (sample_session {[0%Z; 1%Z; 2%Z]}) 0 [] ltac:(done) eq_refl)).
  - exact (proj1 (proj2 (cancel_removes_parts_and_session sample_cfg
                           (none_of_three [true; false]) "u1"
                           (sample_session ∅) 0 [] ltac:(done) eq_refl))).
Defined.

Lemma cancelled_leaves_rest_alone (w : world) (uploadId : string) (info : UploadInfo) :
  leaves_rest_alone
    (CancelOk, cancelled uploadId info w, RemoveObject <$> part_keys info) w uploadId info.
Proof.
  unfold leaves_rest_alone, after, calls, cancelled. cbn [fst snd objects multipartUploads].
  set (own k := ∃ i, (0 ≤ i < totalChunks info)%Z ∧ k = chunkObjectName (objectName info) i).
  assert (∀ k, ¬ own k → objects (drop_parts (part_keys info) w) !! k = objects w !! k)
    as Hframe.
  { intros k Hk. apply drop_parts_other. by rewrite elem_of_part_keys. }
  split_and!.
  - done.
  - intros j Hj. apply Hframe. intros (i & Hi & Heq).
    apply chunkObjectName_inj in Heq. lia.
  - intros k. destruct (decide (k ∈ part_keys info)) as [Hin|Hout].
    + destruct (drop_parts_shrinks (part_keys info) w k) as [?|?]; [by left|].
      right. split; [by apply elem_of_part_keys | done].
    + left. by apply drop_parts_other.
  - intros other Hother. by rewrite lookup_delete_ne.
  - apply lookup_delete_eq.
  - apply Forall_fmap, Forall_forall. intros k Hk. exists k.
    split; [by apply elem_of_part_keys | done].
Qed.

(** C10. Cancelling a session touches nothing but its own part keys and its
    own entry: a key that is not [objectName.part<i>] for some [i] of
    [0, totalChunks) keeps its content (so does a part stored under an index
    outside that range), every other session is as before, and the only
    client calls are the removals of those part keys. *)
Theorem cancel_frame (w : world) (uploadId : string) (info : UploadInfo) :
  multipartUploads w !! uploadId = Some info →
  leaves_rest_alone (Js.upload_cancel uploadId w) w uploadId info ∧
  leaves_rest_alone (Go.cancelUpload uploadId w) w uploadId info.
Proof.
  intros Hinfo.
  rewrite (js_upload_cancel_run w uploadId info Hinfo).
  rewrite (go_cancelUpload_run w uploadId info Hinfo).
  split; apply cancelled_leaves_rest_alone.
Qed.

Lemma cancel_frame_witness :
  objects (after (Js.upload_cancel "u1" busy_world)) !! "1699_b.txt" = Some EF ∧
  objects (after (Go.cancelUpload "u1" busy_world)) !! chunkObjectName "1700_a.bin" 5
  = Some CD ∧
  multipartUploads (after (Js.upload_cancel "u1" busy_world)) !! "u2"
  = Some (mkUploadInfo "c.bin" "1701_c.bin" 8 4 2 ∅ 1701).
Proof.
  destruct (cancel_frame busy_world "u1" (sample_session {[0%Z; 5%Z]}) eq_refl)
    as [(Hjs & _ & _ & Hother & _) (_ & Hgo & _)].
  simpl in Hjs, Hgo.
  split_and!.
  - rewrite Hjs; [reflexivity|].
    intros (i & Hi & Heq).
    assert (i = 0 ∨ i = 1 ∨ i = 2)%Z as [-> | [-> | ->]] by lia; discriminate Heq.
  - rewrite Hgo; [reflexivity | lia].
  - rewrite Hother; [reflexivity | done].
Defined.

(** ** Completion *)

Lemma read_is_no_removal (t : list call) :
  Forall is_read t → Forall (λ c, ∀ k, c ≠ RemoveObject k) t.
Proof. intros H. eapply Forall_impl; [exact H|]. intros [] Hc k; done. Qed.

Lemma js_complete_failure (cfg : Config) (w : world) (uploadId : string)
    (e : exn) (w' : world) (t : list call) :
  Js.upload_complete cfg uploadId w = (Failed e, w', t) →
  read_or_write_error e →
  objects w' = objects w ∧ multipartUploads w' = multipartUploads w ∧
  Forall (λ c, ∀ k, c ≠ RemoveObject k) t.
Proof.
  intros H He.
  unfold Js.upload_complete, handle, Js.upload_complete_body in H.
  destruct (bool_decide (uploadId = "")); [done|].
  unfold bind at 1, get_upload in H.
  destruct (multipartUploads w !! uploadId) as [info|]; [|done].
  destruct (bool_decide (Z.of_nat (size (uploadedChunks info)) ≠ totalChunks info)); [done|].
  unfold bind at 1 in H.
  destruct (bool_decide (1 < length _)%nat).
  - unfold bind at 1 in H.
    destruct (forM _ _ w) as [[[e1|chunks] w1] t1] eqn:Hread;
      apply (forM_fetch_frame _ js_fetch_frame id) in Hread as (Ho & Hu & Ht & _).
    { injection H as <- <- <-. auto using read_is_no_removal. }
    unfold bind at 1, putObject in H.
    destruct (fails w1).
    + injection H as <- <- <-. simpl. split_and!; [done | done |].
      apply Forall_app. split; [by apply read_is_no_removal|].
      repeat constructor. done.
    + rewrite forM_remove in H. done.
  - destruct (_ !! 0%nat) as [chunk0|].
    + unfold bind, copyObject, removeObject in H.
      destruct (fails w).
      { injection H as <- <- <-. simpl. split_and!; [done | done |].
        repeat constructor. done. }
      destruct (objects w !! chunk0).
      * simpl in H.
        destruct (fails (World _ _ _)); simpl in H; [|done].
        injection H as <- <- <-. done.
      * injection H as <- <- <-. simpl. split_and!; [done | done |].
        repeat constructor. done.
    + unfold throw in H. injection H as <- <- <-. done.
Qed.

Lemma go_complete_failure (cfg : Config) (w : world) (uploadID : string)
    (e : exn) (w' : world) (t : list call) :
  Go.completeMultipartUpload cfg uploadID w = (Failed e, w', t) →
  objects w' = objects w ∧ multipartUploads w' = multipartUploads w ∧
  Forall (λ c, ∀ k, c ≠ RemoveObject k) t ∧ read_or_write_error e.
Proof.
  intros H.
  unfold Go.completeMultipartUpload, handle, Go.completeMultipartUpload_body in H.
  destruct (bool_decide (uploadID = "")); [done|].
  unfold bind at 1, get_upload in H.
  destruct (multipartUploads w !! uploadID) as [info|]; [|done].
  destruct (bool_decide (Z.of_nat (size (uploadedChunks info)) ≠ totalChunks info)); [done|].
  unfold bind at 1 in H.
  destruct (bool_decide (1 < totalChunks info)%Z).
  - unfold bind at 1 in H.
    destruct (forM _ _ w) as [[[e1|chunks] w1] t1] eqn:Hread;
      apply (forM_fetch_frame _ go_fetch_frame (chunkObjectName (objectName info)))
        in Hread as (Ho & Hu & Ht & He).
    { injection H as <- <- <-. split_and!; auto using read_is_no_removal. }
    unfold bind at 1, putObject in H.
    destruct (fails w1).
    + injection H as <- <- <-. simpl. split_and!; [done | done | | done].
      apply Forall_app. split; [by apply read_is_no_removal|].
      repeat constructor. done.
    + rewrite (forM_remove (chunkObjectName (objectName info))) in H. done.
  - unfold bind, copyObject, try_catch, removeObject in H.
    destruct (fails w).
    { injection H as <- <- <-. simpl. split_and!; [done | done | | done].
      repeat constructor. done. }
    destruct (objects w !! _).
    + simpl in H. destruct (fails (World _ _ _)); simpl in H; done.
    + injection H as <- <- <-. simpl. split_and!; [done | done | | done].
      repeat constructor. done.
Qed.

Lemma js_complete_aborts (cfg : Config) (w : world) (uploadId : string) (info : UploadInfo) :
  uploadId ≠ "" →
  multipartUploads w !! uploadId = Some info →
  Z.of_nat (size (uploadedChunks info)) = totalChunks info →
  (0 < totalChunks info)%Z →
  fault_within (merge_calls info) w ∨
  stored_parts (objects w) (objectName info) (totalChunks info) = None →
  merge_aborted (Js.upload_complete cfg uploadId w) w.
Proof.
  intros Hid Hinfo Hsize Hpos Hcause.
  unfold merge_aborted, merge_calls in *.
  destruct (Js.upload_complete cfg uploadId w) as [[resp w'] t] eqn:H.
  unfold answer, after, calls. cbn [fst snd].
  unfold Js.upload_complete, handle, Js.upload_complete_body in H.
  rewrite bool_decide_eq_false_2 in H by done.
  unfold bind at 1, get_upload in H. rewrite Hinfo in H.
  rewrite (bool_decide_eq_false_2 (_ ≠ _)) in H by (by intros []).
  unfold bind at 1 in H.
  rewrite length_fmap, length_seqZ in H.
  destruct (decide (1 < totalChunks info)%Z) as [Hmulti|Hone].
  - rewrite bool_decide_eq_true_2 in Hcause by done.
    rewrite bool_decide_eq_true_2 in H by lia.
    unfold bind at 1 in H.
    destruct (forM _ _ w) as [[[e1|chunks] w1] t1] eqn:Hread.
    + apply (forM_fetch_frame _ js_fetch_frame id) in Hread as (Ho & Hu & Ht & He).
      injection H as <- <- <-. exists e1.
      split_and!; [done | by apply He | done | done | done | by apply read_is_no_removal].
    + pose proof Hread as Hframe.
      apply (forM_fetch_frame _ js_fetch_frame id) in Hframe as (_ & _ & Ht & _).
      apply (forM_fetch_success _ js_fetch_success id) in Hread as (Hcalm & Hparts & ->).
      rewrite length_fmap, length_seqZ in Hcalm.
      destruct Hcause as [Hfault|Hmissing].
      2:{ unfold stored_parts in Hmissing. rewrite mapM_option_fmap in Hparts.
          unfold id in Hparts. congruence. }
      unfold bind at 1, putObject in H.
      rewrite length_fmap, length_seqZ in H.
      rewrite (fault_after_calm _ w _ _ Hfault Hcalm) in H.
      injection H as <- <- <-. eexists. unfold used. cbn [objects multipartUploads].
      split_and!; [done | done | done | done | done |].
      apply Forall_app. split; [by apply read_is_no_removal|].
      repeat constructor. done.
  - assert (totalChunks info = 1%Z) as Hone' by lia.
    rewrite bool_decide_eq_false_2 in Hcause by done.
    rewrite bool_decide_eq_false_2 in H by lia.
    rewrite Hone' in *. change (seqZ 0 1) with [0%Z] in H.
    cbn [fmap list_fmap lookup list_lookup] in H.
    unfold bind at 1, copyObject in H.
    assert (fails w = true ∨ objects w !! chunkObjectName (objectName info) 0 = None)
      as [Hfails|Hmissing].
    { destruct Hcause as [?%fault_within_one|?%stored_parts_single]; auto. }
    + rewrite Hfails in H. injection H as <- <- <-.
      eexists. unfold used. cbn [objects multipartUploads].
      split_and!; [done | done | done | done | done |]. repeat constructor. done.
    + rewrite Hmissing in H. destruct (fails w); injection H as <- <- <-;
        (eexists; unfold used; cbn [objects multipartUploads];
         split_and!; [done | done | done | done | done |]; repeat constructor; done).
Qed.

Lemma go_complete_aborts (cfg : Config) (w : world) (uploadID : string) (info : UploadInfo) :
  uploadID ≠ "" →
  multipartUploads w !! uploadID = Some info →
  Z.of_nat (size (uploadedChunks info)) = totalChunks info →
  (0 < totalChunks info)%Z →
  fault_within (merge_calls info) w ∨
  stored_parts (objects w) (objectName info) (totalChunks info) = None →
  merge_aborted (Go.completeMultipartUpload cfg uploadID w) w.
Proof.
  intros Hid Hinfo Hsize Hpos Hcause.
  unfold merge_aborted, merge_calls in *.
  destruct (Go.completeMultipartUpload cfg uploadID w) as [[resp w'] t] eqn:H.
  unfold answer, after, calls. cbn [fst snd].
  unfold Go.completeMultipartUpload, handle, Go.completeMultipartUpload_body in H.
  rewrite bool_decide_eq_false_2 in H by done.
  unfold bind at 1, get_upload in H. rewrite Hinfo in H.
  rewrite (bool_decide_eq_false_2 (_ ≠ _)) in H by (by intros []).
  unfold bind at 1 in H.
  destruct (decide (1 < totalChunks info)%Z) as [Hmulti|Hone].
  - rewrite bool_decide_eq_true_2 in Hcause by done.
    rewrite bool_decide_eq_true_2 in H by lia.
    unfold bind at 1 in H.
    destruct (forM _ _ w) as [[[e1|chunks] w1] t1] eqn:Hread.
    + apply (forM_fetch_frame _ go_fetch_frame (chunkObjectName (objectName info)))
        in Hread as (Ho & Hu & Ht & He).
      injection H as <- <- <-. exists e1.
      split_and!; [done | by apply He | done | done | done | by apply read_is_no_removal].
    + pose proof Hread as Hframe.
      apply (forM_fetch_frame _ go_fetch_frame (chunkObjectName (objectName info)))
        in Hframe as (_ & _ & Ht & _).
      apply (forM_fetch_success _ go_fetch_success (chunkObjectName (objectName info)))
        in Hread as (Hcalm & Hparts & ->).
      rewrite length_seqZ in Hcalm.
      destruct Hcause as [Hfault|Hmissing].
      2:{ unfold stored_parts in Hmissing. congruence. }
      unfold bind at 1, putObject in H.
      rewrite length_seqZ in H.
      rewrite (fault_after_calm _ w _ _ Hfault Hcalm) in H.
      injection H as <- <- <-. eexists. unfold used. cbn [objects multipartUploads].
      split_and!; [done | done | done | done | done |].
      apply Forall_app. split; [by apply read_is_no_removal|].
      repeat constructor. done.
  - assert (totalChunks info = 1%Z) as Hone' by lia.
    rewrite bool_decide_eq_false_2 in Hcause by done.
    rewrite bool_decide_eq_false_2 in H by lia.
    rewrite Hone' in *.
    unfold bind at 1, copyObject in H.
    assert (fails w = true ∨ objects w !! chunkObjectName (objectName info) 0 = None)
      as [Hfails|Hmissing].
    { destruct Hcause as [?%fault_within_one|?%stored_parts_single]; auto. }
    + rewrite Hfails in H. injection H as <- <- <-.
      eexists. unfold used. cbn [objects multipartUploads].
      split_and!; [done | done | done | done | done |]. repeat constructor. done.
    + rewrite Hmissing in H. destruct (fails w); injection H as <- <- <-;
        (eexists; unfold used; cbn [objects multipartUploads];
         split_and!; [done | done | done | done | done |]; repeat constructor; done).
Qed.

(** C6. Take a session with at least one chunk whose chunks are all counted
    as uploaded.  If a client call of the merge fails up to and including
    the write of the final object (a [getObject] or a read of a part, the
    [putObject], or the [copyObject] of a session of one part), or a part is
    not in the bucket, then complete answers 500 with the error of that read
    or write on both servers, the bucket is as it was (no final object
    written, every part still there), the session is still in the map, and
    no removal was issued.  Conversely, in any world, an answer of complete
    that carries the error of a read or of the write leaves the bucket and
    the sessions as they were. *)
Theorem complete_failure_leaves_state (cfg : Config) (w : world) (uploadId : string)
    (info : UploadInfo) :
  uploadId ≠ "" →
  multipartUploads w !! uploadId = Some info →
  Z.of_nat (size (uploadedChunks info)) = totalChunks info →
  (0 < totalChunks info)%Z →
  fault_within (merge_calls info) w ∨
  stored_parts (objects w) (objectName info) (totalChunks info) = None →
  merge_aborted (Js.upload_complete cfg uploadId w) w ∧
  merge_aborted (Go.completeMultipartUpload cfg uploadId w) w ∧
  (∀ (w0 : world) (id0 : string) (e : exn) (w' : world) (t : list call),
     read_or_write_error e →
     Js.upload_complete cfg id0 w0 = (Failed e, w', t) ∨
     Go.completeMultipartUpload cfg id0 w0 = (Failed e, w', t) →
     objects w' = objects w0 ∧ multipartUploads w' = multipartUploads w0 ∧
     Forall (λ c, ∀ k, c ≠ RemoveObject k) t).
Proof.
  intros Hid Hinfo Hsize Hpos Hcause. split_and!.
  - by apply (js_complete_aborts cfg w uploadId info).
  - by apply (go_complete_aborts cfg w uploadId info).
  - intros w0 id0 e w' t He [H|H].
    + by eapply js_complete_failure.
    + apply go_complete_failure in H as (? & ? & ? & _). done.
Qed.

Lemma complete_failure_leaves_state_witness :
  let w := three_of_three [false; false; true] in
  merge_aborted (Js.upload_complete sample_cfg "u1" w) w ∧
  merge_aborted (Go.completeMultipartUpload sample_cfg "u1" w) w ∧
  Js.upload_complete sample_cfg "u1" w
  = (Failed (MinioError (GetObject "1700_a.bin.part1")), three_of_three [],
     [GetObject "1700_a.bin.part0"; ReadStream "1700_a.bin.part0";
      GetObject "1700_a.bin.part1"]) ∧
  answer (Js.upload_complete sample_cfg "u1" (three_of_three []))
  = CompleteOk "http://localhost:9000/uploads/1700_a.bin" "a.bin" "1700_a.bin".
Proof.
  intros w.
  destruct (complete_failure_leaves_state sample_cfg w "u1"
              (sample_session {[0%Z; 1%Z; 2%Z]}))
    as (Hjs & Hgo & _); [done | reflexivity | reflexivity | reflexivity | |].
  - left. unfold fault_within, w. simpl.
    apply elem_of_cons. right. apply elem_of_cons. right. apply elem_of_cons. by left.
  - split_and!; [exact Hjs | exact Hgo | reflexivity | reflexivity].
Defined.

(** A part that is not in the bucket aborts the merge as well. *)
Example complete_aborts_on_missing_part :
  let w := after (Js.upload_chunk stray_chunk two_of_three) in
  stored_parts (objects w) "1700_a.bin" 3 = None ∧
  Js.upload_complete sample_cfg "u1" w
  = (Failed (MinioError (GetObject "1700_a.bin.part1")), w,
     [GetObject "1700_a.bin.part0"; ReadStream "1700_a.bin.part0";
      GetObject "1700_a.bin.part1"]).
Proof. split; reflexivity. Qed.

(** The failure of the final write, after every part was read. *)
Example go_complete_write_failure :
  Go.completeMultipartUpload sample_cfg "u1"
    (three_of_three [false; false; false; false; false; false; true])
  = (Failed (MinioError (PutObject "1700_a.bin" (AB ++ CD ++ EF))), three_of_three [],
     [GetObject "1700_a.bin.part0"; ReadStream "1700_a.bin.part0";
      GetObject "1700_a.bin.part1"; ReadStream "1700_a.bin.part1";
      GetObject "1700_a.bin.part2"; ReadStream "1700_a.bin.part2";
      PutObject "1700_a.bin" (AB ++ CD ++ EF)]).
Proof. reflexivity. Qed.

(** In server.js the one-chunk path awaits the removal of the part outside
    any try: when it fails the answer is 500 although the final object is
    written, and the session stays. *)
Example js_single_chunk_removal_failure :
  let w := World {["1_x.part0" := AB]} [false; true]
             {["u" := mkUploadInfo "x" "1_x" 2 4 1 {[0%Z]} 1]} in
  Js.upload_complete sample_cfg "u" w
  = (Failed (MinioError (RemoveObject "1_x.part0")),
     World (<["1_x" := AB]> {["1_x.part0" := AB]}) []
       {["u" := mkUploadInfo "x" "1_x" 2 4 1 {[0%Z]} 1]},
     [CopyObject "1_x" "1_x.part0"; RemoveObject "1_x.part0"]).
Proof. reflexivity. Qed.

(** *** Replaying a history of chunk uploads *)

Lemma add_chunk_fields (i : Z) (info : UploadInfo) :
  objectName (add_chunk i info) = objectName info ∧
  fileName (add_chunk i info) = fileName info ∧
  totalChunks (add_chunk i info) = totalChunks info ∧
  uploadedChunks (add_chunk i info) = {[i]} ∪ uploadedChunks info.
Proof. done. Qed.

Lemma add_chunk_idemp (i : Z) (info : UploadInfo) :
  add_chunk i (add_chunk i info) = add_chunk i info.
Proof. unfold add_chunk. simpl. f_equal. by rewrite (assoc_L (∪)), (idemp_L (∪)). Qed.

Lemma add_chunks_fields (h : history) (info : UploadInfo) :
  objectName (add_chunks h info) = objectName info ∧
  fileName (add_chunks h info) = fileName info ∧
  totalChunks (add_chunks h info) = totalChunks info ∧
  uploadedChunks (add_chunks h info) = list_to_set h.*1 ∪ uploadedChunks info.
Proof.
  revert info. induction h as [|[j d] h IH]; intros info.
  - split_and!; try done. simpl. by rewrite (left_id_L ∅ (∪)).
  - unfold add_chunks. simpl. destruct (IH (add_chunk j info)) as (Ho & Hf & Ht & Hu).
    unfold add_chunks in Ho, Hf, Ht, Hu. rewrite Ho, Hf, Ht, Hu.
    split_and!; try done. simpl.
    by rewrite (assoc_L (∪)), (comm_L (∪) (list_to_set h.*1) {[j]}).
Qed.

Lemma replay_cons upload (uploadId : string) (p : Z * bytes) (h : history) (w : world) :
  replay upload uploadId (p :: h) w
  = replay upload uploadId h (after (upload (mkChunk uploadId (Some p.1) (Some p.2)) w)).
Proof. reflexivity. Qed.

Section replay.
Context (upload : ChunkRequest → world → response * world * list call).

Hypothesis upload_run : ∀ w uploadId info i data,
  uploadId ≠ "" →
  multipartUploads w !! uploadId = Some info →
  upload (mkChunk uploadId (Some i) (Some data)) w
  = if fails w
    then (Failed (MinioError (PutObject (chunkObjectName (objectName info) i) data)),
          used w, [PutObject (chunkObjectName (objectName info) i) data])
    else (ChunkOk i (size ({[i]} ∪ uploadedChunks info)) (totalChunks info),
          World (<[chunkObjectName (objectName info) i := data]> (objects w))
            (tail (faults w))
            (<[uploadId := add_chunk i info]> (multipartUploads w)),
          [PutObject (chunkObjectName (objectName info) i) data]).

Lemma replay_calm (uploadId : string) (h : history) (w : world) (info : UploadInfo) :
  uploadId ≠ "" →
  faults w = [] →
  multipartUploads w !! uploadId = Some info →
  faults (replay upload uploadId h w) = [] ∧
  multipartUploads (replay upload uploadId h w) !! uploadId = Some (add_chunks h info) ∧
  ∀ i, objects (replay upload uploadId h w) !! chunkObjectName (objectName info) i
       = match last_upload h i with
         | Some d => Some d
         | None => objects w !! chunkObjectName (objectName info) i
         end.
Proof.
  intros Hid. revert w info. induction h as [|[j d] h IH]; intros w info Hw Hinfo.
  - done.
  - rewrite replay_cons.
    cbn [fst snd]. rewrite (upload_run w uploadId info j d Hid Hinfo).
    rewrite (fails_calm w Hw). unfold after. cbn [fst snd].
    set (w1 := World _ _ _).
    destruct (IH w1 (add_chunk j info)) as (Hf & Hu & Ho).
    { unfold w1. simpl. by rewrite Hw. }
    { unfold w1. simpl. apply lookup_insert_eq. }
    split_and!; [done | done |].
    intros i. simpl in Ho. rewrite Ho. cbn [last_upload].
    destruct (last_upload h i); [done|].
    unfold w1. simpl. case_bool_decide as Hji.
    + subst. apply lookup_insert_eq.
    + apply lookup_insert_ne. intros Heq. by apply chunkObjectName_inj in Heq.
Qed.

(** Sending the same index again and again is sending it once, with the
    last bytes. *)
Lemma replay_same_index (uploadId : string) (i : Z) (ds : list bytes) (d : bytes)
    (w : world) (info : UploadInfo) :
  uploadId ≠ "" →
  faults w = [] →
  multipartUploads w !! uploadId = Some info →
  replay upload uploadId (((λ d', (i, d')) <$> ds) ++ [(i, d)]) w
  = World (<[chunkObjectName (objectName info) i := d]> (objects w)) []
      (<[uploadId := add_chunk i info]> (multipartUploads w)).
Proof.
  intros Hid. revert w info. induction ds as [|d0 ds IH]; intros w info Hw Hinfo.
  - unfold replay. simpl. rewrite (upload_run w uploadId info i d Hid Hinfo).
    rewrite (fails_calm w Hw). unfold after. simpl. by rewrite Hw.
  - rewrite fmap_cons, <-app_comm_cons, replay_cons.
    cbn [fst snd]. rewrite (upload_run w uploadId info i d0 Hid Hinfo).
    rewrite (fails_calm w Hw). unfold after. cbn [fst snd].
    rewrite (IH _ (add_chunk i info)).
    + simpl. rewrite !insert_insert_eq, add_chunk_idemp. done.
    + simpl. by rewrite Hw.
    + simpl. apply lookup_insert_eq.
Qed.
End replay.

(** C9. Sending the same chunk index any number of times (each time with any
    bytes) and then once more leaves the same world as sending it that last
    time only: the part holds the last bytes and the index is in
    [uploadedChunks] once.  Complete, run on either world, therefore gives
    the same answer, the same bucket and the same session map. *)
Theorem reupload_same_index_idempotent (cfg : Config) (w : world) (uploadId : string)
    (info : UploadInfo) (i : Z) (ds : list bytes) (d : bytes) :
  uploadId ≠ "" →
  faults w = [] →
  multipartUploads w !! uploadId = Some info →
  let again := ((λ d', (i, d')) <$> ds) ++ [(i, d)] in
  let sent := World (<[chunkObjectName (objectName info) i := d]> (objects w)) []
                (<[uploadId := add_chunk i info]> (multipartUploads w)) in
  replay Js.upload_chunk uploadId [(i, d)] w = sent ∧
  replay Js.upload_chunk uploadId again w = sent ∧
  Js.upload_complete cfg uploadId (replay Js.upload_chunk uploadId again w)
  = Js.upload_complete cfg uploadId (replay Js.upload_chunk uploadId [(i, d)] w) ∧
  replay Go.uploadChunk uploadId [(i, d)] w = sent ∧
  replay Go.uploadChunk uploadId again w = sent ∧
  Go.completeMultipartUpload cfg uploadId (replay Go.uploadChunk uploadId again w)
  = Go.completeMultipartUpload cfg uploadId (replay Go.uploadChunk uploadId [(i, d)] w).
Proof.
  intros Hid Hw Hinfo again sent.
  pose proof (replay_same_index Js.upload_chunk js_upload_chunk_run
                uploadId i [] d w info Hid Hw Hinfo) as Hjs1.
  pose proof (replay_same_index Js.upload_chunk js_upload_chunk_run
                uploadId i ds d w info Hid Hw Hinfo) as Hjs.
  pose proof (replay_same_index Go.uploadChunk go_uploadChunk_run
                uploadId i [] d w info Hid Hw Hinfo) as Hgo1.
  pose proof (replay_same_index Go.uploadChunk go_uploadChunk_run
                uploadId i ds d w info Hid Hw Hinfo) as Hgo.
  change (replay Js.upload_chunk uploadId [(i, d)] w = sent) in Hjs1.
  change (replay Go.uploadChunk uploadId [(i, d)] w = sent) in Hgo1.
  change (replay Js.upload_chunk uploadId again w = sent) in Hjs.
  change (replay Go.uploadChunk uploadId again w = sent) in Hgo.
  rewrite Hjs1, Hjs, Hgo1, Hgo. done.
Qed.

Lemma reupload_same_index_idempotent_witness :
  replay Js.upload_chunk "u1" [(1%Z, AB); (1%Z, EF); (1%Z, CD)] two_of_three
  = replay Js.upload_chunk "u1" [(1%Z, CD)] two_of_three ∧
  replay Go.uploadChunk "u1" [(1%Z, AB); (1%Z, EF); (1%Z, CD)] two_of_three
  = replay Go.uploadChunk "u1" [(1%Z, CD)] two_of_three ∧
  replay Js.upload_chunk "u1" [(1%Z, CD)] two_of_three = three_of_three [] ∧
  objects (after (Js.upload_complete sample_cfg "u1"
                    (replay Js.upload_chunk "u1" [(1%Z, AB); (1%Z, EF); (1%Z, CD)]
                       two_of_three))) !! "1700_a.bin"
  = Some (AB ++ CD ++ EF).
Proof.
  destruct (reupload_same_index_idempotent sample_cfg two_of_three "u1"
              (sample_session {[0%Z; 2%Z]}) 1 [AB; EF] CD ltac:(done) eq_refl eq_refl)
    as (Hjs1 & Hjs & _ & Hgo1 & Hgo & _).
  split_and!.
  - exact (eq_trans Hjs (eq_sym Hjs1)).
  - exact (eq_trans Hgo (eq_sym Hgo1)).
  - reflexivity.
  - reflexivity.
Defined.

(** *** Completion when every part is stored *)

Lemma stored_parts_one (objs : gmap string bytes) (o : string) (parts : list bytes) :
  stored_parts objs o 1 = Some parts →
  ∃ d, objs !! chunkObjectName o 0 = Some d ∧ parts = [d].
Proof.
  unfold stored_parts. change (seqZ 0 1) with [0%Z]. cbn [mapM].
  destruct (objs !! chunkObjectName o 0) as [d|]; [|done].
  intros [= <-]. by exists d.
Qed.

(** The bucket a successful completion of the session [info] leaves. *)
Lemma completed_lookup (objs : gmap string bytes) (ups : gmap string UploadInfo)
    (info : UploadInfo) (final : bytes) :
  let w' := drop_parts (part_keys info)
              (World (<[objectName info := final]> objs) [] ups) in
  objects w' !! objectName info = Some final ∧
  (∀ i, (0 ≤ i < totalChunks info)%Z →
        objects w' !! chunkObjectName (objectName info) i = None) ∧
  (∀ k, k ≠ objectName info → k ∉ part_keys info → objects w' !! k = objs !! k).
Proof.
  intros w'.
  destruct (drop_parts_calm (part_keys info)
              (World (<[objectName info := final]> objs) [] ups) eq_refl) as [_ Hobjs].
  fold w' in Hobjs. simpl in Hobjs.
  split_and!.
  - rewrite Hobjs, decide_False.
    + apply lookup_insert_eq.
    + intros (i & _ & Heq)%elem_of_part_keys. symmetry in Heq.
      by apply objectName_not_chunk in Heq.
  - intros i Hi. rewrite Hobjs, decide_True; [done|].
    apply elem_of_part_keys. by exists i.
  - intros k Hk Hout. rewrite Hobjs, decide_False by done.
    by apply lookup_insert_ne.
Qed.

Lemma js_complete_calm (cfg : Config) (w : world) (uploadId : string) (info : UploadInfo)
    (parts : list bytes) :
  uploadId ≠ "" →
  faults w = [] →
  multipartUploads w !! uploadId = Some info →
  Z.of_nat (size (uploadedChunks info)) = totalChunks info →
  (0 < totalChunks info)%Z →
  stored_parts (objects w) (objectName info) (totalChunks info) = Some parts →
  ∃ t, Js.upload_complete cfg uploadId w
       = (CompleteOk (download_url cfg (objectName info)) (fileName info) (objectName info),
          World (objects (drop_parts (part_keys info)
                   (World (<[objectName info := concat parts]> (objects w)) []
                      (multipartUploads w))))
            [] (delete uploadId (multipartUploads w)),
          t).
Proof.
  intros Hid Hw Hinfo Hsize Hpos Hparts.
  unfold Js.upload_complete, handle, Js.upload_complete_body.
  rewrite bool_decide_eq_false_2 by done.
  unfold bind at 1, get_upload. rewrite Hinfo.
  rewrite (bool_decide_eq_false_2 (_ ≠ _)) by (by intros []).
  unfold bind at 1.
  destruct (decide (1 < totalChunks info)%Z) as [Hmulti|Hone].
  - rewrite bool_decide_eq_true_2 by (rewrite length_fmap, length_seqZ; lia).
    unfold bind at 1.
    match goal with
    | |- context [forM ?l ?body w] =>
        assert (forM l body w
                = (inr parts, w, l ≫= (λ x, [GetObject x; ReadStream x]))) as ->
    end.
    { apply (forM_fetch_calm _ js_fetch_calm id); [done|].
      unfold stored_parts in Hparts. by rewrite mapM_option_fmap. }
    unfold bind at 1, putObject. rewrite (fails_calm w Hw).
    rewrite forM_remove. rewrite Hw. simpl.
    unfold bind, delete_upload, ret. simpl.
    rewrite drop_parts_uploads. simpl.
    destruct (drop_parts_calm (part_keys info)
                (World (<[objectName info := concat parts]> (objects w)) []
                   (multipartUploads w)) eq_refl) as [Hf _].
    unfold part_keys in *. rewrite list_fmap_id. rewrite Hf. eauto.
  - assert (totalChunks info = 1%Z) as Hone' by lia.
    unfold part_keys. rewrite Hone' in *.
    apply stored_parts_one in Hparts as (d & Hd & ->).
    change (seqZ 0 1) with [0%Z]. simpl.
    unfold bind, copyObject, removeObject, delete_upload, ret.
    rewrite (fails_calm w Hw), Hd. rewrite Hw. simpl.
    rewrite app_nil_r. eauto.
Qed.

Lemma go_complete_calm (cfg : Config) (w : world) (uploadID : string) (info : UploadInfo)
    (parts : list bytes) :
  uploadID ≠ "" →
  faults w = [] →
  multipartUploads w !! uploadID = Some info →
  Z.of_nat (size (uploadedChunks info)) = totalChunks info →
  (0 < totalChunks info)%Z →
  stored_parts (objects w) (objectName info) (totalChunks info) = Some parts →
  ∃ t, Go.completeMultipartUpload cfg uploadID w
       = (CompleteOk (download_url cfg (objectName info)) (fileName info) (objectName info),
          World (objects (drop_parts (part_keys info)
                   (World (<[objectName info := concat parts]> (objects w)) []
                      (multipartUploads w))))
            [] (delete uploadID (multipartUploads w)),
          t).
Proof.
  intros Hid Hw Hinfo Hsize Hpos Hparts.
  unfold Go.completeMultipartUpload, handle, Go.completeMultipartUpload_body.
  rewrite bool_decide_eq_false_2 by done.
  unfold bind at 1, get_upload. rewrite Hinfo.
  rewrite (bool_decide_eq_false_2 (_ ≠ _)) by (by intros []).
  unfold bind at 1.
  destruct (decide (1 < totalChunks info)%Z) as [Hmulti|Hone].
  - rewrite bool_decide_eq_true_2 by done.
    unfold bind at 1.
    match goal with
    | |- context [forM ?l ?body w] =>
        assert (forM l body w
                = (inr parts, w,
                   l ≫= (λ i, [GetObject (chunkObjectName (objectName info) i);
                               ReadStream (chunkObjectName (objectName info) i)]))) as ->
    end.
    { by apply (forM_fetch_calm _ go_fetch_calm (chunkObjectName (objectName info))). }
    unfold bind at 1, putObject. rewrite (fails_calm w Hw).
    rewrite (forM_remove (chunkObjectName (objectName info))). rewrite Hw. simpl.
    unfold bind, delete_upload, ret. simpl.
    rewrite drop_parts_uploads. simpl.
    destruct (drop_parts_calm (part_keys info)
                (World (<[objectName info := concat parts]> (objects w)) []
                   (multipartUploads w)) eq_refl) as [Hf _].
    unfold part_keys in *. rewrite Hf. eauto.
  - assert (totalChunks info = 1%Z) as Hone' by lia.
    rewrite bool_decide_eq_false_2 by done.
    unfold part_keys. rewrite Hone' in *.
    apply stored_parts_one in Hparts as (d & Hd & ->).
    change (seqZ 0 1) with [0%Z]. simpl.
    unfold bind, copyObject, try_catch, removeObject, delete_upload, ret.
    rewrite (fails_calm w Hw), Hd. rewrite Hw. simpl.
    rewrite app_nil_r. eauto.
Qed.


Lemma last_upload_is_Some (h : history) (i : Z) :
  i ∈ h.*1 → is_Some (last_upload h i).
Proof.
  induction h as [|[j d] h IH]; cbn [fmap list_fmap fst last_upload].
  - by intros ?%elem_of_nil.
  - intros [<-|Hin]%elem_of_cons.
    + destruct (last_upload h i); [by eexists|].
      rewrite bool_decide_eq_true_2 by done. by eexists.
    + destruct (IH Hin) as [d' ->]. by eexists.
Qed.

Section merge.
Context (upload : ChunkRequest → world → response * world * list call).
Context (complete : Config → string → world → response * world * list call).

Hypothesis upload_run : ∀ w uploadId info i data,
  uploadId ≠ "" →
  multipartUploads w !! uploadId = Some info →
  upload (mkChunk uploadId (Some i) (Some data)) w
  = if fails w
    then (Failed (MinioError (PutObject (chunkObjectName (objectName info) i) data)),
          used w, [PutObject (chunkObjectName (objectName info) i) data])
    else (ChunkOk i (size ({[i]} ∪ uploadedChunks info)) (totalChunks info),
          World (<[chunkObjectName (objectName info) i := data]> (objects w))
            (tail (faults w))
            (<[uploadId := add_chunk i info]> (multipartUploads w)),
          [PutObject (chunkObjectName (objectName info) i) data]).

Hypothesis complete_calm : ∀ cfg w uploadId info parts,
  uploadId ≠ "" →
  faults w = [] →
  multipartUploads w !! uploadId = Some info →
  Z.of_nat (size (uploadedChunks info)) = totalChunks info →
  (0 < totalChunks info)%Z →
  stored_parts (objects w) (objectName info) (totalChunks info) = Some parts →
  ∃ t, complete cfg uploadId w
       = (CompleteOk (download_url cfg (objectName info)) (fileName info) (objectName info),
          World (objects (drop_parts (part_keys info)
                   (World (<[objectName info := concat parts]> (objects w)) []
                      (multipartUploads w))))
            [] (delete uploadId (multipartUploads w)),
          t).

Lemma replay_then_complete (cfg : Config) (w : world) (uploadId : string)
    (info : UploadInfo) (h : history) :
  uploadId ≠ "" →
  faults w = [] →
  multipartUploads w !! uploadId = Some info →
  uploadedChunks info = ∅ →
  (0 < totalChunks info)%Z →
  (∀ i, i ∈ h.*1 ↔ (0 ≤ i < totalChunks info)%Z) →
  merges_in_index_order upload (complete cfg) cfg uploadId info h w.
Proof.
  intros Hid Hw Hinfo Hfresh Hpos Hcover.
  destruct (replay_calm upload upload_run uploadId h w info Hid Hw Hinfo)
    as (Hf & Hu & Ho).
  destruct (add_chunks_fields h info) as (Hname & Hfile & Htotal & Hset).
  assert (stored_parts (objects (replay upload uploadId h w)) (objectName info)
            (totalChunks info) = Some (latest_chunks h (totalChunks info))) as Hparts.
  { apply mapM_Some_2, Forall2_fmap_r, Forall_Forall2_diag, Forall_forall.
    intros i Hi%elem_of_seqZ. rewrite Ho.
    destruct (last_upload_is_Some h i) as [d Hd]; [apply Hcover; lia |].
    simpl. by rewrite Hd. }
  assert (Z.of_nat (size (uploadedChunks (add_chunks h info)))
          = totalChunks (add_chunks h info)) as Hsize.
  { rewrite Hset, Htotal, Hfresh.
    assert (list_to_set h.*1 ∪ ∅ =@{gset Z} list_to_set (seqZ 0 (totalChunks info)))
      as ->.
    { apply set_eq. intros i.
      rewrite elem_of_union, !elem_of_list_to_set, elem_of_seqZ, Hcover.
      rewrite elem_of_empty. intuition lia. }
    rewrite size_list_to_set by apply NoDup_seqZ. rewrite length_seqZ. lia. }
  destruct (complete_calm cfg _ uploadId (add_chunks h info)
              (latest_chunks h (totalChunks info)) Hid Hf Hu Hsize)
    as [t Hrun].
  { by rewrite Htotal. }
  { by rewrite Hname, Htotal. }
  rewrite Hname, Hfile in Hrun.
  unfold merges_in_index_order. cbv zeta. rewrite Hrun.
  unfold answer, after. cbn [fst snd objects multipartUploads].
  destruct (completed_lookup (objects (replay upload uploadId h w))
              (multipartUploads (replay upload uploadId h w))
              (add_chunks h info) (concat (latest_chunks h (totalChunks info))))
    as (Hfinal & Hgone & _).
  rewrite Hname in Hfinal, Hgone. rewrite Htotal in Hgone.
  split_and!; [done | done | done | done | done |].
  apply lookup_delete_eq.
Qed.
End merge.

(** C1. From a session with nothing uploaded yet, let the chunks be uploaded
    in any order and with any number of repeats, every index of
    [0, totalChunks) at least once and no other index.  Then the bucket holds,
    for each index, the bytes of its latest upload, and complete answers 200
    and leaves as final object under [objectName] the concatenation of those
    parts in ascending index order 0 .. totalChunks-1; the parts and the
    session are gone. *)
Theorem complete_concatenates_in_index_order (cfg : Config) (w : world)
    (uploadId : string) (info : UploadInfo) (h : history) :
  uploadId ≠ "" →
  faults w = [] →
  multipartUploads w !! uploadId = Some info →
  uploadedChunks info = ∅ →
  (0 < totalChunks info)%Z →
  (∀ i, i ∈ h.*1 ↔ (0 ≤ i < totalChunks info)%Z) →
  merges_in_index_order Js.upload_chunk (Js.upload_complete cfg) cfg uploadId info h w ∧
  merges_in_index_order Go.uploadChunk (Go.completeMultipartUpload cfg) cfg uploadId info h w.
Proof.
  intros Hid Hw Hinfo Hfresh Hpos Hcover. split.
  - by apply (replay_then_complete Js.upload_chunk Js.upload_complete
                js_upload_chunk_run js_complete_calm).
  - by apply (replay_then_complete Go.uploadChunk Go.completeMultipartUpload
                go_uploadChunk_run go_complete_calm).
Qed.

Lemma complete_concatenates_in_index_order_witness :
  after (Js.upload_init "u1" 1700 1700 (mkInit "a.bin" 10 4) empty_world) = none_of_three [] ∧
  latest_chunks sample_history 3 = [AB; CD; EF] ∧
  merges_in_index_order Js.upload_chunk (Js.upload_complete sample_cfg) sample_cfg "u1"
    (sample_session ∅) sample_history (none_of_three []) ∧
  merges_in_index_order Go.uploadChunk (Go.completeMultipartUpload sample_cfg) sample_cfg "u1"
    (sample_session ∅) sample_history (none_of_three []).
Proof.
  split; [reflexivity|]. split; [reflexivity|].
  apply (complete_concatenates_in_index_order sample_cfg (none_of_three []) "u1"
           (sample_session ∅) sample_history); [done | reflexivity | reflexivity
                                               | reflexivity | reflexivity |].
  intros i. unfold sample_history. simpl.
  rewrite !elem_of_cons, elem_of_nil. lia.
Defined.

(** The merge of the sample history, evaluated. *)
Example sample_merge :
  objects (after (Js.upload_complete sample_cfg "u1"
                    (replay Js.upload_chunk "u1" sample_history (none_of_three []))))
  = {["1700_a.bin" := AB ++ CD ++ EF]} ∧
  objects (after (Go.completeMultipartUpload sample_cfg "u1"
                    (replay Go.uploadChunk "u1" sample_history (none_of_three []))))
  = {["1700_a.bin" := AB ++ CD ++ EF]}.
Proof. split; reflexivity. Qed.

(** A session of one chunk takes the copy path, with the same outcome. *)
Example single_chunk_merge :
  let w := World {["1_x.part0" := AB]} [] {["u" := mkUploadInfo "x" "1_x" 2 4 1 {[0%Z]} 1]} in
  Js.upload_complete sample_cfg "u" w
  = (CompleteOk "http://localhost:9000/uploads/1_x" "x" "1_x",
     World {["1_x" := AB]} [] ∅, [CopyObject "1_x" "1_x.part0"; RemoveObject "1_x.part0"]) ∧
  Go.completeMultipartUpload sample_cfg "u" w
  = (CompleteOk "http://localhost:9000/uploads/1_x" "x" "1_x",
     World {["1_x" := AB]} [] ∅, [CopyObject "1_x" "1_x.part0"; RemoveObject "1_x.part0"]).
Proof. split; reflexivity. Qed.

(** With a stray index in [uploadedChunks] the count never equals
    [totalChunks] again, and complete keeps answering 400. *)
Example stray_index_blocks_completion :
  let w := replay Js.upload_chunk "u1" [(5%Z, CD); (1%Z, CD)] two_of_three in
  answer (Js.upload_complete sample_cfg "u1" w) = Incomplete 4 3 ∧
  answer (Go.completeMultipartUpload sample_cfg "u1" w) = Incomplete 4 3.
Proof. split; reflexivity. Qed.

(** A stray index can also make the count reach [totalChunks] while a chunk
    is missing: complete then passes the count check and fails on the read. *)
Example stray_index_fakes_completeness :
  let w := after (Js.upload_chunk stray_chunk two_of_three) in
  answer (Js.upload_complete sample_cfg "u1" w)
  = Failed (MinioError (GetObject "1700_a.bin.part1")) ∧
  answer (Go.completeMultipartUpload sample_cfg "u1" w)
  = Failed (MinioError (ReadStream "1700_a.bin.part1")).
Proof. split; reflexivity. Qed.

(** A session of no chunk (a negative file size gives one) cannot be
    completed: server.js reads the name of a part that is not there,
    main.go copies a part 0 that was never stored. *)
Example no_chunk_session_cannot_complete :
  let wj := after (Js.upload_init "u0" 1 1 no_chunk_request empty_world) in
  let wg := after (Go.initMultipartUpload "u0" 1 1 no_chunk_request empty_world) in
  totalChunks <$> multipartUploads wj !! "u0" = Some 0%Z ∧
  totalChunks <$> multipartUploads wg !! "u0" = Some 0%Z ∧
  Js.upload_complete sample_cfg "u0" wj = (Failed TypeError, wj, []) ∧
  Go.completeMultipartUpload sample_cfg "u0" wg
  = (Failed (MinioError (CopyObject "1_x" "1_x.part0")), wg, [CopyObject "1_x" "1_x.part0"]).
Proof. split_and!; reflexivity. Qed.

(** ** The number of chunks *)

Lemma ceil_div_spec (a b : Z) :
  (0 < b)%Z → (b * (Js.ceil_div a b - 1) < a ≤ b * Js.ceil_div a b)%Z.
Proof.
  intros Hb. unfold Js.ceil_div.
  pose proof (Z.div_mod (- a) b ltac:(lia)) as Hdm.
  pose proof (Z.mod_pos_bound (- a) b Hb) as Hmod.
  nia.
Qed.

Lemma go_total_no_overflow (a b : Z) :
  (0 < a)%Z → (0 < b)%Z → (a + b - 1 < 2 ^ 63)%Z →
  Go.wrap64 (Go.wrap64 (a + b - 1) `quot` b) = Js.ceil_div a b.
Proof.
  intros Ha Hb Hfit.
  assert (∀ x, (- 2 ^ 63 ≤ x < 2 ^ 63)%Z → Go.wrap64 x = x) as Hwrap.
  { intros x Hx. unfold Go.wrap64. rewrite Z.mod_small; lia. }
  rewrite (Hwrap (a + b - 1)%Z) by lia.
  rewrite Z.quot_div_nonneg by lia.
  assert ((a + b - 1) `div` b = Js.ceil_div a b)%Z as Heq.
  { pose proof (ceil_div_spec a b Hb) as Hc.
    symmetry. apply Z.div_unique with (r := (a + b - 1 - b * Js.ceil_div a b)%Z); lia. }
  rewrite Heq. apply Hwrap.
  pose proof (ceil_div_spec a b Hb). nia.
Qed.

(** X1. For a named file and positive sizes below 2^53 (the integers a
    JavaScript number holds exactly), both servers answer init with the same
    [totalChunks], store it in the session, and it is the ceiling of
    [fileSize / chunkSize], at least 1. *)
Theorem totalChunks_is_ceiling (uuid : string) (now created : Z) (req : InitRequest)
    (w : world) :
  req_fileName req ≠ "" →
  (0 < req_fileSize req < 2 ^ 53)%Z →
  (0 < req_chunkSize req < 2 ^ 53)%Z →
  ∃ total,
    answer (Js.upload_init uuid now created req w)
    = InitOk uuid (make_objectName now (req_fileName req)) total ∧
    answer (Go.initMultipartUpload uuid now created req w)
    = InitOk uuid (make_objectName now (req_fileName req)) total ∧
    totalChunks <$> multipartUploads (after (Js.upload_init uuid now created req w)) !! uuid
    = Some total ∧
    totalChunks <$> multipartUploads (after (Go.initMultipartUpload uuid now created req w))
                      !! uuid
    = Some total ∧
    (1 ≤ total)%Z ∧
    (req_chunkSize req * (total - 1) < req_fileSize req ≤ req_chunkSize req * total)%Z.
Proof.
  intros Hname Hsize Hchunk.
  exists (Js.ceil_div (req_fileSize req) (req_chunkSize req)).
  pose proof (ceil_div_spec (req_fileSize req) (req_chunkSize req) ltac:(lia)) as Hc.
  rewrite !upload_init_integers_step by lia.
  unfold Go.initMultipartUpload, handle,
    Js.upload_init_integers, Go.initMultipartUpload_body.
  rewrite !bool_decide_eq_false_2 by (done || lia).
  unfold bind, set_upload, ret, answer, after. simpl.
  rewrite !lookup_insert_eq. simpl.
  rewrite go_total_no_overflow by lia.
  split_and!; [done | done | done | done | nia | lia | lia].
Qed.

(** X2. In main.go the sum [fileSize + chunkSize - 1] wraps around when it
    passes the largest [int64]: the session is then created with a
    [totalChunks] that is zero or negative. *)
Theorem go_totalChunks_overflow (uuid : string) (now created : Z) (req : InitRequest)
    (w : world) :
  req_fileName req ≠ "" →
  (0 < req_fileSize req < 2 ^ 63)%Z →
  (0 < req_chunkSize req < 2 ^ 63)%Z →
  (2 ^ 63 ≤ req_fileSize req + req_chunkSize req - 1)%Z →
  ∃ total,
    answer (Go.initMultipartUpload uuid now created req w)
    = InitOk uuid (make_objectName now (req_fileName req)) total ∧
    (total ≤ 0)%Z.
Proof.
  intros Hname Hsize Hchunk Hover.
  unfold Go.initMultipartUpload, handle, Go.initMultipartUpload_body.
  rewrite !bool_decide_eq_false_2 by (done || lia).
  unfold bind, set_upload, ret, answer. simpl.
  eexists. split; [done|].
  set (a := req_fileSize req) in *. set (b := req_chunkSize req) in *.
  assert (Go.wrap64 (a + b - 1) = a + b - 1 - 2 ^ 64)%Z as ->.
  { unfold Go.wrap64.
    replace (a + b - 1 + 2 ^ 63)%Z with ((a + b - 1 - 2 ^ 63) + 1 * 2 ^ 64)%Z by lia.
    rewrite Z.mod_add by lia. rewrite Z.mod_small; lia. }
  assert (- 2 ^ 63 ≤ (a + b - 1 - 2 ^ 64) `quot` b ≤ 0)%Z as Hq.
  { pose proof (Z.quot_opp_l (2 ^ 64 - (a + b - 1)) b ltac:(lia)) as Hopp.
    replace (- (2 ^ 64 - (a + b - 1)))%Z with (a + b - 1 - 2 ^ 64)%Z in Hopp by lia.
    rewrite Hopp.
    pose proof (Z.quot_pos (2 ^ 64 - (a + b - 1)) b ltac:(lia) ltac:(lia)).
    pose proof (Z.quot_le_upper_bound (2 ^ 64 - (a + b - 1)) b (2 ^ 63) ltac:(lia)
                  ltac:(nia)).
    lia. }
  unfold Go.wrap64 at 1. rewrite Z.mod_small by lia. lia.
Qed.

Lemma totalChunks_is_ceiling_witness :
  ∃ total,
    answer (Js.upload_init "u1" 1700 1700 (mkInit "a.bin" 10 4) empty_world)
    = InitOk "u1" (make_objectName 1700 "a.bin") total ∧
    answer (Go.initMultipartUpload "u1" 1700 1700 (mkInit "a.bin" 10 4) empty_world)
    = InitOk "u1" (make_objectName 1700 "a.bin") total ∧
    (4 * (total - 1) < 10 ≤ 4 * total)%Z.
Proof.
  destruct (totalChunks_is_ceiling "u1" 1700 1700 (mkInit "a.bin" 10 4) empty_world
              ltac:(done) ltac:(simpl; lia) ltac:(simpl; lia))
    as (total & Hjs & Hgo & _ & _ & _ & Hceil).
  exists total. split; [exact Hjs|]. split; [exact Hgo | exact Hceil].
Defined.

Lemma go_totalChunks_overflow_witness :
  ∃ total,
    answer (Go.initMultipartUpload "u1" 1700 1700
              (mkInit "big.bin" (2 ^ 63 - 1) 2) empty_world)
    = InitOk "u1" "1700_big.bin" total ∧ (total ≤ 0)%Z.
Proof.
  exact (go_totalChunks_overflow "u1" 1700 1700 (mkInit "big.bin" (2 ^ 63 - 1) 2)
           empty_world ltac:(done) ltac:(simpl; lia) ltac:(simpl; lia) ltac:(simpl; lia)).
Defined.

(** ** Requests that name no session or lack a field *)

Lemma unknown_cancel_404 (w : world) (uploadId : string) :
  multipartUploads w !! uploadId = None →
  Js.upload_cancel uploadId w = (NoSuchUpload, w, []) ∧
  Go.cancelUpload uploadId w = (NoSuchUpload, w, []).
Proof.
  intros Hnone.
  unfold Js.upload_cancel, Go.cancelUpload, handle, Js.upload_cancel_body,
    Go.cancelUpload_body, bind, get_upload.
  by rewrite Hnone.
Qed.

Lemma unknown_upload_changes_nothing_aux (cfg : Config) (w : world) (uploadId : string)
    (i : Z) (data : bytes) :
  uploadId ≠ "" →
  multipartUploads w !! uploadId = None →
  Js.upload_status uploadId w = (NoSuchUpload, w, []) ∧
  Js.upload_chunk (mkChunk uploadId (Some i) (Some data)) w = (NoSuchUpload, w, []) ∧
  Js.upload_complete cfg uploadId w = (NoSuchUpload, w, []) ∧
  Js.upload_cancel uploadId w = (NoSuchUpload, w, []) ∧
  Go.getUploadStatus uploadId w = (NoSuchUpload, w, []) ∧
  Go.uploadChunk (mkChunk uploadId (Some i) (Some data)) w = (NoSuchUpload, w, []) ∧
  Go.completeMultipartUpload cfg uploadId w = (NoSuchUpload, w, []) ∧
  Go.cancelUpload uploadId w = (NoSuchUpload, w, []).
Proof.
  intros Hid Hnone.
  destruct (unknown_upload_404 cfg w uploadId i data Hid Hnone)
    as (H1 & H2 & H3 & H4 & H5 & H6).
  destruct (unknown_cancel_404 w uploadId Hnone) as [H7 H8].
  by split_and!.
Qed.

(** X3. For an upload id that names no session, status, chunk, complete and
    cancel answer 404 on both servers, leave bucket and session map as they
    were and issue no client call. *)
Theorem unknown_upload_changes_nothing (cfg : Config) (w : world) (uploadId : string)
    (i : Z) (data : bytes) :
  uploadId ≠ "" →
  multipartUploads w !! uploadId = None →
  let not_found := (NoSuchUpload, w, @nil call) in
  status NoSuchUpload = 404%Z ∧
  Js.upload_status uploadId w = not_found ∧
  Js.upload_chunk (mkChunk uploadId (Some i) (Some data)) w = not_found ∧
  Js.upload_complete cfg uploadId w = not_found ∧
  Js.upload_cancel uploadId w = not_found ∧
  Go.getUploadStatus uploadId w = not_found ∧
  Go.uploadChunk (mkChunk uploadId (Some i) (Some data)) w = not_found ∧
  Go.completeMultipartUpload cfg uploadId w = not_found ∧
  Go.cancelUpload uploadId w = not_found.
Proof.
  intros Hid Hnone not_found.
  destruct (unknown_upload_changes_nothing_aux cfg w uploadId i data Hid Hnone)
    as (H1 & H2 & H3 & H4 & H5 & H6 & H7 & H8).
  by split_and!.
Qed.

Lemma unknown_upload_changes_nothing_witness :
  Js.upload_cancel "u9" two_of_three = (NoSuchUpload, two_of_three, []) ∧
  Go.uploadChunk (mkChunk "u9" (Some 0%Z) (Some AB)) two_of_three
  = (NoSuchUpload, two_of_three, []).
Proof.
  destruct (unknown_upload_changes_nothing sample_cfg two_of_three "u9" 0 AB
              ltac:(done) eq_refl) as (_ & _ & _ & _ & Hc & _ & Hg & _).
  split; [exact Hc | exact Hg].
Defined.

(** X4. A chunk request that lacks the upload id, the index or the file part
    changes nothing and issues no client call.  server.js always answers 400;
    main.go looks the session up before it asks for the file part, so a
    request without a part for an unknown upload id gets 404, and 400 in
    every other case. *)
Theorem chunk_request_lacking_a_field (req : ChunkRequest) (w : world) :
  req_uploadId req = "" ∨ req_chunkIndex req = None ∨ req_chunk req = None →
  Js.upload_chunk req w = (MissingParams, w, []) ∧
  ∃ r, Go.uploadChunk req w = (r, w, []) ∧
       (r = MissingParams ∨ r = NoSuchUpload) ∧
       (r = NoSuchUpload ↔
        req_uploadId req ≠ "" ∧ is_Some (req_chunkIndex req) ∧
        multipartUploads w !! req_uploadId req = None).
Proof.
  intros Hlack. split.
  - unfold Js.upload_chunk, handle, Js.upload_chunk_body.
    destruct (req_chunkIndex req) as [i|]; [|done].
    destruct (req_chunk req) as [d|]; [|done].
    destruct Hlack as [Hid | [? | ?]]; [|done..].
    by rewrite bool_decide_eq_true_2.
  - unfold Go.uploadChunk, handle, Go.uploadChunk_body.
    case_bool_decide as Hid.
    { eexists. split; [done|]. split; [by left|]. split; [done|]. by intros (? & _). }
    destruct (req_chunkIndex req) as [i|].
    2:{ eexists. split; [done|]. split; [by left|]. split; [done|].
        by intros (_ & [? ?] & _). }
    unfold bind, get_upload.
    destruct (multipartUploads w !! req_uploadId req) as [info|] eqn:Hinfo.
    + destruct (req_chunk req) as [d|].
      { destruct Hlack as [? | [? | ?]]; done. }
      eexists. split; [done|]. split; [by left|]. split; [done|]. by intros (_ & _ & ?).
    + eexists. split; [done|]. split; [by right|]. split; [|done].
      intros _. by split_and!.
Qed.

Lemma chunk_request_lacking_a_field_witness :
  Js.upload_chunk (mkChunk "u9" (Some 0%Z) None) two_of_three
  = (MissingParams, two_of_three, []) ∧
  ∃ r, Go.uploadChunk (mkChunk "u9" (Some 0%Z) None) two_of_three = (r, two_of_three, []) ∧
       r = NoSuchUpload.
Proof.
  destruct (chunk_request_lacking_a_field (mkChunk "u9" (Some 0%Z) None) two_of_three
              (or_intror (or_intror eq_refl))) as (Hjs & r & Hgo & _ & Hiff).
  split; [exact Hjs|]. exists r. split; [exact Hgo|].
  apply Hiff. split_and!; [done | by eexists | reflexivity].
Defined.

(** ** Counting and framing chunk uploads *)

Lemma size_add_index (i : Z) (s : gset Z) :
  size ({[i]} ∪ s) = if bool_decide (i ∈ s) then size s else S (size s).
Proof.
  case_bool_decide as Hin.
  - f_equal. apply subseteq_union_1_L. by apply singleton_subseteq_l.
  - rewrite size_union by (by apply disjoint_singleton_l).
    by rewrite size_singleton.
Qed.

(** X5. A chunk upload that the store accepts answers with the number of
    distinct indices received so far: the count grows by one for an index the
    session did not have and stays for one it had.  The status query that
    follows reports the same count. *)
Theorem chunk_count_tracks_distinct_indices (w : world) (uploadId : string)
    (info : UploadInfo) (i : Z) (data : bytes) :
  uploadId ≠ "" →
  multipartUploads w !! uploadId = Some info →
  fails w = false →
  let req := mkChunk uploadId (Some i) (Some data) in
  let count := if bool_decide (i ∈ uploadedChunks info)
               then size (uploadedChunks info) else S (size (uploadedChunks info)) in
  answer (Js.upload_chunk req w) = ChunkOk i count (totalChunks info) ∧
  answer (Js.upload_status uploadId (after (Js.upload_chunk req w)))
  = StatusOk uploadId (fileName info) count (totalChunks info) ∧
  answer (Go.uploadChunk req w) = ChunkOk i count (totalChunks info) ∧
  answer (Go.getUploadStatus uploadId (after (Go.uploadChunk req w)))
  = StatusOk uploadId (fileName info) count (totalChunks info).
Proof.
  intros Hid Hinfo Hok req count. subst req.
  rewrite (js_upload_chunk_run w uploadId info i data Hid Hinfo).
  rewrite (go_uploadChunk_run w uploadId info i data Hid Hinfo).
  rewrite Hok. unfold answer, after. cbn [fst snd].
  unfold Js.upload_status, Go.getUploadStatus, handle, Js.upload_status_body,
    Go.getUploadStatus_body, bind, get_upload. cbn [multipartUploads].
  rewrite lookup_insert_eq. cbn. rewrite size_add_index. done.
Qed.

Lemma chunk_count_tracks_distinct_indices_witness :
  answer (Js.upload_chunk (mkChunk "u1" (Some 1%Z) (Some CD)) two_of_three) = ChunkOk 1 3 3 ∧
  answer (Go.uploadChunk (mkChunk "u1" (Some 2%Z) (Some CD)) two_of_three) = ChunkOk 2 2 3.
Proof.
  split.
  - exact (proj1 (chunk_count_tracks_distinct_indices two_of_three "u1"
                    (sample_session {[0%Z; 2%Z]}) 1 CD ltac:(done) eq_refl eq_refl)).
  - exact (proj1 (proj2 (proj2 (chunk_count_tracks_distinct_indices two_of_three "u1"
                    (sample_session {[0%Z; 2%Z]}) 2 CD ltac:(done) eq_refl eq_refl)))).
Defined.

Lemma chunk_outcome_frame (w : world) (uploadId : string) (info : UploadInfo)
    (i : Z) (data : bytes) :
  multipartUploads w !! uploadId = Some info →
  let key := chunkObjectName (objectName info) i in
  touches_only_its_part
    (if fails w then (Failed (MinioError (PutObject key data)), used w, [PutObject key data])
     else (ChunkOk i (size ({[i]} ∪ uploadedChunks info)) (totalChunks info),
           World (<[key := data]> (objects w)) (tail (faults w))
             (<[uploadId := add_chunk i info]> (multipartUploads w)),
           [PutObject key data]))
    w uploadId info i data.
Proof.
  intros Hinfo key. unfold touches_only_its_part. fold key.
  destruct (fails w); unfold after, calls; cbn [fst snd objects multipartUploads used].
  - split_and!; [done | done | | done]. exists info. by split_and!.
  - split_and!; [| | | done].
    + intros k Hk. by rewrite lookup_insert_ne.
    + intros other Hother. by rewrite lookup_insert_ne.
    + exists (add_chunk i info). rewrite lookup_insert_eq.
      split_and!; try done. simpl. apply union_subseteq_r.
Qed.

(** X6. A chunk upload to an existing session, whether the store accepts it or
    not, issues exactly one [putObject], on the part key of its index; every
    other key of the bucket and every other session are as before, and the
    session keeps its names, sizes and [totalChunks] while its set of chunks
    does not shrink. *)
Theorem chunk_upload_frame (w : world) (uploadId : string) (info : UploadInfo)
    (i : Z) (data : bytes) :
  uploadId ≠ "" →
  multipartUploads w !! uploadId = Some info →
  touches_only_its_part (Js.upload_chunk (mkChunk uploadId (Some i) (Some data)) w)
    w uploadId info i data ∧
  touches_only_its_part (Go.uploadChunk (mkChunk uploadId (Some i) (Some data)) w)
    w uploadId info i data.
Proof.
  intros Hid Hinfo.
  rewrite (js_upload_chunk_run w uploadId info i data Hid Hinfo).
  rewrite (go_uploadChunk_run w uploadId info i data Hid Hinfo).
  split; by apply chunk_outcome_frame.
Qed.

Lemma chunk_upload_frame_witness :
  touches_only_its_part (Js.upload_chunk (mkChunk "u1" (Some 1%Z) (Some CD)) busy_world)
    busy_world "u1" (sample_session {[0%Z; 5%Z]}) 1 CD ∧
  objects (after (Js.upload_chunk (mkChunk "u1" (Some 1%Z) (Some CD)) busy_world))
    !! "1699_b.txt" = Some EF.
Proof.
  destruct (chunk_upload_frame busy_world "u1" (sample_session {[0%Z; 5%Z]}) 1 CD
              ltac:(done) eq_refl) as [Hjs _].
  split; [exact Hjs|].
  destruct Hjs as (Hkeys & _). rewrite Hkeys; [reflexivity | done].
Defined.

(** ** Completion under store failures *)

Lemma objectName_not_in_part_keys (info : UploadInfo) :
  objectName info ∉ part_keys info.
Proof.
  intros (i & _ & Heq)%elem_of_part_keys. symmetry in Heq.
  by apply objectName_not_chunk in Heq.
Qed.

Lemma js_complete_retires_on_success_only (cfg : Config) (w : world) (uploadId : string) :
  retires_on_success_only (Js.upload_complete cfg uploadId w) w uploadId.
Proof.
  unfold retires_on_success_only.
  destruct (Js.upload_complete cfg uploadId w) as [[resp w'] t] eqn:H.
  unfold answer, after. cbn [fst snd].
  unfold Js.upload_complete, handle, Js.upload_complete_body in H.
  destruct (bool_decide (uploadId = "")); [by injection H as <- <- <-|].
  unfold bind at 1, get_upload in H.
  destruct (multipartUploads w !! uploadId) as [info|] eqn:Hinfo;
    [|by injection H as <- <- <-].
  destruct (bool_decide (Z.of_nat (size (uploadedChunks info)) ≠ totalChunks info));
    [by injection H as <- <- <-|].
  unfold bind at 1 in H.
  destruct (bool_decide (1 < length _)%nat).
  - unfold bind at 1 in H.
    destruct (forM _ _ w) as [[[e1|chunks] w1] t1] eqn:Hread;
      apply (forM_fetch_frame _ js_fetch_frame id) in Hread as (Ho & Hu & _ & _).
    { by injection H as <- <- <-. }
    unfold bind at 1, putObject in H.
    destruct (fails w1); [by injection H as <- <- <-|].
    rewrite forM_remove in H. unfold bind, delete_upload, ret in H.
    cbn [fst snd objects multipartUploads] in H.
    rewrite list_fmap_id in H. fold (part_keys info) in H.
    rewrite drop_parts_uploads in H. cbn [multipartUploads] in H.
    injection H as <- <- <-. cbn [objects multipartUploads].
    exists info. split_and!; [done | done | done | | by rewrite Hu].
    rewrite drop_parts_other by apply objectName_not_in_part_keys.
    cbn [objects]. rewrite lookup_insert_eq. by eexists.
  - destruct (_ !! 0%nat) as [chunk0|] eqn:Hchunk0; [|by injection H as <- <- <-].
    apply list_lookup_fmap_Some in Hchunk0 as (i0 & -> & _).
    unfold bind, copyObject, removeObject, delete_upload, ret in H.
    destruct (fails w); [by injection H as <- <- <-|].
    destruct (objects w !! _) as [d|]; [|by injection H as <- <- <-].
    cbn [fst snd] in H. destruct (fails (World _ _ _)); [by injection H as <- <- <-|].
    cbn [fst snd objects multipartUploads] in H.
    injection H as <- <- <-. cbn [objects multipartUploads].
    exists info. split_and!; [done | done | done | | done].
    rewrite lookup_delete_ne by apply objectName_not_chunk.
    rewrite lookup_insert_eq. by eexists.
Qed.

Lemma go_complete_retires_on_success_only (cfg : Config) (w : world) (uploadID : string) :
  retires_on_success_only (Go.completeMultipartUpload cfg uploadID w) w uploadID.
Proof.
  unfold retires_on_success_only.
  destruct (Go.completeMultipartUpload cfg uploadID w) as [[resp w'] t] eqn:H.
  unfold answer, after. cbn [fst snd].
  unfold Go.completeMultipartUpload, handle, Go.completeMultipartUpload_body in H.
  destruct (bool_decide (uploadID = "")); [by injection H as <- <- <-|].
  unfold bind at 1, get_upload in H.
  destruct (multipartUploads w !! uploadID) as [info|] eqn:Hinfo;
    [|by injection H as <- <- <-].
  destruct (bool_decide (Z.of_nat (size (uploadedChunks info)) ≠ totalChunks info));
    [by injection H as <- <- <-|].
  unfold bind at 1 in H.
  destruct (bool_decide (1 < totalChunks info)%Z).
  - unfold bind at 1 in H.
    destruct (forM _ _ w) as [[[e1|chunks] w1] t1] eqn:Hread;
      apply (forM_fetch_frame _ go_fetch_frame (chunkObjectName (objectName info)))
        in Hread as (Ho & Hu & _ & _).
    { by injection H as <- <- <-. }
    unfold bind at 1, putObject in H.
    destruct (fails w1); [by injection H as <- <- <-|].
    rewrite (forM_remove (chunkObjectName (objectName info))) in H.
    unfold bind, delete_upload, ret in H.
    cbn [fst snd objects multipartUploads] in H.
    fold (part_keys info) in H.
    rewrite drop_parts_uploads in H. cbn [multipartUploads] in H.
    injection H as <- <- <-. cbn [objects multipartUploads].
    exists info. split_and!; [done | done | done | | by rewrite Hu].
    rewrite drop_parts_other by apply objectName_not_in_part_keys.
    cbn [objects]. rewrite lookup_insert_eq. by eexists.
  - unfold bind, copyObject, try_catch, removeObject, delete_upload, ret in H.
    destruct (fails w); [by injection H as <- <- <-|].
    destruct (objects w !! _) as [d|]; [|by injection H as <- <- <-].
    cbn [fst snd] in H.
    destruct (fails (World _ _ _)); cbn [fst snd objects multipartUploads] in H;
      injection H as <- <- <-; cbn [objects multipartUploads];
      exists info; (split_and!; [done | done | done | | done]).
    + rewrite lookup_insert_eq. by eexists.
    + rewrite lookup_delete_ne by apply objectName_not_chunk.
      rewrite lookup_insert_eq. by eexists.
Qed.

(** X7. Whatever the store does, complete removes the session from the map
    exactly when it answers 200, and a 200 means that the final object is in
    the bucket under the session's object name; with any other answer the
    session map is as it was. *)
Theorem complete_retires_session_on_success_only (cfg : Config) (w : world)
    (uploadId : string) :
  retires_on_success_only (Js.upload_complete cfg uploadId w) w uploadId ∧
  retires_on_success_only (Go.completeMultipartUpload cfg uploadId w) w uploadId.
Proof.
  split; [apply js_complete_retires_on_success_only
         | apply go_complete_retires_on_success_only].
Qed.

Lemma js_fetch_quiet (k : string) (w : world) (d : bytes) :
  calm_for 2 w → objects w !! k = Some d →
  (do chunkStream <- Js.getObject k; Js.readStream k chunkStream) w
  = (inr d, World (objects w) (drop 2 (faults w)) (multipartUploads w),
     [GetObject k; ReadStream k]).
Proof.
  unfold calm_for, bind, Js.getObject, Js.readStream, fails, used.
  destruct w as [o fs u]. cbn [objects faults multipartUploads]. intros Hcalm Hd.
  destruct fs as [|b1 [|b2 fs]]; simpl in *;
    repeat match goal with
           | H : Forall _ (_ :: _) |- _ => apply Forall_cons in H as [-> H]
           end;
    simpl; rewrite ?Hd; simpl; rewrite ?Hd; done.
Qed.

Lemma go_fetch_quiet (k : string) (w : world) (d : bytes) :
  calm_for 2 w → objects w !! k = Some d →
  (do obj <- Go.minio_GetObject k; Go.io_ReadAll obj) w
  = (inr d, World (objects w) (drop 2 (faults w)) (multipartUploads w),
     [GetObject k; ReadStream k]).
Proof.
  unfold calm_for, bind, Go.minio_GetObject, Go.io_ReadAll, fails, used.
  destruct w as [o fs u]. cbn [objects faults multipartUploads]. intros Hcalm Hd.
  destruct fs as [|b1 [|b2 fs]]; simpl in *;
    repeat match goal with
           | H : Forall _ (_ :: _) |- _ => apply Forall_cons in H as [-> H]
           end;
    simpl; rewrite ?Hd; simpl; rewrite ?Hd; done.
Qed.

Section quiet.
Context (fetch : string → M bytes).

Hypothesis fetch_quiet : ∀ k w d,
  calm_for 2 w → objects w !! k = Some d →
  fetch k w = (inr d, World (objects w) (drop 2 (faults w)) (multipartUploads w),
               [GetObject k; ReadStream k]).

Lemma forM_fetch_quiet {A} (f : A → string) (l : list A) (w : world) (ds : list bytes) :
  calm_for (2 * length l) w →
  mapM (λ x, objects w !! f x) l = Some ds →
  forM l (λ x, fetch (f x)) w
  = (inr ds, World (objects w) (drop (2 * length l) (faults w)) (multipartUploads w),
     l ≫= (λ x, [GetObject (f x); ReadStream (f x)])).
Proof.
  revert w ds. induction l as [|x l IH]; intros w ds Hcalm Hds.
  - injection Hds as <-. cbn. by rewrite world_eta.
  - cbn [mapM] in Hds.
    destruct (objects w !! f x) as [d|] eqn:Hd; [|done].
    destruct (mapM _ l) as [ds'|] eqn:Hds'; [|done].
    injection Hds as <-.
    replace (2 * length (x :: l))%nat with (2 + 2 * length l)%nat in * by (simpl; lia).
    apply calm_for_split in Hcalm as [Hnow Hlater].
    cbn [forM]. unfold bind at 1. rewrite (fetch_quiet _ _ _ Hnow Hd).
    unfold bind at 1.
    rewrite (IH (World (objects w) (drop 2 (faults w)) (multipartUploads w)) ds')
      by (apply Hlater || done).
    cbn [objects faults multipartUploads]. unfold ret. cbn.
    rewrite app_nil_r. by rewrite !drop_drop.
Qed.
End quiet.

Lemma orphans_after_drop (objs : gmap string bytes) (fs : list bool)
    (ups : gmap string UploadInfo) (info : UploadInfo) (final : bytes) :
  let w' := drop_parts (part_keys info) (World (<[objectName info := final]> objs) fs ups) in
  objects w' !! objectName info = Some final ∧
  (∀ i k, part_keys info !! i = Some k →
          objects w' !! k = if default false (fs !! i) then objs !! k else None) ∧
  (∀ k, k ≠ objectName info → k ∉ part_keys info → objects w' !! k = objs !! k).
Proof.
  intros w'. subst w'. split_and!.
  - rewrite drop_parts_other by apply objectName_not_in_part_keys.
    apply lookup_insert_eq.
  - intros i k Hk.
    rewrite (drop_parts_lookup _ _ i k (NoDup_part_keys info) Hk).
    cbn [objects faults]. destruct (default false (fs !! i)); [|done].
    apply lookup_insert_ne. intros <-.
    apply (objectName_not_in_part_keys info). by eapply list_elem_of_lookup_2.
  - intros k Hk Hout. rewrite drop_parts_other by done. by apply lookup_insert_ne.
Qed.

Lemma js_complete_quiet (cfg : Config) (w : world) (uploadId : string) (info : UploadInfo)
    (parts : list bytes) :
  uploadId ≠ "" →
  multipartUploads w !! uploadId = Some info →
  Z.of_nat (size (uploadedChunks info)) = totalChunks info →
  (1 < totalChunks info)%Z →
  stored_parts (objects w) (objectName info) (totalChunks info) = Some parts →
  calm_for (2 * Z.to_nat (totalChunks info) + 1) w →
  completes_with_orphans (Js.upload_complete cfg uploadId w) w cfg uploadId info parts.
Proof.
  intros Hid Hinfo Hsize Hmulti Hparts Hcalm.
  apply calm_for_split in Hcalm as [Hreads Hput].
  unfold Js.upload_complete, handle, Js.upload_complete_body.
  rewrite bool_decide_eq_false_2 by done.
  unfold bind at 1, get_upload. rewrite Hinfo.
  rewrite (bool_decide_eq_false_2 (_ ≠ _)) by (by intros []).
  unfold bind at 1.
  rewrite bool_decide_eq_true_2 by (rewrite length_fmap, length_seqZ; lia).
  unfold bind at 1.
  match goal with
  | |- context [forM ?l ?body w] =>
      assert (forM l body w
              = (inr parts,
                 World (objects w) (drop (2 * length l) (faults w)) (multipartUploads w),
                 l ≫= (λ x, [GetObject x; ReadStream x]))) as ->
  end.
  { apply (forM_fetch_quiet _ js_fetch_quiet id).
    - by rewrite length_fmap, length_seqZ.
    - unfold stored_parts in Hparts. by rewrite mapM_option_fmap. }
  rewrite length_fmap, length_seqZ.
  unfold bind at 1, putObject.
  rewrite (calm_for_fails 0 _ (Hput (objects w) (multipartUploads w))).
  rewrite forM_remove. unfold bind, delete_upload, ret.
  cbn [fst snd objects faults multipartUploads].
  rewrite list_fmap_id. fold (part_keys info).
  rewrite drop_parts_uploads. cbn [multipartUploads].
  unfold completes_with_orphans, removal_fails, answer, after, calls.
  cbn [fst snd objects multipartUploads].
  destruct (orphans_after_drop (objects w)
              (tail (drop (2 * Z.to_nat (totalChunks info)) (faults w)))
              (multipartUploads w) info (concat parts)) as (H1 & H2 & H3).
  split_and!; [done | done | done | | done |].
  - intros i k Hk. rewrite (H2 i k Hk).
    rewrite <-drop_drop. by destruct (drop _ (faults w)).
  - rewrite !app_nil_r. done.
Qed.

Lemma go_complete_quiet (cfg : Config) (w : world) (uploadID : string) (info : UploadInfo)
    (parts : list bytes) :
  uploadID ≠ "" →
  multipartUploads w !! uploadID = Some info →
  Z.of_nat (size (uploadedChunks info)) = totalChunks info →
  (1 < totalChunks info)%Z →
  stored_parts (objects w) (objectName info) (totalChunks info) = Some parts →
  calm_for (2 * Z.to_nat (totalChunks info) + 1) w →
  completes_with_orphans (Go.completeMultipartUpload cfg uploadID w) w cfg uploadID info
    parts.
Proof.
  intros Hid Hinfo Hsize Hmulti Hparts Hcalm.
  apply calm_for_split in Hcalm as [Hreads Hput].
  unfold Go.completeMultipartUpload, handle, Go.completeMultipartUpload_body.
  rewrite bool_decide_eq_false_2 by done.
  unfold bind at 1, get_upload. rewrite Hinfo.
  rewrite (bool_decide_eq_false_2 (_ ≠ _)) by (by intros []).
  unfold bind at 1.
  rewrite bool_decide_eq_true_2 by done.
  unfold bind at 1.
  match goal with
  | |- context [forM ?l ?body w] =>
      assert (forM l body w
              = (inr parts,
                 World (objects w) (drop (2 * length l) (faults w)) (multipartUploads w),
                 l ≫= (λ i, [GetObject (chunkObjectName (objectName info) i);
                             ReadStream (chunkObjectName (objectName info) i)]))) as ->
  end.
  { apply (forM_fetch_quiet _ go_fetch_quiet (chunkObjectName (objectName info))).
    - by rewrite length_seqZ.
    - done. }
  rewrite length_seqZ.
  unfold bind at 1, putObject.
  rewrite (calm_for_fails 0 _ (Hput (objects w) (multipartUploads w))).
  rewrite (forM_remove (chunkObjectName (objectName info))).
  unfold bind, delete_upload, ret.
  cbn [fst snd objects faults multipartUploads].
  fold (part_keys info).
  rewrite drop_parts_uploads. cbn [multipartUploads].
  unfold completes_with_orphans, removal_fails, answer, after, calls.
  cbn [fst snd objects multipartUploads].
  destruct (orphans_after_drop (objects w)
              (tail (drop (2 * Z.to_nat (totalChunks info)) (faults w)))
              (multipartUploads w) info (concat parts)) as (H1 & H2 & H3).
  split_and!; [done | done | done | | done |].
  - intros i k Hk. rewrite (H2 i k Hk).
    rewrite <-drop_drop. by destruct (drop _ (faults w)).
  - rewrite !app_nil_r. unfold part_keys.
    rewrite list_fmap_bind, <-list_fmap_compose. done.
Qed.

(** X8. Deleting the parts is best effort in the multi-chunk path: when every
    part is stored and the reads and the final write succeed, complete
    answers 200, writes the concatenation of the parts under the object name
    and retires the session whatever the removals do.  It issues the reads,
    the write and then one removal per part, in index order; the part of
    index [i] is gone when its removal succeeded and stays in the bucket, as
    it was, exactly when its removal failed; no other key changes. *)
Theorem complete_tolerates_removal_failures (cfg : Config) (w : world)
    (uploadId : string) (info : UploadInfo) (parts : list bytes) :
  uploadId ≠ "" →
  multipartUploads w !! uploadId = Some info →
  Z.of_nat (size (uploadedChunks info)) = totalChunks info →
  (1 < totalChunks info)%Z →
  stored_parts (objects w) (objectName info) (totalChunks info) = Some parts →
  calm_for (2 * Z.to_nat (totalChunks info) + 1) w →
  completes_with_orphans (Js.upload_complete cfg uploadId w) w cfg uploadId info parts ∧
  completes_with_orphans (Go.completeMultipartUpload cfg uploadId w) w cfg uploadId info
    parts.
Proof.
  intros. split; [by apply js_complete_quiet | by apply go_complete_quiet].
Qed.

Lemma complete_tolerates_removal_failures_witness :
  let w := three_of_three [false; false; false; false; false; false; false; true; false; true] in
  completes_with_orphans (Js.upload_complete sample_cfg "u1" w) w sample_cfg "u1"
    (sample_session {[0%Z; 1%Z; 2%Z]}) [AB; CD; EF] ∧
  removal_fails w (sample_session {[0%Z; 1%Z; 2%Z]}) <$> [0; 1; 2]%nat = [true; false; true] ∧
  objects (after (Go.completeMultipartUpload sample_cfg "u1" w))
  = <["1700_a.bin" := AB ++ CD ++ EF]>
      (<["1700_a.bin.part0" := AB]> (<["1700_a.bin.part2" := EF]> ∅)).
Proof.
  split; [|split; reflexivity].
  apply (complete_tolerates_removal_failures sample_cfg _ "u1"
           (sample_session {[0%Z; 1%Z; 2%Z]}) [AB; CD; EF]);
    [done | reflexivity | reflexivity | reflexivity | reflexivity |].
  unfold calm_for. simpl. repeat constructor.
Defined.

(** X9. The two servers part ways on a one-chunk session whose copy succeeds
    and whose part removal fails: server.js answers 500 and keeps the
    session although the final object is written, main.go answers 200 and
    retires the session; both leave the part in the bucket. *)
Theorem single_chunk_removal_failure_diverges (cfg : Config) (w : world)
    (uploadId : string) (info : UploadInfo) (d : bytes) (fs : list bool) :
  uploadId ≠ "" →
  multipartUploads w !! uploadId = Some info →
  totalChunks info = 1%Z →
  size (uploadedChunks info) = 1%nat →
  objects w !! chunkObjectName (objectName info) 0 = Some d →
  faults w = false :: true :: fs →
  let part0 := chunkObjectName (objectName info) 0 in
  let bucket := <[objectName info := d]> (objects w) in
  let issued := [CopyObject (objectName info) part0; RemoveObject part0] in
  Js.upload_complete cfg uploadId w
  = (Failed (MinioError (RemoveObject part0)), World bucket fs (multipartUploads w), issued) ∧
  Go.completeMultipartUpload cfg uploadId w
  = (CompleteOk (download_url cfg (objectName info)) (fileName info) (objectName info),
     World bucket fs (delete uploadId (multipartUploads w)), issued) ∧
  bucket !! part0 = Some d.
Proof.
  intros Hid Hinfo Hone Hsize Hd Hfaults part0 bucket issued.
  split_and!.
  - unfold Js.upload_complete, handle, Js.upload_complete_body.
    rewrite bool_decide_eq_false_2 by done.
    unfold bind at 1, get_upload. rewrite Hinfo.
    rewrite (bool_decide_eq_false_2 (_ ≠ _)) by (rewrite Hsize, Hone; by intros []).
    rewrite Hone. change (seqZ 0 1) with [0%Z]. cbn [fmap list_fmap length].
    rewrite bool_decide_eq_false_2 by lia. cbn [lookup list_lookup].
    unfold bind, copyObject, removeObject, fails. rewrite Hfaults, Hd. by cbn.
  - unfold Go.completeMultipartUpload, handle, Go.completeMultipartUpload_body.
    rewrite bool_decide_eq_false_2 by done.
    unfold bind at 1, get_upload. rewrite Hinfo.
    rewrite (bool_decide_eq_false_2 (_ ≠ _)) by (rewrite Hsize, Hone; by intros []).
    rewrite Hone. rewrite bool_decide_eq_false_2 by lia.
    unfold bind, copyObject, try_catch, removeObject, delete_upload, ret, fails.
    rewrite Hfaults, Hd. by cbn.
  - unfold bucket. rewrite lookup_insert_ne; [done|].
    intros Heq. symmetry in Heq. by apply objectName_not_chunk in Heq.
Qed.

Lemma single_chunk_removal_failure_diverges_witness :
  let w := World {["1_x.part0" := AB]} [false; true]
             {["u" := mkUploadInfo "x" "1_x" 2 4 1 {[0%Z]} 1]} in
  answer (Js.upload_complete sample_cfg "u" w) = Failed (MinioError (RemoveObject "1_x.part0")) ∧
  answer (Go.completeMultipartUpload sample_cfg "u" w)
  = CompleteOk "http://localhost:9000/uploads/1_x" "x" "1_x".
Proof.
  destruct (single_chunk_removal_failure_diverges sample_cfg
              (World {["1_x.part0" := AB]} [false; true]
                 {["u" := mkUploadInfo "x" "1_x" 2 4 1 {[0%Z]} 1]})
              "u" (mkUploadInfo "x" "1_x" 2 4 1 {[0%Z]} 1) AB []
              ltac:(done) eq_refl eq_refl eq_refl eq_refl eq_refl) as (Hjs & Hgo & _).
  split; [by rewrite Hjs | by rewrite Hgo].
Defined.

(** X10. A completion that failed on a part read or on the final write can be
    retried: when every part is stored and the store has calmed down, the
    second complete answers 200 and the final object is the concatenation of
    the parts. *)
Theorem complete_retry_after_failure (cfg : Config) (w : world) (uploadId : string)
    (info : UploadInfo) (parts : list bytes) (e : exn) (w1 : world) (t : list call) :
  uploadId ≠ "" →
  multipartUploads w !! uploadId = Some info →
  Z.of_nat (size (uploadedChunks info)) = totalChunks info →
  (0 < totalChunks info)%Z →
  stored_parts (objects w) (objectName info) (totalChunks info) = Some parts →
  read_or_write_error e →
  faults w1 = [] →
  let ok := CompleteOk (download_url cfg (objectName info)) (fileName info)
              (objectName info) in
  (Js.upload_complete cfg uploadId w = (Failed e, w1, t) →
   answer (Js.upload_complete cfg uploadId w1) = ok ∧
   objects (after (Js.upload_complete cfg uploadId w1)) !! objectName info
   = Some (concat parts)) ∧
  (Go.completeMultipartUpload cfg uploadId w = (Failed e, w1, t) →
   answer (Go.completeMultipartUpload cfg uploadId w1) = ok ∧
   objects (after (Go.completeMultipartUpload cfg uploadId w1)) !! objectName info
   = Some (concat parts)).
Proof.
  intros Hid Hinfo Hsize Hpos Hparts He Hcalm ok.
  split; intros Hfail.
  - apply js_complete_failure in Hfail as (Ho & Hu & _); [|done].
    destruct (js_complete_calm cfg w1 uploadId info parts) as [t' Hrun];
      [done | done | by rewrite Hu | done | done | by rewrite Ho |].
    rewrite Hrun. unfold answer, after. cbn [fst snd objects].
    split; [done|].
    by destruct (completed_lookup (objects w1) (multipartUploads w1) info (concat parts)).
  - apply go_complete_failure in Hfail as (Ho & Hu & _).
    destruct (go_complete_calm cfg w1 uploadId info parts) as [t' Hrun];
      [done | done | by rewrite Hu | done | done | by rewrite Ho |].
    rewrite Hrun. unfold answer, after. cbn [fst snd objects].
    split; [done|].
    by destruct (completed_lookup (objects w1) (multipartUploads w1) info (concat parts)).
Qed.

Lemma complete_retry_after_failure_witness :
  answer (Js.upload_complete sample_cfg "u1" (three_of_three []))
  = CompleteOk "http://localhost:9000/uploads/1700_a.bin" "a.bin" "1700_a.bin" ∧
  objects (after (Js.upload_complete sample_cfg "u1" (three_of_three []))) !! "1700_a.bin"
  = Some (AB ++ CD ++ EF).
Proof.
  destruct (complete_retry_after_failure sample_cfg (three_of_three [true]) "u1"
              (sample_session {[0%Z; 1%Z; 2%Z]}) [AB; CD; EF]
              (MinioError (GetObject "1700_a.bin.part0")) (three_of_three [])
              [GetObject "1700_a.bin.part0"]
              ltac:(done) eq_refl eq_refl eq_refl eq_refl I eq_refl) as [Hjs _].
  exact (Hjs eq_refl).
Defined.

(** ** Listing, deleting and single-file upload *)

Lemma prefix_split (p s : string) :
  String.prefix p s = true → ∃ b, s = p +:+ b.
Proof.
  revert p. induction s as [|c s IH]; intros [|a p]; cbn [String.prefix].
  - by exists "".
  - done.
  - by eexists.
  - destruct (Ascii.ascii_dec a c) as [->|]; [|done].
    intros [b ->]%IH. by exists b.
Qed.

Lemma Contains_split (s sub : string) :
  Contains s sub = true ↔ ∃ a b, s = a +:+ sub +:+ b.
Proof.
  split; [|intros (a & b & ->); apply Contains_append].
  induction s as [|c s IH].
  - unfold Contains. rewrite orb_false_r. intros [b ->]%prefix_split. by exists "", b.
  - rewrite Contains_cons. intros [[b Hb]%prefix_split | (a & b & ->)%IH]%orb_true_iff.
    + exists "", b. by rewrite Hb.
    + exists (String c a), b. done.
Qed.

Lemma listed_entries (cfg : Config) (objs : gmap string bytes) (keep : string → Prop)
    `{∀ k, Decision (keep k)} (f : file_entry) :
  f ∈ (λ obj, mkFile obj.1 (Z.of_nat (length obj.2)) (download_url cfg obj.1))
        <$> filter (λ obj, keep obj.1) (map_to_list objs)
  ↔ ∃ k d, objs !! k = Some d ∧ keep k ∧
           f = mkFile k (Z.of_nat (length d)) (download_url cfg k).
Proof.
  rewrite list_elem_of_fmap. split.
  - intros ([k d] & -> & [Hkeep Hin%elem_of_map_to_list]%list_elem_of_filter).
    by exists k, d.
  - intros (k & d & Hin & Hkeep & ->). exists (k, d). split; [done|].
    apply list_elem_of_filter. split; [done|]. by apply elem_of_map_to_list.
Qed.

Lemma go_listFiles_run (cfg : Config) (w : world) :
  (fails w = true →
   Go.listFiles cfg w = (Failed (MinioError ListObjects), used w, [ListObjects])) ∧
  (fails w = false →
   ∃ files,
     Go.listFiles cfg w = (FilesOk files, used w, [ListObjects]) ∧
     ∀ f, f ∈ files ↔
          ∃ k d, objects w !! k = Some d ∧ (¬ ∃ a b, k = a +:+ ".part" +:+ b) ∧
                 f = mkFile k (Z.of_nat (length d)) (download_url cfg k)).
Proof.
  unfold Go.listFiles, handle, Go.listFiles_body, bind, listObjects, ret.
  split; intros ->; [done|]. cbn.
  eexists. split; [done|]. intros f.
  pose proof (listed_entries cfg (objects w) (λ k, Contains k ".part" = false) f) as Hl.
  cbn beta in Hl. rewrite Hl. clear Hl.
  split; intros (k & d & Hk & Hplain & ->); exists k, d; (split_and!; [done | | done]).
  - intros Hocc%Contains_split. congruence.
  - destruct (Contains k ".part") eqn:Hc; [|done].
    by apply Contains_split in Hc.
Qed.

(** X11. When the store answers, the listing of main.go names exactly the
    keys of the bucket in which [".part"] does not occur, each with the
    length of its content and its download URL; a finished file whose name
    contains [".part"] is therefore not listed either.  When the store
    fails the answer is 500. *)
Theorem go_listFiles_lists_plain_keys (cfg : Config) (w : world) :
  (fails w = true →
   Go.listFiles cfg w = (Failed (MinioError ListObjects), used w, [ListObjects])) ∧
  (fails w = false →
   ∃ files,
     Go.listFiles cfg w = (FilesOk files, used w, [ListObjects]) ∧
     ∀ f, f ∈ files ↔
          ∃ k d, objects w !! k = Some d ∧ (¬ ∃ a b, k = a +:+ ".part" +:+ b) ∧
                 f = mkFile k (Z.of_nat (length d)) (download_url cfg k)).
Proof. exact (go_listFiles_run cfg w). Qed.

Lemma js_files_list_run (cfg : Config) (w : world) :
  (fails w = true →
   Js.files_list cfg w = (Failed (MinioError ListObjects), used w, [ListObjects])) ∧
  (fails w = false →
   ∃ files,
     Js.files_list cfg w = (FilesOk files, used w, [ListObjects]) ∧
     length files = size (objects w) ∧
     ∀ f, f ∈ files ↔
          ∃ k d, objects w !! k = Some d ∧
                 f = mkFile k (Z.of_nat (length d)) (download_url cfg k)).
Proof.
  unfold Js.files_list, handle, Js.files_list_body, bind, listObjects, ret.
  split; intros ->; [done|]. cbn.
  eexists. split; [done|]. split.
  { by rewrite length_fmap, length_map_to_list. }
  intros f. rewrite list_elem_of_fmap. split.
  - intros ([k d] & -> & Hin%elem_of_map_to_list). by exists k, d.
  - intros (k & d & Hin & ->). exists (k, d). split; [done|].
    by apply elem_of_map_to_list.
Qed.

(** X12. When the store answers, the listing of server.js names every key of
    the bucket, part keys included, each with the length of its content and
    its download URL; when the store fails the answer is 500. *)
Theorem js_files_list_lists_every_key (cfg : Config) (w : world) :
  (fails w = true →
   Js.files_list cfg w = (Failed (MinioError ListObjects), used w, [ListObjects])) ∧
  (fails w = false →
   ∃ files,
     Js.files_list cfg w = (FilesOk files, used w, [ListObjects]) ∧
     length files = size (objects w) ∧
     ∀ f, f ∈ files ↔
          ∃ k d, objects w !! k = Some d ∧
                 f = mkFile k (Z.of_nat (length d)) (download_url cfg k)).
Proof. exact (js_files_list_run cfg w). Qed.

Lemma delete_run (name : string) (w : world) :
  faults w = [] →
  Js.files_delete name w
  = (DeleteOk, World (delete name (objects w)) [] (multipartUploads w), [RemoveObject name]) ∧
  Go.deleteFile name w
  = (DeleteOk, World (delete name (objects w)) [] (multipartUploads w), [RemoveObject name]).
Proof.
  intros Hw.
  unfold Js.files_delete, Go.deleteFile, handle, Js.files_delete_body, Go.deleteFile_body,
    bind, removeObject, ret.
  rewrite (fails_calm w Hw), Hw. done.
Qed.

(** X13. Deleting a file never checks that the name is there, nor whether it
    is the part of an upload in flight: with a store that answers, the
    answer is 200 for any name, the sessions are untouched, and the listing
    that follows is the listing of the other keys. *)
Theorem delete_file_then_list (cfg : Config) (name : string) (w : world) :
  faults w = [] →
  let gone := World (delete name (objects w)) [] (multipartUploads w) in
  Js.files_delete name w = (DeleteOk, gone, [RemoveObject name]) ∧
  Go.deleteFile name w = (DeleteOk, gone, [RemoveObject name]) ∧
  (∃ files,
     answer (Js.files_list cfg gone) = FilesOk files ∧
     ∀ f, f ∈ files ↔
          ∃ k d, k ≠ name ∧ objects w !! k = Some d ∧
                 f = mkFile k (Z.of_nat (length d)) (download_url cfg k)) ∧
  (∃ files,
     answer (Go.listFiles cfg gone) = FilesOk files ∧
     ∀ f, f ∈ files ↔
          ∃ k d, k ≠ name ∧ objects w !! k = Some d ∧
                 (¬ ∃ a b, k = a +:+ ".part" +:+ b) ∧
                 f = mkFile k (Z.of_nat (length d)) (download_url cfg k)).
Proof.
  intros Hw gone.
  destruct (delete_run name w Hw) as [Hjs Hgo].
  split_and!; [done | done | |].
  - destruct (js_files_list_run cfg gone) as [_ Hlist].
    destruct Hlist as (files & Hrun & _ & Hfiles); [done|].
    exists files. rewrite Hrun. split; [done|]. intros f. rewrite Hfiles.
    unfold gone. cbn [objects].
    split; intros (k & d & H); exists k, d.
    + destruct H as [[Hne Hk]%lookup_delete_Some ->]. done.
    + destruct H as (Hne & Hk & ->). split; [|done]. by apply lookup_delete_Some.
  - destruct (go_listFiles_run cfg gone) as [_ Hlist].
    destruct Hlist as (files & Hrun & Hfiles); [done|].
    exists files. rewrite Hrun. split; [done|]. intros f. rewrite Hfiles.
    unfold gone. cbn [objects].
    split; intros (k & d & H); exists k, d.
    + destruct H as ([Hne Hk]%lookup_delete_Some & Hplain & ->). done.
    + destruct H as (Hne & Hk & Hplain & ->). split_and!; [|done..].
      by apply lookup_delete_Some.
Qed.

Lemma delete_file_then_list_witness :
  Js.files_delete "no_such_file" busy_world
  = (DeleteOk, busy_world, [RemoveObject "no_such_file"]) ∧
  objects (after (Go.deleteFile "1700_a.bin.part0" busy_world))
  = <["1700_a.bin.part5" := CD]> (<["1699_b.txt" := EF]> ∅).
Proof.
  destruct (delete_file_then_list sample_cfg "no_such_file" busy_world eq_refl)
    as (Hjs & _).
  destruct (delete_file_then_list sample_cfg "1700_a.bin.part0" busy_world eq_refl)
    as (_ & Hgo & _).
  split; [exact Hjs | by rewrite Hgo].
Defined.

Lemma single_run (cfg : Config) (now : Z) (file : UploadedFile) (w : world) :
  faults w = [] →
  let o := make_objectName now (originalname file) in
  let r := (SingleOk (originalname file) o (download_url cfg o)
              (Z.of_nat (length (buffer file))),
            World (<[o := buffer file]> (objects w)) [] (multipartUploads w),
            [PutObject o (buffer file)]) in
  JsServer.upload_single cfg now (Some file) w = r ∧
  GoServer.uploadSingle cfg now (Some file) w = r.
Proof.
  intros Hw o r.
  unfold JsServer.upload_single, GoServer.uploadSingle, handle_single,
    JsServer.upload_single_body, GoServer.uploadSingle_body, bind, putObject, ret.
  rewrite (fails_calm w Hw), Hw. done.
Qed.

(** X14. A single-file upload that the store accepts answers 200 with the
    file's name, its length and the object name [<now>_<name>], stores the
    bytes under that name and touches no session.  The listing of server.js
    then shows the file; the listing of main.go shows it exactly when
    [".part"] does not occur in the file's name. *)
Theorem single_upload_then_list (cfg : Config) (now : Z) (file : UploadedFile) (w : world) :
  faults w = [] →
  let o := make_objectName now (originalname file) in
  let entry := mkFile o (Z.of_nat (length (buffer file))) (download_url cfg o) in
  let stored := World (<[o := buffer file]> (objects w)) [] (multipartUploads w) in
  let r := (SingleOk (originalname file) o (download_url cfg o)
              (Z.of_nat (length (buffer file))), stored, [PutObject o (buffer file)]) in
  JsServer.upload_single cfg now (Some file) w = r ∧
  GoServer.uploadSingle cfg now (Some file) w = r ∧
  single_status (answer r) = 200%Z ∧
  (∃ files, answer (Js.files_list cfg stored) = FilesOk files ∧ entry ∈ files) ∧
  (∃ files, answer (Go.listFiles cfg stored) = FilesOk files ∧
            (entry ∈ files ↔ ¬ ∃ a b, originalname file = a +:+ ".part" +:+ b)).
Proof.
  intros Hw o entry stored r.
  destruct (single_run cfg now file w Hw) as [Hjs Hgo].
  split_and!; [done | done | done | |].
  - destruct (js_files_list_run cfg stored) as [_ Hlist].
    destruct Hlist as (files & Hrun & _ & Hfiles); [done|].
    exists files. rewrite Hrun. split; [done|]. apply Hfiles.
    exists o, (buffer file). split; [|done]. apply lookup_insert_eq.
  - destruct (go_listFiles_run cfg stored) as [_ Hlist].
    destruct Hlist as (files & Hrun & Hfiles); [done|].
    exists files. rewrite Hrun. split; [done|]. rewrite Hfiles.
    assert ((∃ a b, o = a +:+ ".part" +:+ b) ↔
            (∃ a b, originalname file = a +:+ ".part" +:+ b)) as Hocc.
    { rewrite <-!Contains_split. unfold o. by rewrite make_objectName_Contains. }
    split.
    + intros (k & d & _ & Hplain & [= <- _]). by rewrite <-Hocc.
    + intros Hplain. exists o, (buffer file).
      split_and!; [apply lookup_insert_eq | by rewrite Hocc | done].
Qed.

Lemma single_upload_then_list_witness :
  JsServer.upload_single sample_cfg 1700 (Some sample_file) empty_world
  = (SingleOk "notes.txt" "1700_notes.txt" "http://localhost:9000/uploads/1700_notes.txt" 2,
     World {["1700_notes.txt" := AB]} [] ∅, [PutObject "1700_notes.txt" AB]).
Proof.
  exact (proj1 (single_upload_then_list sample_cfg 1700 sample_file empty_world eq_refl)).
Defined.

(** X15. Uploading a single file under a name that is free and deleting it
    again gives back the world as it was. *)
Theorem single_upload_then_delete (cfg : Config) (now : Z) (file : UploadedFile)
    (w : world) :
  faults w = [] →
  objects w !! make_objectName now (originalname file) = None →
  after (Js.files_delete (make_objectName now (originalname file))
           (after (JsServer.upload_single cfg now (Some file) w))) = w ∧
  after (Go.deleteFile (make_objectName now (originalname file))
           (after (GoServer.uploadSingle cfg now (Some file) w))) = w.
Proof.
  intros Hw Hfree.
  destruct (single_run cfg now file w Hw) as [-> ->].
  unfold after at 2 4. cbn [fst snd].
  destruct (delete_run (make_objectName now (originalname file))
              (World (<[make_objectName now (originalname file) := buffer file]> (objects w))
                 [] (multipartUploads w)) eq_refl) as [-> ->].
  unfold after. cbn [fst snd objects multipartUploads].
  rewrite delete_insert_id by done. rewrite <-Hw. by rewrite world_eta.
Qed.

Lemma single_upload_then_delete_witness :
  after (Js.files_delete "1700_notes.txt"
           (after (JsServer.upload_single sample_cfg 1700 (Some sample_file) busy_world)))
  = busy_world.
Proof.
  exact (proj1 (single_upload_then_delete sample_cfg 1700 sample_file busy_world
                  eq_refl eq_refl)).
Defined.

(** X16. Object names are shared between the single-file route and the parts
    of sessions: a single file named [<fileName>.part<i>], uploaded at the
    clock reading at which the session for [fileName] was created, lands on
    the key of part [i] of that session and replaces its bytes. *)
Theorem single_upload_can_overwrite_part (cfg : Config) (now : Z) (f : string) (i : Z)
    (file : UploadedFile) (info : UploadInfo) (w : world) :
  fails w = false →
  objectName info = make_objectName now f →
  originalname file = f +:+ ".part" +:+ pretty i →
  objects (after (JsServer.upload_single cfg now (Some file) w))
    !! chunkObjectName (objectName info) i = Some (buffer file) ∧
  objects (after (GoServer.uploadSingle cfg now (Some file) w))
    !! chunkObjectName (objectName info) i = Some (buffer file).
Proof.
  intros Hok Hname Hfile.
  assert (make_objectName now (originalname file) = chunkObjectName (objectName info) i)
    as Hkey.
  { rewrite Hname, Hfile. unfold make_objectName, chunkObjectName.
    by rewrite !append_assoc. }
  unfold JsServer.upload_single, GoServer.uploadSingle, handle_single,
    JsServer.upload_single_body, GoServer.uploadSingle_body, bind, putObject, ret, after.
  rewrite Hok, Hkey. cbn. by rewrite lookup_insert_eq.
Qed.

Lemma single_upload_can_overwrite_part_witness :
  objects (after (JsServer.upload_single sample_cfg 1700
                    (Some (mkUploaded "a.bin.part1" EF)) (three_of_three [])))
    !! "1700_a.bin.part1" = Some EF ∧
  objects (after (Js.upload_complete sample_cfg "u1"
                    (after (JsServer.upload_single sample_cfg 1700
                              (Some (mkUploaded "a.bin.part1" EF)) (three_of_three [])))))
    !! "1700_a.bin" = Some (AB ++ EF ++ EF).
Proof.
  split; [|reflexivity].
  exact (proj1 (single_upload_can_overwrite_part sample_cfg 1700 "a.bin" 1
                  (mkUploaded "a.bin.part1" EF) (sample_session {[0%Z; 1%Z; 2%Z]})
                  (three_of_three []) eq_refl eq_refl eq_refl)).
Defined.

(** ** Opening a session *)

(** X17. An init request with a file name and non-zero sizes opens an empty
    session under the new upload id without touching the bucket or any other
    session, and the status query that follows reports no chunk received
    out of the [totalChunks] of the answer. *)
Theorem init_opens_empty_session (uuid : string) (now created : Z) (req : InitRequest)
    (w : world) :
  req_fileName req ≠ "" →
  req_fileSize req ≠ 0%Z →
  req_chunkSize req ≠ 0%Z →
  opens_empty_session (Js.upload_init uuid now created req w) Js.upload_status
    w uuid now req ∧
  opens_empty_session (Go.initMultipartUpload uuid now created req w) Go.getUploadStatus
    w uuid now req.
Proof.
  intros Hname Hsize Hchunk.
  destruct (upload_init_opens uuid now created req w Hname Hsize Hchunk)
    as (info & -> & Hfile & _ & Hnone).
  unfold opens_empty_session, Go.initMultipartUpload, handle,
    Go.initMultipartUpload_body.
  rewrite !bool_decide_eq_false_2 by done.
  unfold bind, set_upload, ret, answer, after, calls. cbn [fst snd orb].
  unfold Js.upload_status, Go.getUploadStatus, handle, Js.upload_status_body,
    Go.getUploadStatus_body, bind, get_upload. cbn [multipartUploads objects].
  rewrite !lookup_insert_eq. cbn. rewrite Hfile, Hnone.
  split; eexists; (split_and!; [done | done | done | | done]);
    intros other Hother; by rewrite lookup_insert_ne.
Qed.

Lemma init_opens_empty_session_witness :
  opens_empty_session (Js.upload_init "u3" 1702 1702 (mkInit "d.bin" 9 3) busy_world)
    Js.upload_status busy_world "u3" 1702 (mkInit "d.bin" 9 3) ∧
  multipartUploads (after (Js.upload_init "u3" 1702 1702 (mkInit "d.bin" 9 3) busy_world))
    !! "u1" = Some (sample_session {[0%Z; 5%Z]}).
Proof.
  destruct (init_opens_empty_session "u3" 1702 1702 (mkInit "d.bin" 9 3) busy_world
              ltac:(done) ltac:(done) ltac:(done)) as [Hjs _].
  split; [exact Hjs|].
  destruct Hjs as (total & _ & _ & _ & Hothers & _).
  rewrite Hothers; [reflexivity | done].
Defined.

(** ** Start-up *)

(** X18. [initConfig] of main.go succeeds exactly when the endpoint, the
    access key, the secret key and the bucket name are set and the port is
    a number for [strconv.Atoi]; the configuration then carries these
    values, the port ["3000"] when PORT is not set, and SSL only for the
    text ["true"].  Otherwise the first check that fails, in the order
    endpoint, port, access key, secret key, bucket name, gives the error. *)
Theorem initConfig_checks (Atoi : string → option Z) (env : gmap string string) :
  let get := GoServer.Getenv env in
  let r := GoServer.initConfig Atoi env in
  ((∃ config, r = inr config) ↔
   get "MINIO_ENDPOINT" ≠ "" ∧ is_Some (Atoi (get "MINIO_PORT")) ∧
   get "MINIO_ACCESS_KEY" ≠ "" ∧ get "MINIO_SECRET_KEY" ≠ "" ∧ get "BUCKET_NAME" ≠ "") ∧
  (∀ config, r = inr config →
     GoServer.Port config = (if bool_decide (get "PORT" = "") then "3000" else get "PORT") ∧
     GoServer.MinioEndpoint config = get "MINIO_ENDPOINT" ∧
     Atoi (get "MINIO_PORT") = Some (GoServer.MinioPort config) ∧
     (GoServer.MinioUseSSL config = true ↔ get "MINIO_USE_SSL" = "true") ∧
     GoServer.MinioAccessKey config = get "MINIO_ACCESS_KEY" ∧
     GoServer.MinioSecretKey config = get "MINIO_SECRET_KEY" ∧
     GoServer.BucketName config = get "BUCKET_NAME") ∧
  (get "MINIO_ENDPOINT" = "" → r = inl GoServer.EndpointUnset) ∧
  (get "MINIO_ENDPOINT" ≠ "" → Atoi (get "MINIO_PORT") = None →
   r = inl GoServer.InvalidPort) ∧
  (get "MINIO_ENDPOINT" ≠ "" → is_Some (Atoi (get "MINIO_PORT")) →
   get "MINIO_ACCESS_KEY" = "" → r = inl GoServer.AccessKeyUnset) ∧
  (get "MINIO_ENDPOINT" ≠ "" → is_Some (Atoi (get "MINIO_PORT")) →
   get "MINIO_ACCESS_KEY" ≠ "" → get "MINIO_SECRET_KEY" = "" →
   r = inl GoServer.SecretKeyUnset) ∧
  (get "MINIO_ENDPOINT" ≠ "" → is_Some (Atoi (get "MINIO_PORT")) →
   get "MINIO_ACCESS_KEY" ≠ "" → get "MINIO_SECRET_KEY" ≠ "" →
   get "BUCKET_NAME" = "" → r = inl GoServer.BucketNameUnset).
Proof.
  intros get r. subst r. unfold GoServer.initConfig. fold get.
  repeat case_bool_decide;
    destruct (Atoi (get "MINIO_PORT")) as [p|] eqn:Hp;
    (split_and!;
     [ split; [intros [config [=]] | intros (? & [? ?] & ? & ? & ?)];
       try done; try (by eexists)
     | intros config [= <-]; cbn; rewrite ?bool_decide_eq_true, ?bool_decide_eq_false;
       try (split_and!; (done || (by rewrite ?bool_decide_eq_true) || idtac))
     | intros; try done ..]);
    try done;
    try (by destruct 1 as [? [=]]);
    try (match goal with H : is_Some None |- _ => by destruct H end).
Qed.

Example initConfig_sample :
  GoServer.initConfig sample_Atoi sample_env
  = inr (GoServer.mkAppConfig "3000" "localhost" 9000 false "minio" "secret" "uploads") ∧
  GoServer.initConfig sample_Atoi (<["MINIO_PORT" := "90x0"]> sample_env)
  = inl GoServer.InvalidPort ∧
  GoServer.initConfig sample_Atoi (delete "BUCKET_NAME" sample_env)
  = inl GoServer.BucketNameUnset.
Proof. split_and!; reflexivity. Qed.

Lemma admin_calm (c : cluster) :
  admin_faults c = [] → admin_fails c = false ∧ admin_faults (admin_used c) = [].
Proof. unfold admin_fails, admin_used. by intros ->. Qed.

Lemma go_initializeBucket_outcome (name : string) (c : cluster) :
  let r := GoServer.initializeBucket name c in
  (r.1.1 = None → bucket_ensured name c (r.1.2)) ∧
  (is_Some r.1.1 → buckets (r.1.2) = buckets c) ∧
  (name ∈ buckets c → ∀ region, MakeBucket name region ∉ r.2) ∧
  (admin_faults c = [] → r.1.1 = None).
Proof.
  intros r. subst r.
  destruct (GoServer.initializeBucket name c) as [[err c'] t] eqn:H.
  cbn [fst snd]. unfold bucket_ensured.
  unfold GoServer.initializeBucket, listBuckets in H.
  destruct (admin_fails c) eqn:F0.
  { injection H as <- <- <-.
    split_and!; [done | done | intros _ region; not_issued |].
    intros [? _]%admin_calm. congruence. }
  unfold bucketExists in H.
  destruct (admin_fails (admin_used c)) eqn:F1.
  { injection H as <- <- <-.
    split_and!; [done | done | intros _ region; not_issued |].
    intros [_ [? _]%admin_calm]%admin_calm. congruence. }
  change (buckets (admin_used c)) with (buckets c) in H.
  case_bool_decide as Hin; cbn [negb] in H.
  { injection H as <- <- <-.
    split_and!; [ | by intros [? [=]] | intros _ region; not_issued | done].
    intros _. split; [done|]. symmetry. cbn.
    apply subseteq_union_1_L. by apply singleton_subseteq_l. }
  unfold makeBucket in H.
  destruct (admin_fails (admin_used (admin_used c))) eqn:F2.
  { injection H as <- <- <-.
    split_and!; [done | done | done |].
    intros [_ [_ [? _]%admin_calm]%admin_calm]%admin_calm. congruence. }
  change (buckets (admin_used (admin_used c))) with (buckets c) in H.
  rewrite bool_decide_eq_false_2 in H by done.
  injection H as <- <- <-.
  split_and!; [ | by intros [? [=]] | done | done].
  intros _. cbn. split; [|done]. apply elem_of_union_l. by apply elem_of_singleton.
Qed.

(** X19. [initializeBucket] of main.go returns no error only with the bucket
    in place: the buckets are then the old ones and the configured one.
    With an error the buckets are as before.  A bucket that is already
    there is never created again, and a server that answers every call
    gives no error. *)
Theorem go_initializeBucket_ensures_bucket (name : string) (c : cluster) :
  let r := GoServer.initializeBucket name c in
  (r.1.1 = None → bucket_ensured name c (r.1.2)) ∧
  (is_Some r.1.1 → buckets (r.1.2) = buckets c) ∧
  (name ∈ buckets c → ∀ region, MakeBucket name region ∉ r.2) ∧
  (admin_faults c = [] → r.1.1 = None).
Proof. exact (go_initializeBucket_outcome name c). Qed.

Lemma go_initializeBucket_ensures_bucket_example :
  GoServer.initializeBucket "uploads" empty_cluster
  = (None, Cluster {["uploads"]} [],
     [ListBuckets; BucketExists "uploads"; MakeBucket "uploads" "us-east-1"]).
Proof. reflexivity. Qed.

(** X20. [initializeBucket] of server.js logs its errors and goes on: the
    bucket is in place afterwards unless a call failed, in which case the
    buckets are as before; [startServer] listens in every case, with or
    without the bucket. *)
Theorem js_startServer_listens_regardless (name : string) (c : cluster) :
  let r := JsServer.startServer name c in
  r.1.1.1 = true ∧
  (r.1.1.2 = BucketCreated → (name ∉ buckets c) ∧ bucket_ensured name c (r.1.2)) ∧
  (r.1.1.2 = BucketAlreadyThere → name ∈ buckets c ∧ buckets (r.1.2) = buckets c) ∧
  (∀ e, r.1.1.2 = BucketInitFailed e → buckets (r.1.2) = buckets c) ∧
  (admin_fails c = true →
   r.1.1.2 = BucketInitFailed (BucketExists name) ∧ r.2 = [BucketExists name]).
Proof.
  intros r. subst r. unfold JsServer.startServer.
  destruct (JsServer.initializeBucket name c) as [[log c'] t] eqn:H.
  cbn [fst snd]. unfold bucket_ensured.
  unfold JsServer.initializeBucket, bucketExists in H.
  destruct (admin_fails c) eqn:F0.
  { injection H as <- <- <-. by split_and!. }
  case_bool_decide as Hin; cbn [negb] in H.
  { injection H as <- <- <-. by split_and!. }
  unfold makeBucket in H.
  destruct (admin_fails (admin_used c)) eqn:F1.
  { injection H as <- <- <-. by split_and!. }
  change (buckets (admin_used c)) with (buckets c) in H.
  rewrite bool_decide_eq_false_2 in H by done.
  injection H as <- <- <-.
  split_and!; [done | | done | done | done].
  intros _. cbn. split_and!; [done | | done].
  apply elem_of_union_l. by apply elem_of_singleton.
Qed.

(** X21. [main] of main.go reaches [app.Listen] only with a configuration
    that [initConfig] accepted, an endpoint the client accepted and the
    configured bucket in place; otherwise it ends with [log.Fatalf]. *)
Theorem go_main_listens_only_when_ready (Atoi : string → option Z)
    (client_ok : string → bool) (env : gmap string string) (c : cluster)
    (config : GoServer.AppConfig) (c' : cluster) (t : list admin_call) :
  GoServer.main Atoi client_ok env c = (GoServer.Listening config, c', t) →
  GoServer.initConfig Atoi env = inr config ∧
  client_ok (GoServer.MinioEndpoint config +:+ ":" +:+ pretty (GoServer.MinioPort config))
  = true ∧
  bucket_ensured (GoServer.BucketName config) c c'.
Proof.
  unfold GoServer.main. intros H.
  destruct (GoServer.initConfig Atoi env) as [e|config0]; [done|].
  destruct (client_ok _) eqn:Hclient; cbn [negb] in H; [|done].
  destruct (GoServer.initializeBucket _ c) as [[[e|] c1] t1] eqn:Hbucket; [done|].
  injection H as -> -> ->.
  split_and!; [done | done |].
  destruct (go_initializeBucket_outcome (GoServer.BucketName config) c) as [Hok _].
  rewrite Hbucket in Hok. by apply Hok.
Qed.

Lemma go_main_listens_only_when_ready_witness :
  bucket_ensured "uploads" empty_cluster (Cluster {["uploads"]} []).
Proof.
  exact (proj2 (proj2 (go_main_listens_only_when_ready sample_Atoi (λ _, true) sample_env
                         empty_cluster
                         (GoServer.mkAppConfig "3000" "localhost" 9000 false "minio"
                            "secret" "uploads")
                         (Cluster {["uploads"]} [])
                         [ListBuckets; BucketExists "uploads";
                          MakeBucket "uploads" "us-east-1"]
                         eq_refl))).
Defined.

(** ** The end of an upload id *)

Lemma retired_lookup (r : response * world * list call) (w : world) (uploadId : string)
    (url f o : string) :
  retires_on_success_only r w uploadId →
  answer r = CompleteOk url f o →
  multipartUploads (after r) !! uploadId = None.
Proof.
  unfold retires_on_success_only. intros Hr Hanswer. rewrite Hanswer in Hr.
  destruct Hr as (info & _ & _ & _ & _ & ->). apply lookup_delete_eq.
Qed.

Lemma complete_needs_upload_id (cfg : Config) (w : world) :
  Js.upload_complete cfg "" w = (MissingParams, w, []) ∧
  Go.completeMultipartUpload cfg "" w = (MissingParams, w, []).
Proof. done. Qed.

(** X22. Once complete has answered 200 the upload id is dead: status, chunk,
    complete and cancel answer 404 for it, change nothing and issue no
    client call. *)
Theorem completed_upload_is_dead (cfg : Config) (w : world) (uploadId : string)
    (url f o : string) (i : Z) (data : bytes) :
  (answer (Js.upload_complete cfg uploadId w) = CompleteOk url f o →
   let w' := after (Js.upload_complete cfg uploadId w) in
   Js.upload_status uploadId w' = (NoSuchUpload, w', []) ∧
   Js.upload_chunk (mkChunk uploadId (Some i) (Some data)) w' = (NoSuchUpload, w', []) ∧
   Js.upload_complete cfg uploadId w' = (NoSuchUpload, w', []) ∧
   Js.upload_cancel uploadId w' = (NoSuchUpload, w', [])) ∧
  (answer (Go.completeMultipartUpload cfg uploadId w) = CompleteOk url f o →
   let w' := after (Go.completeMultipartUpload cfg uploadId w) in
   Go.getUploadStatus uploadId w' = (NoSuchUpload, w', []) ∧
   Go.uploadChunk (mkChunk uploadId (Some i) (Some data)) w' = (NoSuchUpload, w', []) ∧
   Go.completeMultipartUpload cfg uploadId w' = (NoSuchUpload, w', []) ∧
   Go.cancelUpload uploadId w' = (NoSuchUpload, w', [])).
Proof.
  split; intros Hok w'.
  - assert (uploadId ≠ "") as Hid.
    { intros ->. by rewrite (proj1 (complete_needs_upload_id cfg w)) in Hok. }
    pose proof (retired_lookup _ w uploadId url f o
                  (js_complete_retires_on_success_only cfg w uploadId) Hok) as Hgone.
    destruct (unknown_upload_changes_nothing_aux cfg w' uploadId i data Hid Hgone)
      as (H1 & H2 & H3 & H4 & _). done.
  - assert (uploadId ≠ "") as Hid.
    { intros ->. by rewrite (proj2 (complete_needs_upload_id cfg w)) in Hok. }
    pose proof (retired_lookup _ w uploadId url f o
                  (go_complete_retires_on_success_only cfg w uploadId) Hok) as Hgone.
    destruct (unknown_upload_changes_nothing_aux cfg w' uploadId i data Hid Hgone)
      as (_ & _ & _ & _ & H1 & H2 & H3 & H4). done.
Qed.

Lemma completed_upload_is_dead_witness :
  Js.upload_cancel "u1" (after (Js.upload_complete sample_cfg "u1" (three_of_three [])))
  = (NoSuchUpload, after (Js.upload_complete sample_cfg "u1" (three_of_three [])), []) ∧
  Go.completeMultipartUpload sample_cfg "u1"
    (after (Go.completeMultipartUpload sample_cfg "u1" (three_of_three [])))
  = (NoSuchUpload, after (Go.completeMultipartUpload sample_cfg "u1" (three_of_three [])), []).
Proof.
  destruct (completed_upload_is_dead sample_cfg (three_of_three []) "u1"
              "http://localhost:9000/uploads/1700_a.bin" "a.bin" "1700_a.bin" 0 AB)
    as [Hjs Hgo].
  destruct (Hjs eq_refl) as (_ & _ & _ & Hcancel).
  destruct (Hgo eq_refl) as (_ & _ & Hagain & _).
  split; [exact Hcancel | exact Hagain].
Defined.
